(** * DiscordMinecraftLink: a shallow embedding of the server

    The development follows the TypeScript server of the repository:
    the linking-code generator and the [createVerificationFlow],
    [linkDiscordAccount] and [verifyConnection] RPC handlers, the Discord
    fetch client with its retry loop, the token revocation call and the
    JSON-RPC dispatcher [handleRPC].  Further parts cover the
    [getDiscordOAuthLink] handler, the token, profile and guild calls of the
    Discord client, and the script that the web pages share.

    Conventions.
    - Instants and durations returned by [Date.now()] are integers ([Z],
      milliseconds).  Other JavaScript numbers (delays, jitter, expiry
      instants) are IEEE 754 doubles: a value is [NaN], an infinity or a
      rational, and every operation rounds its exact result to the nearest
      double ([Discord.Double]).
    - Every [await result.tryCatch(...)] becomes a value of [Result].
    - What the outside world decides (random bytes, clock readings, HTTP
      outcomes, datastore outages) is an explicit argument of the function
      that consumes it. *)

From Stdlib Require Import ZArith QArith Qminmax List Bool String Ascii Lia Lqa.
From Stdlib.Strings Require Import Byte.
From stdpp Require Import base tactics option list strings gmap.
From Stdlib Require Import Qround Qpower Qreduction.

Local Open Scope Z_scope.

(** ** Results ([utils/result.ts]) *)

Inductive Result (Ok Err : Type) : Type :=
| ResultOk (value : Ok)
| ResultErr (error : Err).
Arguments ResultOk {Ok Err} value.
Arguments ResultErr {Ok Err} error.

(** ** Linking codes ([rpc/createVerificationFlow.ts]) *)

Module LinkingCode.

Definition LENGTH : nat := 8.
Definition CHARS : string := "abcdefghijklmnopqrstuvwxyz0123456789".
Definition charsLength : Z := Z.of_nat (String.length CHARS).
Definition maxValid : Z := 256 - (256 mod charsLength).

(** [s[i]] followed by string concatenation: a missing index would append
    the text of [undefined]. *)
Definition charAt (s : string) (i : Z) : string :=
  match String.get (Z.to_nat i) s with
  | Some c => String c EmptyString
  | None => "undefined"
  end.

Definition byteValue (byte : Byte.byte) : Z := Z.of_N (Byte.to_N byte).

(** The body of the loop once [byte] has been read. *)
Definition pushByte (code : string) (byte : Byte.byte) : string :=
  if byteValue byte <? maxValid
  then String.append code (charAt CHARS (byteValue byte mod charsLength))
  else code.

(** The loop while [arrayIndex < array.length]: [array] is the part of the
    buffer not yet read. *)
Fixpoint scanArray (array : list Byte.byte) (code : string) : string :=
  if (String.length code <? LENGTH)%nat then
    match array with
    | [] => code
    | byte :: rest => scanArray rest (pushByte code byte)
    end
  else code.

(** [random] lists the successive fills of the buffer by
    [crypto.getRandomValues] ([LENGTH * 2] bytes each in the program; no
    statement below depends on their size).  The generator stops as soon as
    the code is complete, and has no answer when the fills run out first. *)
Fixpoint refillLoop (random : list (list Byte.byte)) (code : string)
  : option string :=
  if (String.length code <? LENGTH)%nat then
    match random with
    | [] => None
    | array :: later => refillLoop later (scanArray array code)
    end
  else Some code.

Definition generateLinkingCode (random : list (list Byte.byte)) : option string :=
  refillLoop random "".

(** Vocabulary of the statements. *)

Definition accepted (byte : Byte.byte) : bool := byteValue byte <? maxValid.

Definition symbolOf (byte : Byte.byte) : ascii :=
  match String.get (Z.to_nat (byteValue byte mod charsLength)) CHARS with
  | Some c => c
  | None => "?"%char
  end.

Definition allBytes : list Byte.byte :=
  omap (fun n => Byte.of_N (N.of_nat n)) (seq 0 256).

Definition preimages (c : ascii) : list Byte.byte :=
  List.filter (fun b => accepted b && Ascii.eqb (symbolOf b) c) allBytes.

Definition acceptedBytes (random : list (list Byte.byte)) : list Byte.byte :=
  List.filter accepted (concat random).

(** The text that a sequence of accepted bytes contributes. *)
Definition render (bytes : list Byte.byte) : string :=
  string_of_list_ascii (map symbolOf bytes).

End LinkingCode.

(** ** Tables ([db/schema.ts]) *)

Module Schema.

Record DiscordUser := {
  du_createdAt : Z;
  discordID : string;
  discordRefreshToken : option string;
  du_id : Z
}.

Record MinecraftUser := {
  mu_createdAt : Z;
  mu_id : Z;
  mu_minecraftUUID : string
}.

Record VerificationFlow := {
  vf_createdAt : Z;
  expiresAt : Z;
  vf_id : Z;
  linkingCode : string;
  vf_minecraftUUID : string
}.

Record Connection := {
  cn_createdAt : Z;
  discordUserID : Z;
  cn_id : Z;
  minecraftUserID : Z
}.

(** A table is its rows in rowid order and the AUTOINCREMENT counter (the
    largest rowid the table ever held). *)
Record Table (Row : Type) := {
  rows : list Row;
  sequence : Z
}.
Arguments rows {Row} t.
Arguments sequence {Row} t.

Record DB := {
  discordUsers : Table DiscordUser;
  minecraftUsers : Table MinecraftUser;
  verificationFlows : Table VerificationFlow;
  connections : Table Connection
}.

Definition nextId {Row} (id : Row -> Z) (t : Table Row) : Z :=
  1 + fold_right Z.max (sequence t) (map id (rows t)).

Definition insertRow {Row} (id : Row -> Z) (mk : Z -> Row) (t : Table Row)
  : Table Row :=
  let i := nextId id t in
  {| rows := rows t ++ [mk i]; sequence := i |}.

Definition updateRows {Row} (where_ : Row -> bool) (set : Row -> Row)
  (t : Table Row) : Table Row :=
  {| rows := map (fun r => if where_ r then set r else r) (rows t);
     sequence := sequence t |}.

Definition deleteRows {Row} (where_ : Row -> bool) (t : Table Row) : Table Row :=
  {| rows := List.filter (fun r => negb (where_ r)) (rows t);
     sequence := sequence t |}.

(** [.get()]: the first row of the selection, if any. *)
Definition getRow {Row} (where_ : Row -> bool) (t : Table Row) : option Row :=
  List.find where_ (rows t).

Definition withDiscordUsers (d : DB) t :=
  {| discordUsers := t; minecraftUsers := minecraftUsers d;
     verificationFlows := verificationFlows d; connections := connections d |}.
Definition withMinecraftUsers (d : DB) t :=
  {| discordUsers := discordUsers d; minecraftUsers := t;
     verificationFlows := verificationFlows d; connections := connections d |}.
Definition withVerificationFlows (d : DB) t :=
  {| discordUsers := discordUsers d; minecraftUsers := minecraftUsers d;
     verificationFlows := t; connections := connections d |}.
Definition withConnections (d : DB) t :=
  {| discordUsers := discordUsers d; minecraftUsers := minecraftUsers d;
     verificationFlows := verificationFlows d; connections := t |}.

(** The uniqueness constraints the schema declares: primary keys and the
    [.unique()] columns. *)
Record constraints (d : DB) : Prop := {
  du_pk : NoDup (map du_id (rows (discordUsers d)));
  du_unique_discordID : NoDup (map discordID (rows (discordUsers d)));
  mu_pk : NoDup (map mu_id (rows (minecraftUsers d)));
  mu_unique_uuid : NoDup (map mu_minecraftUUID (rows (minecraftUsers d)));
  vf_pk : NoDup (map vf_id (rows (verificationFlows d)));
  vf_unique_code : NoDup (map linkingCode (rows (verificationFlows d)));
  vf_unique_uuid : NoDup (map vf_minecraftUUID (rows (verificationFlows d)));
  cn_pk : NoDup (map cn_id (rows (connections d)));
  cn_unique_discord : NoDup (map discordUserID (rows (connections d)));
  cn_unique_minecraft : NoDup (map minecraftUserID (rows (connections d)))
}.

End Schema.

(** ** The datastore as the handlers use it

    A statement either raises ([None], for instance on a violated UNIQUE
    constraint) or yields its rows and the next database.  The queries are
    the ones the handlers build with the query builder. *)

Module Datastore.
Import Schema.

Definition Stmt (A : Type) : Type := DB -> option (A * DB).

Definition query {A} (f : DB -> A) : Stmt A := fun d => Some (f d, d).
Definition exec (f : DB -> DB) : Stmt unit := fun d => Some (tt, f d).

(** [db.batch([s1, s2])]: the statements run in order in one transaction;
    when one raises, nothing of the batch is kept. *)
Definition batch {A B} (s1 : Stmt A) (s2 : Stmt B) : Stmt (A * B) :=
  fun d =>
    match s1 d with
    | None => None
    | Some (a, d1) =>
        match s2 d1 with
        | None => None
        | Some (b, d2) => Some ((a, b), d2)
        end
    end.

(** [await result.tryCatch(stmt)]: [outage] says that the call fails for a
    reason outside the database (network, service); it then leaves the
    database as it was. *)
Definition tryCatch {A} (outage : bool) (s : Stmt A) (d : DB)
  : Result A unit * DB :=
  if outage then (ResultErr tt, d)
  else match s d with
       | Some (a, d') => (ResultOk a, d')
       | None => (ResultErr tt, d)
       end.

(** *** verificationFlows *)

Definition selectFlowByUUIDUnexpired (uuid : string) (now : Z)
  : Stmt (option VerificationFlow) :=
  query (fun d => getRow (fun f => String.eqb (vf_minecraftUUID f) uuid
                                    && (now <? expiresAt f))
                         (verificationFlows d)).

Definition selectFlowByCodeUnexpired (code : string) (now : Z)
  : Stmt (option VerificationFlow) :=
  query (fun d => getRow (fun f => String.eqb (linkingCode f) code
                                    && (now <? expiresAt f))
                         (verificationFlows d)).

Definition selectFlowByCode (code : string) : Stmt (option VerificationFlow) :=
  query (fun d => getRow (fun f => String.eqb (linkingCode f) code)
                         (verificationFlows d)).

Definition setExpiresAt (e : Z) (f : VerificationFlow) : VerificationFlow :=
  {| vf_createdAt := vf_createdAt f; expiresAt := e; vf_id := vf_id f;
     linkingCode := linkingCode f; vf_minecraftUUID := vf_minecraftUUID f |}.

Definition updateFlowExpiry (id : Z) (e : Z) : Stmt unit :=
  exec (fun d => withVerificationFlows d
                   (updateRows (fun f => vf_id f =? id) (setExpiresAt e)
                               (verificationFlows d))).

Definition deleteFlowsByUUID (uuid : string) : Stmt unit :=
  exec (fun d => withVerificationFlows d
                   (deleteRows (fun f => String.eqb (vf_minecraftUUID f) uuid)
                               (verificationFlows d))).

Definition deleteFlowById (id : Z) : Stmt unit :=
  exec (fun d => withVerificationFlows d
                   (deleteRows (fun f => vf_id f =? id) (verificationFlows d))).

Definition insertFlow (createdAt expires : Z) (code uuid : string) : Stmt unit :=
  fun d =>
    let t := verificationFlows d in
    if existsb (fun f => String.eqb (linkingCode f) code
                         || String.eqb (vf_minecraftUUID f) uuid) (rows t)
    then None
    else Some (tt, withVerificationFlows d
                     (insertRow vf_id
                        (fun i => {| vf_createdAt := createdAt;
                                     expiresAt := expires; vf_id := i;
                                     linkingCode := code;
                                     vf_minecraftUUID := uuid |}) t)).

(** *** discordUsers *)

Definition setRefreshToken (tok : option string) (u : DiscordUser) : DiscordUser :=
  {| du_createdAt := du_createdAt u; discordID := discordID u;
     discordRefreshToken := tok; du_id := du_id u |}.

(** [insert ... onConflictDoUpdate({target: discordID, set: {token}})
    .returning()]. *)
Definition upsertDiscordUser (createdAt : Z) (did : string) (tok : string)
  : Stmt (list DiscordUser) :=
  fun d =>
    let t := discordUsers d in
    match getRow (fun u => String.eqb (discordID u) did) t with
    | Some u =>
        let u' := setRefreshToken (Some tok) u in
        Some ([u'], withDiscordUsers d
                      (updateRows (fun r => du_id r =? du_id u)
                                  (setRefreshToken (Some tok)) t))
    | None =>
        let u' := {| du_createdAt := createdAt; discordID := did;
                     discordRefreshToken := Some tok;
                     du_id := nextId du_id t |} in
        Some ([u'], withDiscordUsers d
                      (insertRow du_id
                         (fun i => {| du_createdAt := createdAt;
                                      discordID := did;
                                      discordRefreshToken := Some tok;
                                      du_id := i |}) t))
    end.

Definition selectDiscordUserById (id : Z) : Stmt (option DiscordUser) :=
  query (fun d => getRow (fun u => du_id u =? id) (discordUsers d)).

Definition updateRefreshToken (id : Z) (tok : string) : Stmt unit :=
  exec (fun d => withDiscordUsers d
                   (updateRows (fun u => du_id u =? id)
                               (setRefreshToken (Some tok)) (discordUsers d))).

(** *** minecraftUsers *)

(** [insert ... onConflictDoUpdate({target: minecraftUUID,
    set: {minecraftUUID}}).returning()]: on conflict the row is rewritten
    with the value it has. *)
Definition upsertMinecraftUser (createdAt : Z) (uuid : string)
  : Stmt (list MinecraftUser) :=
  fun d =>
    let t := minecraftUsers d in
    match getRow (fun u => String.eqb (mu_minecraftUUID u) uuid) t with
    | Some u => Some ([u], d)
    | None =>
        let u' := {| mu_createdAt := createdAt; mu_id := nextId mu_id t;
                     mu_minecraftUUID := uuid |} in
        Some ([u'], withMinecraftUsers d
                      (insertRow mu_id
                         (fun i => {| mu_createdAt := createdAt; mu_id := i;
                                      mu_minecraftUUID := uuid |}) t))
    end.

Definition selectMinecraftUserByUUID (uuid : string)
  : Stmt (option MinecraftUser) :=
  query (fun d => getRow (fun u => String.eqb (mu_minecraftUUID u) uuid)
                         (minecraftUsers d)).

(** *** connections *)

Definition relink (createdAt did : Z) (c : Connection) : Connection :=
  {| cn_createdAt := createdAt; discordUserID := did; cn_id := cn_id c;
     minecraftUserID := minecraftUserID c |}.

(** [insert ... onConflictDoUpdate({target: minecraftUserID,
    set: {createdAt, discordUserID}})].  The conflict clause covers the
    [minecraftUserID] constraint only: a row of another Minecraft user that
    already holds [did] violates UNIQUE(discordUserID) and the statement
    raises. *)
Definition upsertConnection (createdAt did mid : Z) : Stmt unit :=
  fun d =>
    let t := connections d in
    match getRow (fun c => minecraftUserID c =? mid) t with
    | Some c =>
        if existsb (fun r => (discordUserID r =? did) && negb (cn_id r =? cn_id c))
                   (rows t)
        then None
        else Some (tt, withConnections d
                         (updateRows (fun r => cn_id r =? cn_id c)
                                     (relink createdAt did) t))
    | None =>
        if existsb (fun r => discordUserID r =? did) (rows t)
        then None
        else Some (tt, withConnections d
                         (insertRow cn_id
                            (fun i => {| cn_createdAt := createdAt;
                                         discordUserID := did; cn_id := i;
                                         minecraftUserID := mid |}) t))
    end.

Definition selectConnectionByMinecraftUser (mid : Z) : Stmt (option Connection) :=
  query (fun d => getRow (fun c => minecraftUserID c =? mid) (connections d)).

Definition deleteConnectionById (id : Z) : Stmt unit :=
  exec (fun d => withConnections d
                   (deleteRows (fun c => cn_id c =? id) (connections d))).

End Datastore.

(** ** Untyped payloads

    What [JSON.parse] and [response.json()] produce, typed [unknown] in the
    source until a schema has accepted it. *)

#[local] Unset Elimination Schemes.
Inductive json : Type :=
| JNull
| JBool (b : bool)
| JNumber (n : Q)
| JString (s : string)
| JArray (items : list json)
| JObject (members : list (string * json)).
#[local] Set Elimination Schemes.

(** ** The Discord client ([utils/discord.ts]) *)

Module Discord.

(** The string literals of the error unions. *)
Inductive DiscordErrorCode :=
| network_error | invalid_json | retries_exhausted | timeout
| invalid_auth | unexpected_response | unknown_error | invalid_code
| insufficient_permissions.

Definition isCode (a b : DiscordErrorCode) : bool :=
  match a, b with
  | network_error, network_error | invalid_json, invalid_json
  | retries_exhausted, retries_exhausted | timeout, timeout
  | invalid_auth, invalid_auth | unexpected_response, unexpected_response
  | unknown_error, unknown_error | invalid_code, invalid_code
  | insufficient_permissions, insufficient_permissions => true
  | _, _ => false
  end.

Record FetchValue := { data : json; statusCode : Z }.

(** A JavaScript number: an IEEE 754 double.  A finite double is carried
    by the rational it denotes; the sign of zero is not kept, no comparison
    in the code tells the two zeros apart. *)
Inductive JSNumber := NaN | PosInfinity | NegInfinity | Finite (q : Q).

(** The arithmetic of doubles (binary64): the exact result of an operation
    is rounded to the nearest double, a tie going to the even significand;
    what reaches [2^1024] in magnitude overflows to an infinity. *)
Module Double.

(** [floor (log2 q)] for a positive [q]. *)
Definition ilog2 (q : Q) : Z :=
  let e := Z.log2 (Qnum q) - Z.log2 (Zpos (Qden q)) in
  if Qle_bool (2 ^ e) q then e else e - 1.

(** The nearest integer, a tie going to the even one. *)
Definition nearestEven (q : Q) : Z :=
  let f := Qfloor q in
  match (q - inject_Z f ?= 1 # 2)%Q with
  | Lt => f
  | Gt => f + 1
  | Eq => if Z.even f then f else f + 1
  end.

(** The exponent of the unit in the last place of the doubles around a
    positive [q]: 53 significant bits, subnormals from [2^-1074] on. *)
Definition ulpExponent (q : Q) : Z := Z.max (ilog2 q - 52) (-1074).

Definition roundPositive (q : Q) : Q :=
  let s := ulpExponent q in
  (inject_Z (nearestEven (q / 2 ^ s)) * 2 ^ s)%Q.

Definition nearest (q : Q) : Q :=
  match (q ?= 0)%Q with
  | Eq => 0%Q
  | Gt => roundPositive q
  | Lt => (- roundPositive (- q))%Q
  end.

Definition round (q : Q) : JSNumber :=
  let v := nearest q in
  if Qle_bool (2 ^ 1024) v then PosInfinity
  else if Qle_bool v (- 2 ^ 1024) then NegInfinity
  else Finite (Qred v).

(** An integer clock reading or duration as a number. *)
Definition ofZ (z : Z) : JSNumber := Finite (inject_Z z).

Definition opp (x : JSNumber) : JSNumber :=
  match x with
  | NaN => NaN
  | PosInfinity => NegInfinity
  | NegInfinity => PosInfinity
  | Finite a => Finite (- a)
  end.

Definition add (x y : JSNumber) : JSNumber :=
  match x, y with
  | NaN, _ | _, NaN => NaN
  | PosInfinity, NegInfinity | NegInfinity, PosInfinity => NaN
  | PosInfinity, _ | _, PosInfinity => PosInfinity
  | NegInfinity, _ | _, NegInfinity => NegInfinity
  | Finite a, Finite b => round (a + b)
  end.

Definition sub (x y : JSNumber) : JSNumber := add x (opp y).

(** An infinity times a finite number: by the sign, [NaN] at zero. *)
Definition scaleInfinity (positive : bool) (b : Q) : JSNumber :=
  match (b ?= 0)%Q with
  | Eq => NaN
  | Gt => if positive then PosInfinity else NegInfinity
  | Lt => if positive then NegInfinity else PosInfinity
  end.

Definition mul (x y : JSNumber) : JSNumber :=
  match x, y with
  | NaN, _ | _, NaN => NaN
  | Finite a, Finite b => round (a * b)
  | PosInfinity, PosInfinity | NegInfinity, NegInfinity => PosInfinity
  | PosInfinity, NegInfinity | NegInfinity, PosInfinity => NegInfinity
  | PosInfinity, Finite b | Finite b, PosInfinity => scaleInfinity true b
  | NegInfinity, Finite b | Finite b, NegInfinity => scaleInfinity false b
  end.

(** [2 ** n] for an integer [n]. *)
Definition pow2 (n : Z) : JSNumber := round (2 ^ n).

(** [x <= y] and [x < y]: false when an operand is [NaN]. *)
Definition leb (x y : JSNumber) : bool :=
  match x, y with
  | NaN, _ | _, NaN => false
  | NegInfinity, _ | _, PosInfinity => true
  | PosInfinity, _ | _, NegInfinity => false
  | Finite a, Finite b => Qle_bool a b
  end.

Definition ltb (x y : JSNumber) : bool :=
  match x, y with
  | NaN, _ | _, NaN => false
  | PosInfinity, _ | _, NegInfinity => false
  | NegInfinity, _ | _, PosInfinity => true
  | Finite a, Finite b => negb (Qle_bool b a)
  end.

(** [Math.max(x, y)] and [Math.min(x, y)]. *)
Definition max (x y : JSNumber) : JSNumber :=
  match x, y with
  | NaN, _ | _, NaN => NaN
  | _, _ => if leb x y then y else x
  end.

Definition min (x y : JSNumber) : JSNumber :=
  match x, y with
  | NaN, _ | _, NaN => NaN
  | _, _ => if leb x y then x else y
  end.

End Double.

Inductive InnerError :=
| final (e : DiscordErrorCode)
| retry (afterMs : option JSNumber).

(** What one [fetch] does: it rejects, or it answers with a status, maybe a
    [Retry-After] header, and a body that [response.json()] parses or not. *)
Inductive FetchOutcome :=
| Rejects
| Responds (status : Z) (retryAfter : option string) (body : option json).

(** Everything one iteration of the retry loop observes. *)
Record Attempt := {
  clockAtStart : Z;        (* Date.now() when [remaining] is computed *)
  outcome : FetchOutcome;
  clockInFetch : Z;        (* Date.now() when a Retry-After date is read *)
  wasAborted : bool;       (* the timer fired before the fetch settled *)
  clockAfter : Z;          (* Date.now() when the retry is scheduled *)
  mathRandom : Q           (* Math.random() *)
}.

(** [setTimeout(resolve, ms)], awaited. *)
Inductive Sleep := sleep (ms : JSNumber).

Definition sleepMs (s : Sleep) : JSNumber := match s with sleep ms => ms end.

(** The [i]-th sleep, scheduled in iteration [first + i], lasts a finite
    time that is not negative, and ends before the deadline on the clock of
    that iteration. *)
Definition sleepsMeetDeadline (maxEndTime : Z) (world : nat -> Attempt)
  (first : nat) (sleeps : list Sleep) : Prop :=
  forall i s,
    nth_error sleeps i = Some s ->
    exists ms,
      sleepMs s = Finite ms
      /\ (0 <= ms)%Q
      /\ (inject_Z (clockAfter (world (first + i)%nat)) + ms
          < inject_Z maxEndTime)%Q.

Section Client.

(** Library functions on header text. *)
Variable parseFloat : string -> JSNumber.
Variable dateGetTime : string -> option Z.    (* [None]: an invalid date *)

Definition discordFetchInner (a : Attempt) : Result FetchValue InnerError :=
  match outcome a with
  | Rejects => ResultErr (retry None)
  | Responds status retryAfter body =>
      if status =? 429 then
        match retryAfter with
        | None => ResultErr (retry None)
        | Some header =>
            let viaDate :=
              match dateGetTime header with
              | Some dateUnixMs =>
                  ResultErr
                    (retry (Some (Double.max (Finite 0)
                                    (Double.sub (Double.ofZ dateUnixMs)
                                                (Double.ofZ (clockInFetch a))))))
              | None => ResultErr (retry None)
              end in
            match parseFloat header with
            | NaN | PosInfinity | NegInfinity => viaDate
            | Finite retryAfterNumber =>
                if Qle_bool 0 retryAfterNumber
                then ResultErr
                       (retry (Some (Double.max (Finite 0)
                                       (Double.mul (Finite retryAfterNumber)
                                                   (Finite 1000)))))
                else viaDate
            end
        end
      else if (500 <=? status) && (status <? 600) then ResultErr (retry None)
      else
        match body with
        | None => ResultErr (final invalid_json)
        | Some value => ResultOk {| data := value; statusCode := status |}
        end
  end.

(** The literals [0.3] and [0.85] are the doubles nearest to them. *)
Definition EXTRA_BUFFER_MS : Z := 100.
Definition JITTER_RANGE : JSNumber := Double.round (3 # 10).
Definition JITTER_MIN : JSNumber := Double.round (85 # 100).

Definition jitterOf (a : Attempt) : JSNumber :=
  Double.add (Double.mul (Finite (mathRandom a)) JITTER_RANGE) JITTER_MIN.

(** [Math.min(500 * 2 ** (attempt - 1) * jitter, remainingForBackoff)]. *)
Definition backoffMs (maxEndTime : Z) (attempt : nat) (a : Attempt) : JSNumber :=
  Double.min
    (Double.mul (Double.mul (Finite 500) (Double.pow2 (Z.of_nat attempt - 1)))
                (jitterOf a))
    (Double.ofZ (maxEndTime - clockAfter a - EXTRA_BUFFER_MS)).

Section Loop.

Variable retries : Z.
Variable maxEndTime : Z.
Variable world : nat -> Attempt.    (* what the [attempt]-th iteration observes *)

(** The [for] loop from iteration [attempt] on; [left] counts the
    iterations the loop condition [attempt <= retries + 1] still admits.
    The result comes with the sleeps performed, in order. *)
Fixpoint attemptsFrom (left : nat) (attempt : nat)
  : Result FetchValue DiscordErrorCode * list Sleep :=
  match left with
  | O => (ResultErr retries_exhausted, [])
  | S left' =>
      let a := world attempt in
      let remaining := maxEndTime - clockAtStart a in
      if remaining <=? 0 then (ResultErr timeout, [])
      else
        let result := discordFetchInner a in
        if wasAborted a then (ResultErr timeout, [])
        else
          match result with
          | ResultOk value => (ResultOk value, [])
          | ResultErr (final e) => (ResultErr e, [])
          | ResultErr (retry hint) =>
              if retries <? Z.of_nat attempt
              then (ResultErr retries_exhausted, [])
              else
                match hint with
                | None =>
                    let backoff := backoffMs maxEndTime attempt a in
                    if Double.leb backoff (Finite 0)
                    then (ResultErr retries_exhausted, [])
                    else
                      let '(r, sleeps) := attemptsFrom left' (S attempt) in
                      (r, sleep backoff :: sleeps)
                | Some afterMs =>
                    if Double.leb (Double.ofZ maxEndTime)
                                  (Double.add (Double.ofZ (clockAfter a)) afterMs)
                    then (ResultErr timeout, [])
                    else
                      let '(r, sleeps) := attemptsFrom left' (S attempt) in
                      (r, sleep afterMs :: sleeps)
                end
          end
  end.

End Loop.

(** [startTime] is the reading of [Date.now()] on entry; [retries] is a
    count. *)
Definition discordFetch (retries : option nat) (timeoutMs : option Z)
  (startTime : Z) (world : nat -> Attempt)
  : Result FetchValue DiscordErrorCode * list Sleep :=
  let retries := default 3%nat retries in
  let timeoutMs := default 5000 timeoutMs in
  let maxEndTime := startTime + timeoutMs in
  attemptsFrom (Z.of_nat retries) maxEndTime world (retries + 1) 1.

(** The classification of [revokeDiscordOAuth2Token] after its fetch. *)
Definition revokeResponse (response : Result FetchValue DiscordErrorCode)
  : Result unit DiscordErrorCode :=
  match response with
  | ResultErr e => ResultErr e
  | ResultOk value =>
      if statusCode value =? 401 then ResultErr invalid_auth
      else if negb (statusCode value =? 200) && negb (statusCode value =? 204)
      then ResultErr unexpected_response
      else ResultOk tt
  end.

Definition revokeDiscordOAuth2Token (startTime : Z) (world : nat -> Attempt)
  : Result unit DiscordErrorCode :=
  revokeResponse (fst (discordFetch None None startTime world)).

End Client.

Record DiscordOAuth2TokenData := {
  accessToken : string;
  tokenExpiresAt : Z;
  refreshToken : string;
  scope : list string;
  tokenType : string
}.

Record DiscordUserData := { user_id : string; username : string }.
Record DiscordGuildData := { guild_id : string; guild_name : string }.

End Discord.

(** ** The RPC handlers ([rpc/*.ts]) *)

Module Handlers.
Import Schema Datastore Discord.

(** The error literals of the handlers' result schemas. *)
Inductive DomainError :=
| InvalidSharedSecret | DatabaseError | CodeGenerationFailed
| InvalidState | InvalidLinkingCode | InvalidCode | DiscordError
| AccessDenied | NotLinked | InvalidAuth.

(** The bindings of the worker the handlers read. *)
Record Env := {
  SHARED_SECRET : string;
  DISCORD_GUILD_ID : string
}.

(** The datastore calls of the handlers, by the place of the call. *)
Inductive Call :=
| ExistingFlowQuery | ExpiryUpdate | ExpiredFlowDeletion
| UniquenessCheck (attempt : nat) | CollidingDeletion (attempt : nat)
| FlowInsertion (attempt : nat)
| FlowLookup | UserUpsertBatch | ConnectionBatch
| MinecraftUserLookup | ConnectionLookup | DiscordUserLookup
| RefreshTokenUpdate | ConnectionDeletion.

(** What one execution of a handler gets from outside the program. *)
Record Outside := {
  now : Z;                                         (* Date.now() *)
  outage : Call -> bool;                           (* the call fails outside the database *)
  randomFills : nat -> list (list Byte.byte);      (* fills read by the attempt's code generation *)
  searchParam : string -> string -> option string; (* new URLSearchParams(s).get(k) *)
  coerceNumber : option string -> option Q;        (* z.coerce.number(); None on NaN *)
  tokenWithCode : string -> Result DiscordOAuth2TokenData DiscordErrorCode;
  tokenWithRefreshToken : string -> Result DiscordOAuth2TokenData DiscordErrorCode;
  userData : string -> Result DiscordUserData DiscordErrorCode;
  userGuildsData : string -> Result (list DiscordGuildData) DiscordErrorCode
}.

(** [sharedSecret.compare]: equal lengths and equal bytes. *)
Definition compare (env : Env) (providedSecret : string) : bool :=
  (String.length providedSecret =? String.length (SHARED_SECRET env))%nat
  && String.eqb providedSecret (SHARED_SECRET env).

Definition isMember (env : Env) (guilds : list DiscordGuildData) : bool :=
  existsb (fun guild => String.eqb (guild_id guild) (DISCORD_GUILD_ID env)) guilds.

(** *** createVerificationFlow *)

Definition EXPIRY_DURATION_MS : Z := 15 * 60 * 1000.
Definition MAX_CODE_GENERATION_ATTEMPTS : nat := 5.

Record FlowParams := { fp_minecraftUUID : string; fp_sharedSecret : string }.

(** [value_expiresAt] is the instant that the handler prints as an ISO
    date. *)
Record FlowValue := { value_expiresAt : Z; value_linkingCode : string }.

(** The generation loop from iteration [attempt] on, [left] iterations
    before [attempt] reaches the maximum.  [None]: the code generator did
    not return. *)
Fixpoint generationLoop (out : Outside) (uuid : string) (left attempt : nat)
  (d : DB) : option (Result FlowValue DomainError) * DB :=
  match left with
  | O => (Some (ResultErr CodeGenerationFailed), d)
  | S left' =>
      let now := now out in
      let expiresAt := now + EXPIRY_DURATION_MS in
      match LinkingCode.generateLinkingCode (randomFills out attempt) with
      | None => (None, d)
      | Some linkingCode =>
          let '(existingCode, d) :=
            tryCatch (outage out (UniquenessCheck attempt))
                     (selectFlowByCode linkingCode) d in
          let insertion (d : DB) :=
            let '(insertion, d) :=
              tryCatch (outage out (FlowInsertion attempt))
                       (insertFlow now expiresAt linkingCode uuid) d in
            match insertion with
            | ResultErr _ => (Some (ResultErr DatabaseError), d)
            | ResultOk _ =>
                (Some (ResultOk {| value_expiresAt := expiresAt;
                                   value_linkingCode := linkingCode |}), d)
            end in
          match existingCode with
          | ResultErr _ => (Some (ResultErr DatabaseError), d)
          | ResultOk (Some codeEntry) =>
              if now <? Schema.expiresAt codeEntry
              then generationLoop out uuid left' (S attempt) d
              else
                let '(deletion, d) :=
                  tryCatch (outage out (CollidingDeletion attempt))
                           (deleteFlowById (vf_id codeEntry)) d in
                match deletion with
                | ResultErr _ => (Some (ResultErr DatabaseError), d)
                | ResultOk _ => insertion d
                end
          | ResultOk None => insertion d
          end
      end
  end.

Definition createVerificationFlow (env : Env) (out : Outside)
  (params : FlowParams) (d : DB) : option (Result FlowValue DomainError) * DB :=
  if negb (compare env (fp_sharedSecret params))
  then (Some (ResultErr InvalidSharedSecret), d)
  else
    let now := now out in
    let expiresAt := now + EXPIRY_DURATION_MS in
    let '(existingFlow, d) :=
      tryCatch (outage out ExistingFlowQuery)
               (selectFlowByUUIDUnexpired (fp_minecraftUUID params) now) d in
    match existingFlow with
    | ResultErr _ => (Some (ResultErr DatabaseError), d)
    | ResultOk (Some flow) =>
        let '(update, d) :=
          tryCatch (outage out ExpiryUpdate)
                   (updateFlowExpiry (vf_id flow) expiresAt) d in
        match update with
        | ResultErr _ => (Some (ResultErr DatabaseError), d)
        | ResultOk _ =>
            (Some (ResultOk {| value_expiresAt := expiresAt;
                               value_linkingCode := linkingCode flow |}), d)
        end
    | ResultOk None =>
        let '(deletion, d) :=
          tryCatch (outage out ExpiredFlowDeletion)
                   (deleteFlowsByUUID (fp_minecraftUUID params)) d in
        match deletion with
        | ResultErr _ => (Some (ResultErr DatabaseError), d)
        | ResultOk _ =>
            generationLoop out (fp_minecraftUUID params)
                           MAX_CODE_GENERATION_ATTEMPTS 0 d
        end
    end.

(** *** linkDiscordAccount *)

Record LinkParams := { lp_code : string; lp_state : string }.
Record OAuthState := { st_linkingCode : string; st_timestamp : Q }.
Record LinkValue := { discordUsername : string }.

Definition decodeOAuthState (out : Outside) (state : string) : option OAuthState :=
  match searchParam out state "linkingCode",
        coerceNumber out (searchParam out state "timestamp") with
  | Some code, Some timestamp =>
      Some {| st_linkingCode := code; st_timestamp := timestamp |}
  | _, _ => None
  end.

Definition linkDiscordAccount (env : Env) (out : Outside) (params : LinkParams)
  (d : DB) : Result LinkValue DomainError * DB :=
  let now := now out in
  match decodeOAuthState out (lp_state params) with
  | None => (ResultErr InvalidState, d)
  | Some state =>
  let '(flowResult, d) :=
    tryCatch (outage out FlowLookup)
             (selectFlowByCodeUnexpired (st_linkingCode state) now) d in
  match flowResult with
  | ResultErr _ => (ResultErr DatabaseError, d)
  | ResultOk None => (ResultErr InvalidLinkingCode, d)
  | ResultOk (Some flow) =>
  match tokenWithCode out (lp_code params) with
  | ResultErr e =>
      if isCode e invalid_code then (ResultErr InvalidCode, d)
      else (ResultErr DiscordError, d)
  | ResultOk token =>
  match userData out (accessToken token) with
  | ResultErr _ => (ResultErr DiscordError, d)
  | ResultOk discordUser =>
  match userGuildsData out (accessToken token) with
  | ResultErr _ => (ResultErr DiscordError, d)
  | ResultOk guilds =>
  if negb (isMember env guilds) then (ResultErr AccessDenied, d)
  else
    let '(batch1, d) :=
      tryCatch (outage out UserUpsertBatch)
               (batch (upsertDiscordUser now (user_id discordUser)
                                         (refreshToken token))
                      (upsertMinecraftUser now (vf_minecraftUUID flow))) d in
    match batch1 with
    | ResultErr _ => (ResultErr DatabaseError, d)
    | ResultOk (discordRows, minecraftRows) =>
    match head discordRows, head minecraftRows with
    | Some discordRecord, Some minecraftRecord =>
        let '(connection, d) :=
          tryCatch (outage out ConnectionBatch)
                   (batch (upsertConnection now (du_id discordRecord)
                                            (mu_id minecraftRecord))
                          (deleteFlowById (vf_id flow))) d in
        match connection with
        | ResultErr _ => (ResultErr DatabaseError, d)
        | ResultOk _ =>
            (ResultOk {| discordUsername := username discordUser |}, d)
        end
    | _, _ => (ResultErr DatabaseError, d)
    end
    end
  end end end end end.

(** *** verifyConnection *)

Record VerifyParams := { vp_minecraftUUID : string; vp_sharedSecret : string }.

Definition verifyConnection (env : Env) (out : Outside) (params : VerifyParams)
  (d : DB) : Result unit DomainError * DB :=
  if negb (compare env (vp_sharedSecret params))
  then (ResultErr InvalidSharedSecret, d)
  else
  let '(minecraftUserResult, d) :=
    tryCatch (outage out MinecraftUserLookup)
             (selectMinecraftUserByUUID (vp_minecraftUUID params)) d in
  match minecraftUserResult with
  | ResultErr _ => (ResultErr DatabaseError, d)
  | ResultOk None => (ResultErr NotLinked, d)
  | ResultOk (Some minecraftUser) =>
  let '(connectionResult, d) :=
    tryCatch (outage out ConnectionLookup)
             (selectConnectionByMinecraftUser (mu_id minecraftUser)) d in
  match connectionResult with
  | ResultErr _ => (ResultErr DatabaseError, d)
  | ResultOk None => (ResultErr NotLinked, d)
  | ResultOk (Some connection) =>
  let '(discordUserResult, d) :=
    tryCatch (outage out DiscordUserLookup)
             (selectDiscordUserById (discordUserID connection)) d in
  match discordUserResult with
  | ResultErr _ => (ResultErr DatabaseError, d)
  | ResultOk None => (ResultErr DatabaseError, d)
  | ResultOk (Some discordUser) =>
  match discordRefreshToken discordUser with
  | None => (ResultErr InvalidAuth, d)
  | Some "" => (ResultErr InvalidAuth, d)
  | Some storedToken =>
  match tokenWithRefreshToken out storedToken with
  | ResultErr e =>
      if isCode e invalid_auth then (ResultErr InvalidAuth, d)
      else (ResultErr DiscordError, d)
  | ResultOk token =>
  let '(refreshUpdate, d) :=
    tryCatch (outage out RefreshTokenUpdate)
             (updateRefreshToken (du_id discordUser) (refreshToken token)) d in
  match refreshUpdate with
  | ResultErr _ => (ResultErr DatabaseError, d)
  | ResultOk _ =>
  match userGuildsData out (accessToken token) with
  | ResultErr e =>
      if isCode e invalid_auth then (ResultErr InvalidAuth, d)
      else (ResultErr DiscordError, d)
  | ResultOk guilds =>
  if negb (isMember env guilds) then
    let '(deleteResult, d) :=
      tryCatch (outage out ConnectionDeletion)
               (deleteConnectionById (cn_id connection)) d in
    match deleteResult with
    | ResultErr _ => (ResultErr DatabaseError, d)
    | ResultOk _ => (ResultErr AccessDenied, d)
    end
  else (ResultOk tt, d)
  end end end end end end end.

End Handlers.

(** ** The JSON-RPC dispatcher ([rpcHandler.ts]) *)

Module RPC.

Inductive RequestID := IDString (s : string) | IDNumber (n : Q) | IDNull.

Record RPCError := { code : Z; message : string }.

Module RPCStandardErrors.
Definition internalError := {| code := -32603; message := "Internal error" |}.
Definition invalidParams := {| code := -32602; message := "Invalid params" |}.
Definition invalidRequest := {| code := -32600; message := "Invalid Request" |}.
Definition methodNotFound := {| code := -32601; message := "Method not found" |}.
Definition parseError := {| code := -32700; message := "Parse error" |}.
End RPCStandardErrors.

Inductive Payload (Value : Type) :=
| result (value : Value)
| error (e : RPCError).
Arguments result {Value} value.
Arguments error {Value} e.

Record RPCResponse (Value : Type) := {
  id : RequestID;
  jsonrpc : string;
  payload : Payload Value
}.
Arguments id {Value} r.
Arguments jsonrpc {Value} r.
Arguments payload {Value} r.

(** [RPCResponseSchema]: the two shapes of the union differ by the payload
    only; both want the version literal. *)
Definition RPCResponseSchema {Value} (r : RPCResponse Value) : bool :=
  String.eqb (jsonrpc r) "2.0".

Record RPCRequest := {
  req_id : option RequestID;
  req_method : string;
  req_params : option json
}.

(** The property [key] of a parsed object, [None] when it has none. *)
Fixpoint member (key : string) (members : list (string * json)) : option json :=
  match members with
  | [] => None
  | (k, v) :: rest => if String.eqb k key then Some v else member key rest
  end.

(** [z.union([z.string(), z.number(), z.null()]).optional()]. *)
Definition idSchema (value : option json) : option (option RequestID) :=
  match value with
  | None => Some None
  | Some (JString s) => Some (Some (IDString s))
  | Some (JNumber n) => Some (Some (IDNumber n))
  | Some JNull => Some (Some IDNull)
  | Some _ => None
  end.

Definition RPCRequestSchema (value : json) : option RPCRequest :=
  match value with
  | JObject members =>
      match idSchema (member "id" members),
            member "jsonrpc" members,
            member "method" members with
      | Some i, Some (JString version), Some (JString m) =>
          if String.eqb version "2.0"
          then Some {| req_id := i; req_method := m;
                       req_params := member "params" members |}
          else None
      | _, _, _ => None
      end
  | _ => None
  end.

Section Dispatcher.

Variable World : Type.      (* the state the handlers act on *)
Variable Value : Type.      (* what a handler resolves to *)

(** How the promise of a handler settles. *)
Inductive Settled := Fulfilled (value : Value) | Rejected.

Record RPCHandler := {
  Params : Type;
  method : string;
  paramsSchema : option json -> option Params;
  handler : Params -> World -> Settled * World
}.

Variable JSON_parse : string -> option json.     (* [None]: it throws *)
Variable RPC_HANDLERS : list RPCHandler.

Definition createHandlersMap : gmap string RPCHandler :=
  foldl (fun handlers h => <[method h := h]> handlers) ∅ RPC_HANDLERS.

(** The registry builds the map on first use and keeps it. *)
Definition getHandlers : gmap string RPCHandler := createHandlersMap.

Definition respondError (e : RPCError) (i : RequestID) : RPCResponse Value :=
  {| id := i; jsonrpc := "2.0"; payload := error e |}.

(** [reqText] is the outcome of [result.tryCatch(c.req.text())]. *)
Definition handleRPC (reqText : Result string unit) (w : World)
  : RPCResponse Value * World :=
  let jsonRPCRequestID := IDNull in
  match reqText with
  | ResultErr _ => (respondError RPCStandardErrors.parseError jsonRPCRequestID, w)
  | ResultOk text =>
  match JSON_parse text with
  | None => (respondError RPCStandardErrors.parseError jsonRPCRequestID, w)
  | Some reqJSON =>
  match RPCRequestSchema reqJSON with
  | None => (respondError RPCStandardErrors.invalidRequest jsonRPCRequestID, w)
  | Some rpcRequest =>
  let jsonRPCRequestID := default IDNull (req_id rpcRequest) in
  match getHandlers !! req_method rpcRequest with
  | None => (respondError RPCStandardErrors.methodNotFound jsonRPCRequestID, w)
  | Some h =>
  match paramsSchema h (req_params rpcRequest) with
  | None => (respondError RPCStandardErrors.invalidParams jsonRPCRequestID, w)
  | Some params =>
  let '(handlerResult, w) := handler h params w in
  match handlerResult with
  | Rejected => (respondError RPCStandardErrors.internalError jsonRPCRequestID, w)
  | Fulfilled value =>
      ({| id := jsonRPCRequestID; jsonrpc := "2.0"; payload := result value |}, w)
  end end end end end end.

End Dispatcher.

Arguments Fulfilled {Value} value.
Arguments Rejected {Value}.
Arguments method {World Value} r.
Arguments paramsSchema {World Value} r.
Arguments handler {World Value} r.

End RPC.

(** ** Sample executions

    Concrete environments and databases on which the statements below are
    exercised. *)

Module Sample.
Import Schema Datastore Discord Handlers.

Definition env : Env :=
  {| SHARED_SECRET := "secret"; DISCORD_GUILD_ID := "guild" |}.

Definition token : DiscordOAuth2TokenData :=
  {| accessToken := "access"; tokenExpiresAt := 600000;
     refreshToken := "fresh"; scope := ["identify"; "guilds"]%string;
     tokenType := "Bearer" |}.

Definition dino : DiscordUserData := {| user_id := "D"; username := "dino" |}.

Definition inGuild : list DiscordGuildData :=
  [{| guild_id := "other"; guild_name := "Other" |};
   {| guild_id := "guild"; guild_name := "Server" |}].

Definition notInGuild : list DiscordGuildData :=
  [{| guild_id := "other"; guild_name := "Other" |}].

(** The state text ["linkingCode=aaaaaaaa&timestamp=5"] as
    [URLSearchParams] reads it. *)
Definition stateText : string := "linkingCode=aaaaaaaa&timestamp=5".

Definition outside (at_ : Z) (guilds : list DiscordGuildData) : Outside :=
  {| now := at_;
     outage := fun _ => false;
     randomFills := fun _ =>
       [[x00; xff; x01; x24; xfb; xfc; x25; x47; x48; x49; x0a; x0b;
         x0c; x0d; x0e; x0f]];
     searchParam := fun s k =>
       if String.eqb s stateText then
         if String.eqb k "linkingCode" then Some "aaaaaaaa"%string
         else if String.eqb k "timestamp" then Some "5"%string
         else None
       else None;
     coerceNumber := fun o =>
       match o with
       | None => Some 0%Q
       | Some s => if String.eqb s "5" then Some 5%Q else None
       end;
     tokenWithCode := fun _ => ResultOk token;
     tokenWithRefreshToken := fun _ => ResultOk token;
     userData := fun _ => ResultOk dino;
     userGuildsData := fun _ => ResultOk guilds |}.

(** The same execution with the datastore unreachable at the calls that
    [down] selects. *)
Definition during (down : Call -> bool) (o : Outside) : Outside :=
  {| now := now o; outage := down; randomFills := randomFills o;
     searchParam := searchParam o; coerceNumber := coerceNumber o;
     tokenWithCode := tokenWithCode o;
     tokenWithRefreshToken := tokenWithRefreshToken o;
     userData := userData o; userGuildsData := userGuildsData o |}.

Definition connectionBatchDown (call : Call) : bool :=
  match call with ConnectionBatch => true | _ => false end.

Definition linkParams : LinkParams :=
  {| lp_code := "authcode"; lp_state := stateText |}.

Definition emptyTable {Row} : Table Row := {| rows := []; sequence := 0 |}.

Definition flowM2 : VerificationFlow :=
  {| vf_createdAt := 500; expiresAt := 5000; vf_id := 1;
     linkingCode := "aaaaaaaa"; vf_minecraftUUID := "M2" |}.

(** Discord user [D] is linked to Minecraft user [M1]; a flow is pending
    for the Minecraft user [M2]. *)
Definition linkedDB : DB :=
  {| discordUsers :=
       {| rows := [{| du_createdAt := 1; discordID := "D";
                      discordRefreshToken := Some "stale"%string; du_id := 1 |}];
          sequence := 1 |};
     minecraftUsers :=
       {| rows := [{| mu_createdAt := 1; mu_id := 1; mu_minecraftUUID := "M1" |}];
          sequence := 1 |};
     verificationFlows := {| rows := [flowM2]; sequence := 1 |};
     connections :=
       {| rows := [{| cn_createdAt := 1; discordUserID := 1; cn_id := 1;
                      minecraftUserID := 1 |}];
          sequence := 1 |} |}.

(** Only the flow for [M2] exists. *)
Definition freshDB : DB :=
  {| discordUsers := emptyTable; minecraftUsers := emptyTable;
     verificationFlows := {| rows := [flowM2]; sequence := 1 |};
     connections := emptyTable |}.

(** A connection whose Discord user row is gone. *)
Definition orphanDB : DB :=
  {| discordUsers := emptyTable;
     minecraftUsers :=
       {| rows := [{| mu_createdAt := 1; mu_id := 1; mu_minecraftUUID := "M1" |}];
          sequence := 1 |};
     verificationFlows := emptyTable;
     connections :=
       {| rows := [{| cn_createdAt := 1; discordUserID := 7; cn_id := 1;
                      minecraftUserID := 1 |}];
          sequence := 1 |} |}.

Definition verifyM1 : VerifyParams :=
  {| vp_minecraftUUID := "M1"; vp_sharedSecret := "secret" |}.

Definition flowParamsM2 : FlowParams :=
  {| fp_minecraftUUID := "M2"; fp_sharedSecret := "secret" |}.

(** Header readers for worlds that send no [Retry-After]. *)
Definition parseFloat (header : string) : JSNumber := NaN.
Definition dateGetTime (header : string) : option Z := None.

(** An endpoint that always answers 500, watched by a clock on which the
    attempts start at 0, 550 and 900 ms. *)
Definition serverErrors (attempt : nat) : Attempt :=
  let start := match attempt with 1%nat => 0 | 2%nat => 550 | _ => 900 end in
  {| clockAtStart := start; outcome := Responds 500 None None;
     clockInFetch := start + 40; wasAborted := false;
     clockAfter := start + 50; mathRandom := 1 # 2 |}.

(** An endpoint that answers 201 with the body [null] after 40 ms. *)
Definition created (attempt : nat) : Attempt :=
  {| clockAtStart := 0; outcome := Responds 201 None (Some JNull);
     clockInFetch := 40; wasAborted := false;
     clockAfter := 40; mathRandom := 1 # 2 |}.

(** A registry with the one method [ping], whose handler counts its calls
    and rejects on the parameter [false]; and a parser given by its value
    on two request bodies, which are named here rather than spelled out: a
    well-formed call of [ping] with id 7, and the same request without its
    [jsonrpc] member. *)
Definition ping : RPC.RPCHandler nat json :=
  {| RPC.Params := bool;
     RPC.method := "ping";
     RPC.paramsSchema := fun o =>
       match o with Some (JBool b) => Some b | _ => None end;
     RPC.handler := fun (b : bool) (calls : nat) =>
       if b then (RPC.Fulfilled (JString "pong"), S calls)
       else (RPC.Rejected, S calls) |}.

Definition pingBody : string := "<ping request>".
Definition noVersionBody : string := "<ping request without jsonrpc>".

Definition JSON_parse (text : string) : option json :=
  if String.eqb text pingBody then
    Some (JObject [("jsonrpc", JString "2.0"); ("id", JNumber 7);
                   ("method", JString "ping"); ("params", JBool true)]%string)
  else if String.eqb text noVersionBody then
    Some (JObject [("id", JNumber 7); ("method", JString "ping")]%string)
  else None.

End Sample.

(** ** getDiscordOAuthLink ([rpc/getDiscordOAuthLink.ts]) *)

Module OAuthLink.
Import Schema Datastore Handlers.

(** The bindings this handler reads. *)
Record LinkEnv := {
  DISCORD_CLIENT_ID : string;
  APP_URL : string
}.

Definition DISCORD_SCOPES : list string := ["identify"; "guilds"]%string.

Record OAuthLinkParams := { ol_linkingCode : string }.
Record OAuthLinkValue := { oauthURL : string }.

(** [array.join(separator)]. *)
Fixpoint join (separator : string) (items : list string) : string :=
  match items with
  | [] => ""
  | [item] => item
  | item :: rest => String.append item (String.append separator (join separator rest))
  end.

Section Library.

(** [new URLSearchParams(entries).toString()] and [n.toString()]. *)
Variable searchParamsToString : list (string * string) -> string.
Variable numberToString : Q -> string.

Definition encodeOAuthState (state : OAuthState) : string :=
  searchParamsToString
    [("linkingCode", st_linkingCode state);
     ("timestamp", numberToString (st_timestamp state))]%string.

(** The handler has one datastore call, the lookup of the flow. *)
Definition getDiscordOAuthLink (env : LinkEnv) (out : Outside)
  (params : OAuthLinkParams) (d : DB) : Result OAuthLinkValue DomainError * DB :=
  let now := now out in
  let '(dbResult, d) :=
    tryCatch (outage out FlowLookup)
             (selectFlowByCode (ol_linkingCode params)) d in
  match dbResult with
  | ResultErr _ => (ResultErr DatabaseError, d)
  | ResultOk None => (ResultErr InvalidLinkingCode, d)
  | ResultOk (Some flow) =>
      if expiresAt flow <=? now then (ResultErr InvalidLinkingCode, d)
      else
        let state := {| st_linkingCode := ol_linkingCode params;
                        st_timestamp := inject_Z now |} in
        let encodedState := encodeOAuthState state in
        let redirectUri := String.append (APP_URL env) "/oauth2/discord/" in
        let oauthParams :=
          searchParamsToString
            [("client_id", DISCORD_CLIENT_ID env);
             ("redirect_uri", redirectUri);
             ("response_type", "code");
             ("scope", join " " DISCORD_SCOPES);
             ("state", encodedState)]%string in
        (ResultOk {| oauthURL :=
                       String.append "https://discord.com/oauth2/authorize?"
                                     oauthParams |}, d)
  end.

End Library.

End OAuthLink.

(** ** Token and profile calls ([utils/discord.ts])

    Each function is a fetch followed by a classification of the answer;
    the classification is modelled, as a function of the result of
    [discordFetch].  A schema returns the parsed value, without the members
    it does not declare, or [None]. *)

Module DiscordAPI.
Import Discord.

Definition asString (o : option json) : option string :=
  match o with Some (JString s) => Some s | _ => None end.

Definition asNumber (o : option json) : option Q :=
  match o with Some (JNumber n) => Some n | _ => None end.

(** [z.string().optional()]. *)
Definition asOptionalString (o : option json) : option (option string) :=
  match o with
  | None => Some None
  | Some (JString s) => Some (Some s)
  | Some _ => None
  end.

Record TokenFields := {
  access_token : string;
  expires_in : Q;
  refresh_token : string;
  scope_text : string;
  token_type : string
}.

Definition DiscordOAuth2TokenDataSchema (value : json) : option TokenFields :=
  match value with
  | JObject members =>
      match asString (RPC.member "access_token" members),
            asNumber (RPC.member "expires_in" members),
            asString (RPC.member "refresh_token" members),
            asString (RPC.member "scope" members),
            asString (RPC.member "token_type" members) with
      | Some a, Some e, Some r, Some s, Some t =>
          Some {| access_token := a; expires_in := e; refresh_token := r;
                  scope_text := s; token_type := t |}
      | _, _, _, _, _ => None
      end
  | _ => None
  end.

Record TokenErrorFields := {
  error_name : string;
  error_description : option string
}.

Definition DiscordOAuth2TokenErrorSchema (value : json) : option TokenErrorFields :=
  match value with
  | JObject members =>
      match asString (RPC.member "error" members),
            asOptionalString (RPC.member "error_description" members) with
      | Some e, Some description =>
          Some {| error_name := e; error_description := description |}
      | _, _ => None
      end
  | _ => None
  end.

(** [z.union([data, error])]: the first schema that accepts.  The parsed
    token data has no [error] key, so ['error' in data] tells the two
    apart. *)
Inductive TokenResponse :=
| IsTokenData (fields : TokenFields)
| IsTokenError (fields : TokenErrorFields).

Definition tokenResponseSchema (value : json) : option TokenResponse :=
  match DiscordOAuth2TokenDataSchema value with
  | Some fields => Some (IsTokenData fields)
  | None =>
      match DiscordOAuth2TokenErrorSchema value with
      | Some fields => Some (IsTokenError fields)
      | None => None
      end
  end.

(** [s.split(separator)] for a separator of one character. *)
Fixpoint split (separator : ascii) (s : string) : list string :=
  match s with
  | EmptyString => [EmptyString]
  | String c rest =>
      if Ascii.eqb c separator then EmptyString :: split separator rest
      else
        match split separator rest with
        | first :: others => String c first :: others
        | [] => [String c EmptyString]
        end
  end.

(** The interface [DiscordOAuth2TokenData], with the expiry as the number
    the code computes. *)
Record TokenData := {
  td_accessToken : string;
  td_expiresAt : JSNumber;
  td_refreshToken : string;
  td_scope : list string;
  td_tokenType : string
}.

(** [now] is the reading of [Date.now()] when the token data is built. *)
Definition tokenData (now : Z) (fields : TokenFields) : TokenData :=
  {| td_accessToken := access_token fields;
     td_expiresAt :=
       Double.add (Double.ofZ now)
                  (Double.mul (Double.sub (Finite (expires_in fields)) (Finite 30))
                              (Finite 1000));
     td_refreshToken := refresh_token fields;
     td_scope := split " " (scope_text fields);
     td_tokenType := token_type fields |}.

Definition createDiscordOAuth2TokenWithCode (now : Z)
  (response : Result FetchValue DiscordErrorCode)
  : Result TokenData DiscordErrorCode :=
  match response with
  | ResultErr e => ResultErr e
  | ResultOk value =>
      if statusCode value =? 401 then ResultErr invalid_auth
      else
        match tokenResponseSchema (data value) with
        | None => ResultErr unexpected_response
        | Some (IsTokenError fields) =>
            if String.eqb (error_name fields) "invalid_grant"
            then ResultErr invalid_code
            else ResultErr unknown_error
        | Some (IsTokenData fields) => ResultOk (tokenData now fields)
        end
  end.

Definition createDiscordOAuth2TokenWithRefreshToken (now : Z)
  (response : Result FetchValue DiscordErrorCode)
  : Result TokenData DiscordErrorCode :=
  match response with
  | ResultErr e => ResultErr e
  | ResultOk value =>
      if statusCode value =? 401 then ResultErr invalid_auth
      else
        match tokenResponseSchema (data value) with
        | None => ResultErr unexpected_response
        | Some (IsTokenError fields) =>
            if String.eqb (error_name fields) "invalid_grant"
            then ResultErr invalid_auth
            else ResultErr unknown_error
        | Some (IsTokenData fields) => ResultOk (tokenData now fields)
        end
  end.

Record APIError := { api_code : Q; api_message : string }.

Definition DiscordAPIErrorResponseSchema (value : json) : option APIError :=
  match value with
  | JObject members =>
      match asNumber (RPC.member "code" members),
            asString (RPC.member "message" members) with
      | Some c, Some m => Some {| api_code := c; api_message := m |}
      | _, _ => None
      end
  | _ => None
  end.

Definition DiscordAPIUserDataSchema (value : json) : option DiscordUserData :=
  match value with
  | JObject members =>
      match asString (RPC.member "id" members),
            asString (RPC.member "username" members) with
      | Some i, Some u => Some {| user_id := i; username := u |}
      | _, _ => None
      end
  | _ => None
  end.

Definition fetchDiscordUserData (response : Result FetchValue DiscordErrorCode)
  : Result DiscordUserData DiscordErrorCode :=
  match response with
  | ResultErr e => ResultErr e
  | ResultOk value =>
      if statusCode value =? 401 then ResultErr invalid_auth
      else if statusCode value =? 403 then ResultErr insufficient_permissions
      else
        match DiscordAPIUserDataSchema (data value) with
        | Some user => ResultOk user
        | None =>
            match DiscordAPIErrorResponseSchema (data value) with
            | Some _ => ResultErr unexpected_response
            | None => ResultErr unexpected_response
            end
        end
  end.

Definition DiscordAPIGuildDataSchema (value : json) : option DiscordGuildData :=
  match value with
  | JObject members =>
      match asString (RPC.member "id" members),
            asString (RPC.member "name" members) with
      | Some i, Some n => Some {| guild_id := i; guild_name := n |}
      | _, _ => None
      end
  | _ => None
  end.

(** [z.array(schema)]: every element has to pass. *)
Fixpoint arrayOf {A} (schema : json -> option A) (items : list json)
  : option (list A) :=
  match items with
  | [] => Some []
  | item :: rest =>
      match schema item, arrayOf schema rest with
      | Some a, Some others => Some (a :: others)
      | _, _ => None
      end
  end.

Definition guildListSchema (value : json) : option (list DiscordGuildData) :=
  match value with
  | JArray items => arrayOf DiscordAPIGuildDataSchema items
  | _ => None
  end.

Definition fetchDiscordUserGuildsData (response : Result FetchValue DiscordErrorCode)
  : Result (list DiscordGuildData) DiscordErrorCode :=
  match response with
  | ResultErr e => ResultErr e
  | ResultOk value =>
      if statusCode value =? 401 then ResultErr invalid_auth
      else if statusCode value =? 403 then ResultErr insufficient_permissions
      else
        match guildListSchema (data value) with
        | Some guilds => ResultOk guilds
        | None =>
            match DiscordAPIErrorResponseSchema (data value) with
            | Some _ => ResultErr unexpected_response
            | None => ResultErr unexpected_response
            end
        end
  end.

End DiscordAPI.

(** ** The script of the web pages ([public/*.js])

    Both pages carry the same [generateUUID] and [makeRPCRequest]. *)

Module WebClient.

(** [x | 0]: truncation towards zero, then wrap-around to 32 bits. *)
Definition toInt32 (x : Q) : Z :=
  let truncated := if Qle_bool 0 x then Qfloor x else Qceiling x in
  (truncated + 2 ^ 31) mod 2 ^ 32 - 2 ^ 31.

Definition hexDigit (n : Z) : ascii :=
  nth (Z.to_nat n) (list_ascii_of_string "0123456789abcdef") "0"%char.

Fixpoint hexDigits (fuel : nat) (n : Z) (acc : string) : string :=
  match fuel with
  | O => acc
  | S fuel =>
      let acc := String (hexDigit (n mod 16)) acc in
      if n / 16 =? 0 then acc else hexDigits fuel (n / 16) acc
  end.

(** [v.toString(16)] of a 32-bit integer: at most eight digits. *)
Definition toString16 (v : Z) : string :=
  if v <? 0 then String "-" (hexDigits 8 (- v) "") else hexDigits 8 v "".

(** The callback of the replacement; [random] is what [Math.random()]
    returns in this call. *)
Definition replacement (random : Q) (c : ascii) : string :=
  let r := toInt32 (random * 16) in
  let v := if Ascii.eqb c "x" then r else Z.lor (Z.land r 3) 8 in
  toString16 v.

(** [template.replace(/[xy]/g, callback)]: the matches are replaced from
    left to right, one call of [Math.random] each. *)
Fixpoint replaceXY (template : string) (random : nat -> Q) (calls : nat) : string :=
  match template with
  | EmptyString => EmptyString
  | String c rest =>
      if Ascii.eqb c "x" || Ascii.eqb c "y"
      then String.append (replacement (random calls) c)
                         (replaceXY rest random (S calls))
      else String c (replaceXY rest random calls)
  end.

(** [randomUUID] is the answer of [crypto.randomUUID()] where the browser
    has it. *)
Definition generateUUID (randomUUID : option string) (random : nat -> Q) : string :=
  match randomUUID with
  | Some uuid => uuid
  | None => replaceXY "xxxxxxxx-xxxx-4xxx-yxxx-xxxxxxxxxxxx" random 0
  end.

Inductive RequestError :=
| networkError | parseError | rpcParseError | rpcInvalidRequest
| rpcMethodNotFound | rpcInvalidParams | rpcInternalError.

(** What [fetch] and [response.json()] do. *)
Inductive Exchange :=
| FetchRejects
| JsonRejects
| Parsed (rpcResponse : json).

(** The value of a success is [undefined] ([None]) when the answer has no
    [result]. *)
Inductive Reply :=
| success (value : option json)
| failure (error : RequestError).

Definition isNumber (value : option json) (n : Z) : bool :=
  match value with
  | Some (JNumber q) => Qeq_bool q (inject_Z n)
  | _ => false
  end.

Definition switchErrorCode (errorCode : option json) : RequestError :=
  if isNumber errorCode (-32700) then rpcParseError
  else if isNumber errorCode (-32600) then rpcInvalidRequest
  else if isNumber errorCode (-32601) then rpcMethodNotFound
  else if isNumber errorCode (-32602) then rpcInvalidParams
  else if isNumber errorCode (-32603) then rpcInternalError
  else rpcInternalError.

(** [None]: a [TypeError] escapes, from [in] applied to a value that is
    not an object or from reading [code] of [null].  Reading [code] of a
    number, a string, a boolean or an array gives [undefined]. *)
Definition makeRPCRequest (exchange : Exchange) : option Reply :=
  match exchange with
  | FetchRejects => Some (failure networkError)
  | JsonRejects => Some (failure parseError)
  | Parsed rpcResponse =>
      match rpcResponse with
      | JObject members =>
          match RPC.member "error" members with
          | Some JNull => None
          | Some (JObject error) =>
              Some (failure (switchErrorCode (RPC.member "code" error)))
          | Some _ => Some (failure (switchErrorCode None))
          | None => Some (success (RPC.member "result" members))
          end
      | JArray _ => Some (success None)
      | _ => None
      end
  end.

(** What the client parses when the server answers [c.json(response)]:
    the members of the object literals of [handleRPC].  [valueJSON] is the
    serialisation of the value of a handler, [None] for [undefined], which
    [JSON.stringify] leaves out. *)
Definition idJSON (i : RPC.RequestID) : json :=
  match i with
  | RPC.IDString s => JString s
  | RPC.IDNumber n => JNumber n
  | RPC.IDNull => JNull
  end.

Definition errorJSON (e : RPC.RPCError) : json :=
  JObject [("code", JNumber (inject_Z (RPC.code e)));
           ("message", JString (RPC.message e))]%string.

Definition responseJSON {Value} (valueJSON : Value -> option json)
  (r : RPC.RPCResponse Value) : json :=
  match RPC.payload r with
  | RPC.error e =>
      JObject [("error", errorJSON e); ("id", idJSON (RPC.id r));
               ("jsonrpc", JString (RPC.jsonrpc r))]%string
  | RPC.result value =>
      JObject ([("id", idJSON (RPC.id r));
                ("jsonrpc", JString (RPC.jsonrpc r))]%string
               ++ match valueJSON value with
                  | Some j => [("result"%string, j)]
                  | None => []
                  end)
  end.

End WebClient.

(** ** Vocabulary for further statements *)

Module Vocabulary.
Import Schema.

(** [code] is held by a flow that has not expired at [now]. *)
Definition liveCollision (d : DB) (now : Z) (code : string) : bool :=
  existsb (fun f => String.eqb (linkingCode f) code && (now <? expiresAt f))
          (rows (verificationFlows d)).

(** The statuses that the Discord client retries. *)
Definition retryable (status : Z) : Prop :=
  status = 429 \/ 500 <= status < 600.

(** The execution [o] with another reading of numbers by
    [z.coerce.number()]. *)
Definition withCoerceNumber (coerce : option string -> option Q)
  (o : Handlers.Outside) : Handlers.Outside :=
  {| Handlers.now := Handlers.now o;
     Handlers.outage := Handlers.outage o;
     Handlers.randomFills := Handlers.randomFills o;
     Handlers.searchParam := Handlers.searchParam o;
     Handlers.coerceNumber := coerce;
     Handlers.tokenWithCode := Handlers.tokenWithCode o;
     Handlers.tokenWithRefreshToken := Handlers.tokenWithRefreshToken o;
     Handlers.userData := Handlers.userData o;
     Handlers.userGuildsData := Handlers.userGuildsData o |}.

(** The foreign keys the schema declares: a connection references a row
    of [discordUsers] and a row of [minecraftUsers] by their ids. *)
Definition referential (d : DB) : Prop :=
  forall c, In c (rows (connections d)) ->
    In (discordUserID c) (map du_id (rows (discordUsers d)))
    /\ In (minecraftUserID c) (map mu_id (rows (minecraftUsers d))).

(** The database right after the migration, and the databases that calls
    of the handlers lead to from it, whatever the configuration, the
    parameters and the outside world of each call. *)
Definition emptyDB : DB :=
  {| discordUsers := {| rows := []; sequence := 0 |};
     minecraftUsers := {| rows := []; sequence := 0 |};
     verificationFlows := {| rows := []; sequence := 0 |};
     connections := {| rows := []; sequence := 0 |} |}.

(** The textual form of a version-4 UUID: in [pattern], [h] stands for a
    hexadecimal digit, [v] for one of [8], [9], [a], [b], and every other
    character for itself. *)
Definition isHex (c : ascii) : bool :=
  existsb (Ascii.eqb c) (list_ascii_of_string "0123456789abcdef").

Definition isVariant (c : ascii) : bool :=
  existsb (Ascii.eqb c) (list_ascii_of_string "89ab").

Fixpoint matchesPattern (pattern text : string) : bool :=
  match pattern, text with
  | EmptyString, EmptyString => true
  | String p pattern, String c text =>
      (if Ascii.eqb p "h" then isHex c
       else if Ascii.eqb p "v" then isVariant c
       else Ascii.eqb p c)
      && matchesPattern pattern text
  | _, _ => false
  end.

Definition isUUIDv4 (text : string) : bool :=
  matchesPattern "hhhhhhhh-hhhh-4hhh-vhhh-hhhhhhhhhhhh" text.

Inductive reachable : DB -> Prop :=
| reach_empty : reachable emptyDB
| reach_createVerificationFlow env out params d :
    reachable d ->
    reachable (snd (Handlers.createVerificationFlow env out params d))
| reach_linkDiscordAccount env out params d :
    reachable d ->
    reachable (snd (Handlers.linkDiscordAccount env out params d))
| reach_verifyConnection env out params d :
    reachable d ->
    reachable (snd (Handlers.verifyConnection env out params d)).

End Vocabulary.

(** ** Further sample data *)

Module Cases.
Import Schema.

(** An expired flow of the Minecraft user [M3] that holds the code the
    sample random source produces. *)
Definition staleDB : DB :=
  {| discordUsers := Sample.emptyTable; minecraftUsers := Sample.emptyTable;
     verificationFlows :=
       {| rows := [{| vf_createdAt := 500; expiresAt := 5000; vf_id := 1;
                      linkingCode := "aba9b9ab"; vf_minecraftUUID := "M3" |}];
          sequence := 1 |};
     connections := Sample.emptyTable |}.

(** Another reading of the timestamp: every text is the number 0. *)
Definition coerceZero (o : option string) : option Q := Some 0%Q.

(** A stand-in for [URLSearchParams.toString] that keeps the values and
    drops the keys, and a number printer that prints nothing. *)
Definition valuesOnly (entries : list (string * string)) : string :=
  OAuthLink.join "&" (map snd entries).
Definition printNothing (n : Q) : string := "".

Definition linkEnv : OAuthLink.LinkEnv :=
  {| OAuthLink.DISCORD_CLIENT_ID := "client"; OAuthLink.APP_URL := "https://app" |}.

(** An endpoint that answers 429 with a [Retry-After] header after 50 ms
    and, asked again, 201; and a reading of every header text as the double
    [0.1]. *)
Definition rateLimited (attempt : nat) : Discord.Attempt :=
  match attempt with
  | 1%nat =>
      {| Discord.clockAtStart := 0;
         Discord.outcome := Discord.Responds 429 (Some "0.1"%string) None;
         Discord.clockInFetch := 40; Discord.wasAborted := false;
         Discord.clockAfter := 50; Discord.mathRandom := 1 # 2 |}
  | _ =>
      {| Discord.clockAtStart := 150;
         Discord.outcome := Discord.Responds 201 None (Some JNull);
         Discord.clockInFetch := 190; Discord.wasAborted := false;
         Discord.clockAfter := 190; Discord.mathRandom := 1 # 2 |}
  end.
Definition parseTenth (header : string) : Discord.JSNumber :=
  Discord.Finite (3602879701896397 # 36028797018963968).

(** Bodies of the three Discord endpoints.  The token lives 20.1 s, read
    as the nearest double; the profile carries a member the schema does not
    name; the second guild is the configured one. *)
Definition tokenBody : json :=
  JObject [("access_token", JString "access");
           ("expires_in", JNumber (2828823515942093 # 140737488355328));
           ("refresh_token", JString "fresh"); ("scope", JString "identify guilds");
           ("token_type", JString "Bearer")]%string.
Definition profileBody : json :=
  JObject [("id", JString "D"); ("username", JString "dino");
           ("avatar", JNull)]%string.
Definition guildsBody : json :=
  JArray [JObject [("id", JString "other"); ("name", JString "Other")];
          JObject [("id", JString "guild"); ("name", JString "Server")]]%string.
Definition answer (status : Z) (body : json) : Discord.FetchValue :=
  {| Discord.data := body; Discord.statusCode := status |}.

End Cases.

(** * Properties *)

(** ** The linking-code generator *)

Section LinkingCodeFacts.
Import LinkingCode.

Lemma length_string_of_list_ascii (l : list ascii) :
  String.length (string_of_list_ascii l) = length l.
Proof. induction l as [|c l IH]; simpl; congruence. Qed.

Lemma length_render bytes : String.length (render bytes) = length bytes.
Proof. unfold render. by rewrite length_string_of_list_ascii, length_map. Qed.

Lemma string_of_list_ascii_snoc (l : list ascii) (c : ascii) :
  String.append (string_of_list_ascii l) (String c EmptyString)
  = string_of_list_ascii (l ++ [c]).
Proof. induction l as [|x l IH]; simpl; [done |]. rewrite <- IH. reflexivity. Qed.

Lemma charAt_symbolOf byte :
  charAt CHARS (byteValue byte mod charsLength)
  = String (symbolOf byte) EmptyString.
Proof. destruct byte; reflexivity. Qed.

Lemma pushByte_render bytes byte :
  pushByte (render bytes) byte
  = render (bytes ++ (if accepted byte then [byte] else [])).
Proof.
  unfold pushByte, accepted.
  destruct (byteValue byte <? maxValid).
  - rewrite charAt_symbolOf. unfold render.
    rewrite map_app. apply string_of_list_ascii_snoc.
  - by rewrite app_nil_r.
Qed.

Lemma firstn_firstn_app {A} (n : nat) (l r : list A) :
  firstn n (firstn n l ++ r) = firstn n (l ++ r).
Proof.
  rewrite !firstn_app, firstn_firstn, Nat.min_id, length_firstn.
  destruct (Nat.le_gt_cases n (length l)) as [Hle|Hgt].
  - replace (n - n `min` length l)%nat with 0%nat by lia.
    replace (n - length l)%nat with 0%nat by lia. done.
  - by replace (n `min` length l)%nat with (length l) by lia.
Qed.

Lemma scanArray_render array : forall bytes,
  (length bytes <= LENGTH)%nat ->
  scanArray array (render bytes)
  = render (firstn LENGTH (bytes ++ List.filter accepted array)).
Proof.
  unfold LENGTH.
  induction array as [|byte rest IH]; intros bytes Hlen; simpl;
    rewrite length_render; change LENGTH with 8%nat.
  - rewrite app_nil_r, firstn_all2 by done. by case_match.
  - destruct (Nat.ltb_spec (length bytes) 8) as [Hlt|Hge].
    + rewrite pushByte_render, IH.
      * destruct (accepted byte); [by rewrite <- app_assoc | by rewrite app_nil_r].
      * rewrite length_app. destruct (accepted byte); simpl; lia.
    + rewrite firstn_app, (firstn_all2 bytes) by done.
      replace (8 - length bytes)%nat with 0%nat by lia.
      by rewrite app_nil_r.
Qed.

Lemma refillLoop_render random : forall bytes,
  (length bytes <= LENGTH)%nat ->
  refillLoop random (render bytes)
  = if (length (bytes ++ acceptedBytes random) <? LENGTH)%nat
    then None
    else Some (render (firstn LENGTH (bytes ++ acceptedBytes random))).
Proof.
  pose proof scanArray_render as Hscan. unfold LENGTH in *.
  induction random as [|array later IH]; intros bytes Hlen; simpl;
    rewrite length_render; change LENGTH with 8%nat.
  - unfold acceptedBytes; simpl. by rewrite app_nil_r, firstn_all2.
  - unfold acceptedBytes in *; simpl. rewrite List.filter_app.
    destruct (Nat.ltb_spec (length bytes) 8) as [Hlt|Hge].
    + rewrite Hscan, IH by (done || apply firstn_le_length).
      rewrite firstn_firstn_app, <- app_assoc.
      rewrite !length_app, length_firstn, !length_app.
      set (x := length bytes) in *. set (y := length (List.filter accepted array)).
      set (z := length (List.filter accepted (concat later))).
      destruct (Nat.ltb_spec (8 `min` (x + y) + z) 8),
               (Nat.ltb_spec (x + (y + z)) 8); done || lia.
    + rewrite firstn_app, (firstn_all2 bytes) by done.
      replace (8 - length bytes)%nat with 0%nat by lia.
      rewrite app_nil_r, length_app.
      destruct (Nat.ltb_spec (length bytes + length (List.filter accepted array ++ List.filter accepted (concat later))) 8); done || lia.
Qed.

Lemma symbolOf_in_CHARS byte : In (symbolOf byte) (list_ascii_of_string CHARS).
Proof. destruct byte; vm_compute; tauto. Qed.

Lemma preimages_count :
  Forall (fun c => length (preimages c) = 7%nat) (list_ascii_of_string CHARS).
Proof.
  cbv [CHARS list_ascii_of_string].
  repeat (constructor; [vm_compute; reflexivity |]).
  constructor.
Qed.

End LinkingCodeFacts.

(** C5.  Whatever bytes the random source delivers, [generateLinkingCode]
    returns exactly when eight bytes below 252 have been delivered, and the
    code is then those first eight accepted bytes, in order, each replaced
    by [CHARS[byte mod 36]]; bytes from 252 on contribute nothing.  So a
    returned code has length 8 over the 36 symbols of [CHARS], and every
    symbol is the image of exactly 7 of the 252 accepted byte values. *)
Theorem generateLinkingCode_rejection_sampling (random : list (list Byte.byte)) :
  LinkingCode.generateLinkingCode random
  = (if (length (LinkingCode.acceptedBytes random) <? 8)%nat then None
     else Some (LinkingCode.render (firstn 8 (LinkingCode.acceptedBytes random))))
  /\ (forall code,
        LinkingCode.generateLinkingCode random = Some code ->
        String.length code = 8%nat
        /\ Forall (fun c => In c (list_ascii_of_string LinkingCode.CHARS))
                  (list_ascii_of_string code))
  /\ (forall byte code,
        (String.length code < 8)%nat ->
        LinkingCode.scanArray [byte] code
        = if LinkingCode.byteValue byte <? 252
          then String.append code
                 (LinkingCode.charAt LinkingCode.CHARS
                    (LinkingCode.byteValue byte mod 36))
          else code)
  /\ (forall byte,
        LinkingCode.accepted byte = true <-> LinkingCode.byteValue byte < 252)
  /\ LinkingCode.maxValid = 252
  /\ 252 = 36 * 7
  /\ String.length LinkingCode.CHARS = 36%nat
  /\ NoDup (list_ascii_of_string LinkingCode.CHARS)
  /\ Forall (fun c => length (LinkingCode.preimages c) = 7%nat)
            (list_ascii_of_string LinkingCode.CHARS).
Proof.
  assert (Hgen : LinkingCode.generateLinkingCode random
    = (if (length (LinkingCode.acceptedBytes random) <? 8)%nat then None
       else Some (LinkingCode.render (firstn 8 (LinkingCode.acceptedBytes random))))).
  { unfold LinkingCode.generateLinkingCode.
    change ""%string with (LinkingCode.render []).
    rewrite refillLoop_render by (simpl; lia). reflexivity. }
  split; [exact Hgen |].
  split.
  { intros code Hcode. rewrite Hgen in Hcode.
    destruct (Nat.ltb_spec (length (LinkingCode.acceptedBytes random)) 8)
      as [Hlt|Hge]; [discriminate |].
    injection Hcode as <-. split.
    - rewrite length_render, length_firstn. lia.
    - unfold LinkingCode.render.
      rewrite list_ascii_of_string_of_list_ascii.
      apply List.Forall_forall. intros c Hc. apply List.in_map_iff in Hc.
      destruct Hc as (byte & <- & _). apply symbolOf_in_CHARS. }
  split.
  { intros byte code Hlen. simpl.
    destruct (Nat.ltb_spec (String.length code) LinkingCode.LENGTH) as [_|Hge];
      [| unfold LinkingCode.LENGTH in Hge; lia].
    unfold LinkingCode.pushByte.
    change LinkingCode.maxValid with 252. change LinkingCode.charsLength with 36.
    destruct (LinkingCode.byteValue byte <? 252);
      by destruct (_ <? LinkingCode.LENGTH)%nat. }
  split.
  { intros byte. unfold LinkingCode.accepted.
    change LinkingCode.maxValid with 252. apply Z.ltb_lt. }
  split; [reflexivity |].
  split; [reflexivity |].
  split; [reflexivity |].
  split; [| apply preimages_count].
  apply (bool_decide_unpack _). vm_compute. reflexivity.
Qed.

Lemma generateLinkingCode_rejection_sampling_witness :
  LinkingCode.generateLinkingCode
    [[x00; xff; x01; x24; xfb; xfc; x25; x47; x48; x49; x0a; x0b]]
  = Some "aba9b9ab"%string
  /\ String.length "aba9b9ab" = 8%nat
  /\ Forall (fun c => In c (list_ascii_of_string LinkingCode.CHARS))
            (list_ascii_of_string "aba9b9ab").
Proof.
  split; [reflexivity |].
  apply (proj1 (proj2 (generateLinkingCode_rejection_sampling
    [[x00; xff; x01; x24; xfb; xfc; x25; x47; x48; x49; x0a; x0b]]))).
  reflexivity.
Defined.

(** ** The datastore *)

Section DatastoreFacts.
Import Schema Datastore.

Context {Row Key : Type}.
Variable key : Row -> Key.

(** Under a UNIQUE constraint on [key], two rows with one key are one row. *)
Lemma unique_key_row (l : list Row) (x y : Row) :
  NoDup (map key l) -> In x l -> In y l -> key x = key y -> x = y.
Proof.
  induction l as [|a l IH]; simpl; [tauto |].
  intros Hnd Hx Hy Hk. apply NoDup_cons in Hnd as [Hfresh Hnd].
  destruct Hx as [->|Hx], Hy as [->|Hy]; auto.
  - exfalso. apply Hfresh. rewrite Hk. apply list_elem_of_In, in_map, Hy.
  - exfalso. apply Hfresh. rewrite <- Hk. apply list_elem_of_In, in_map, Hx.
Qed.

(** A selection on a unique key returns the row that holds the key. *)
Lemma find_unique_key (where_ : Row -> bool) (l : list Row) (x : Row) :
  NoDup (map key l) -> In x l -> where_ x = true ->
  (forall y, In y l -> where_ y = true -> key y = key x) ->
  List.find where_ l = Some x.
Proof.
  intros Hnd Hx Hp Hsel. induction l as [|a l IH]; simpl in *; [tauto |].
  destruct (where_ a) eqn:Ha.
  - f_equal. apply (unique_key_row (a :: l)); simpl; auto.
  - destruct Hx as [->|Hx]; [congruence |].
    apply NoDup_cons in Hnd as [_ Hnd]. apply IH; auto.
Qed.

(** After [delete ... where gone], a selection that [gone] covers is empty. *)
Lemma find_after_delete (where_ gone : Row -> bool) (l : list Row) :
  (forall y, In y l -> where_ y = true -> gone y = true) ->
  List.find where_ (List.filter (fun r => negb (gone r)) l) = None.
Proof.
  intros Hcov. induction l as [|a l IH]; simpl; [done |].
  destruct (gone a) eqn:Hg; simpl.
  - apply IH. intros y Hy. apply Hcov. by right.
  - destruct (where_ a) eqn:Hw.
    + rewrite (Hcov a) in Hg by (simpl; auto). discriminate.
    + apply IH. intros y Hy. apply Hcov. by right.
Qed.

Lemma find_some_In (where_ : Row -> bool) (l : list Row) (x : Row) :
  List.find where_ l = Some x -> In x l /\ where_ x = true.
Proof. apply List.find_some. Qed.

End DatastoreFacts.

(** ** linkDiscordAccount *)

Section LinkFacts.
Import Schema Datastore Discord Handlers.

(** The upserts of the identity rows touch neither flows nor connections. *)
Lemma identity_batch_frame now_ did tok uuid d rows1 rows2 d1 :
  batch (upsertDiscordUser now_ did tok) (upsertMinecraftUser now_ uuid) d
  = Some ((rows1, rows2), d1) ->
  verificationFlows d1 = verificationFlows d
  /\ connections d1 = connections d
  /\ (exists r1, head rows1 = Some r1) /\ (exists r2, head rows2 = Some r2).
Proof.
  unfold batch, upsertDiscordUser, upsertMinecraftUser.
  repeat case_match; intros; simplify_eq; simpl; eauto 10.
Qed.

(** The connection batch touches neither identity table. *)
Lemma connection_batch_frame now_ did mid fid d u d2 :
  batch (upsertConnection now_ did mid) (deleteFlowById fid) d = Some (u, d2) ->
  discordUsers d2 = discordUsers d /\ minecraftUsers d2 = minecraftUsers d.
Proof.
  unfold batch, upsertConnection, deleteFlowById, exec.
  repeat case_match; intros; simplify_eq; simpl; eauto.
Qed.

End LinkFacts.


Section LinkTheorems.
Import Schema Datastore Discord Handlers.

(** C7.  An execution of [linkDiscordAccount] that answers [AccessDenied]
    got as far as the membership list and did not find the configured guild
    in it; it leaves the database as it found it, so the flow that matched
    the linking code is still there for a retry. *)
Theorem linkDiscordAccount_access_denied_unchanged env out params d d' :
  linkDiscordAccount env out params d = (ResultErr AccessDenied, d') ->
  d' = d
  /\ exists state flow token guilds,
       decodeOAuthState out (lp_state params) = Some state
       /\ getRow (fun f => String.eqb (linkingCode f) (st_linkingCode state)
                           && (now out <? expiresAt f))
                 (verificationFlows d') = Some flow
       /\ tokenWithCode out (lp_code params) = ResultOk token
       /\ userGuildsData out (accessToken token) = ResultOk guilds
       /\ isMember env guilds = false.
Proof.
  unfold linkDiscordAccount, tryCatch, selectFlowByCodeUnexpired, query.
  intros H.
  destruct (decodeOAuthState out (lp_state params)) as [state|] eqn:Hstate;
    [| discriminate].
  destruct (outage out FlowLookup); [discriminate |].
  destruct (getRow _ (verificationFlows d)) as [flow|] eqn:Hflow; [| discriminate].
  destruct (tokenWithCode out (lp_code params)) as [token|e] eqn:Htoken;
    [| destruct (isCode e invalid_code); discriminate].
  destruct (userData out (accessToken token)) as [discordUser|]; [| discriminate].
  destruct (userGuildsData out (accessToken token)) as [guilds|] eqn:Hguilds;
    [| discriminate].
  destruct (isMember env guilds) eqn:Hmember; simpl in H.
  - repeat case_match; discriminate.
  - injection H as <-. split; [reflexivity |].
    exists state, flow, token, guilds. auto.
Qed.

Lemma linkDiscordAccount_access_denied_unchanged_witness :
  linkDiscordAccount Sample.env (Sample.outside 1000 Sample.notInGuild)
    Sample.linkParams Sample.freshDB
  = (ResultErr AccessDenied, Sample.freshDB)
  /\ getRow (fun f => String.eqb (linkingCode f) "aaaaaaaa" && (1000 <? expiresAt f))
            (verificationFlows Sample.freshDB) = Some Sample.flowM2.
Proof.
  assert (H : linkDiscordAccount Sample.env (Sample.outside 1000 Sample.notInGuild)
                Sample.linkParams Sample.freshDB
              = (ResultErr AccessDenied, Sample.freshDB)) by reflexivity.
  split; [exact H |].
  destruct (linkDiscordAccount_access_denied_unchanged _ _ _ _ _ H) as [_ _].
  reflexivity.
Defined.

(** C1, as the code has it.  Once the membership check has passed, the two
    identity upserts form one batch and the connection upsert with the
    deletion of the consumed flow form a second one.  Each batch is kept
    whole or not at all: when the first fails the database is untouched;
    when the second fails the flows and connections are untouched and the
    identity rows written by the first batch stay. *)
Theorem linkDiscordAccount_batches env out params d state flow token discordUser guilds :
  decodeOAuthState out (lp_state params) = Some state ->
  outage out FlowLookup = false ->
  getRow (fun f => String.eqb (linkingCode f) (st_linkingCode state)
                   && (now out <? expiresAt f))
         (verificationFlows d) = Some flow ->
  tokenWithCode out (lp_code params) = ResultOk token ->
  userData out (accessToken token) = ResultOk discordUser ->
  userGuildsData out (accessToken token) = ResultOk guilds ->
  isMember env guilds = true ->
  match
    (if outage out UserUpsertBatch then None
     else batch (upsertDiscordUser (now out) (user_id discordUser) (refreshToken token))
                (upsertMinecraftUser (now out) (vf_minecraftUUID flow)) d)
  with
  | None => linkDiscordAccount env out params d = (ResultErr DatabaseError, d)
  | Some ((discordRows, minecraftRows), d1) =>
      verificationFlows d1 = verificationFlows d
      /\ connections d1 = connections d
      /\ exists discordRecord minecraftRecord,
           head discordRows = Some discordRecord
           /\ head minecraftRows = Some minecraftRecord
           /\ match
                (if outage out ConnectionBatch then None
                 else batch (upsertConnection (now out) (du_id discordRecord)
                                              (mu_id minecraftRecord))
                            (deleteFlowById (vf_id flow)) d1)
              with
              | None =>
                  linkDiscordAccount env out params d = (ResultErr DatabaseError, d1)
              | Some (_, d2) =>
                  linkDiscordAccount env out params d
                  = (ResultOk {| discordUsername := username discordUser |}, d2)
                  /\ discordUsers d2 = discordUsers d1
                  /\ minecraftUsers d2 = minecraftUsers d1
              end
  end.
Proof.
  intros Hstate Hlookup Hflow Htoken Huser Hguilds Hmember.
  unfold linkDiscordAccount, tryCatch.
  rewrite Hstate, Hlookup. unfold selectFlowByCodeUnexpired, query.
  rewrite Hflow, Htoken, Huser, Hguilds, Hmember. simpl negb. cbv iota.
  destruct (outage out UserUpsertBatch); [reflexivity |].
  destruct (batch _ _ d) as [[[discordRows minecraftRows] d1]|] eqn:Hb1;
    [| reflexivity].
  destruct (identity_batch_frame _ _ _ _ _ _ _ _ Hb1)
    as (Hflows & Hconns & [discordRecord Hr1] & [minecraftRecord Hr2]).
  split; [exact Hflows |]. split; [exact Hconns |].
  exists discordRecord, minecraftRecord.
  split; [exact Hr1 |]. split; [exact Hr2 |].
  rewrite Hr1, Hr2.
  destruct (outage out ConnectionBatch); [reflexivity |].
  destruct (batch _ _ d1) as [[u d2]|] eqn:Hb2; [| reflexivity].
  split; [reflexivity |].
  exact (connection_batch_frame _ _ _ _ _ _ _ Hb2).
Qed.

Lemma linkDiscordAccount_batches_witness :
  exists d1,
    linkDiscordAccount Sample.env (Sample.outside 1000 Sample.inGuild)
      Sample.linkParams Sample.linkedDB
    = (ResultErr DatabaseError, d1)
    /\ connections d1 = connections Sample.linkedDB
    /\ verificationFlows d1 = verificationFlows Sample.linkedDB.
Proof.
  pose proof (linkDiscordAccount_batches Sample.env
                (Sample.outside 1000 Sample.inGuild) Sample.linkParams
                Sample.linkedDB
                {| st_linkingCode := "aaaaaaaa"; st_timestamp := 5%Q |}
                Sample.flowM2 Sample.token Sample.dino Sample.inGuild
                eq_refl eq_refl eq_refl eq_refl eq_refl eq_refl eq_refl) as H.
  simpl in H.
  destruct H as (Hflows & Hconns & discordRecord & minecraftRecord & H1 & H2 & H).
  injection H1 as <-. injection H2 as <-. simpl in H.
  eexists. split; [exact H |]. split; [exact Hconns | exact Hflows].
Defined.

(** C1, as stated, fails.  Discord user [D] is linked to [M1] and now
    completes a flow issued for [M2].  The first batch commits (the stored
    refresh token is replaced and a row for [M2] appears); the second batch
    violates UNIQUE(discordUserID) and is rolled back, so the handler answers
    [DatabaseError] with the identity tables changed and the connection and
    flow tables as they were.  The same happens on a database that holds
    the pending flow only, when the datastore cannot be reached for the
    second batch. *)
Lemma linkDiscordAccount_partial_commit :
  (exists d1,
     linkDiscordAccount Sample.env (Sample.outside 1000 Sample.inGuild)
       Sample.linkParams Sample.linkedDB
     = (ResultErr DatabaseError, d1)
     /\ d1 <> Sample.linkedDB
     /\ map discordRefreshToken (rows (discordUsers d1)) = [Some "fresh"%string]
     /\ map discordRefreshToken (rows (discordUsers Sample.linkedDB))
        = [Some "stale"%string]
     /\ map mu_minecraftUUID (rows (minecraftUsers d1)) = ["M1"; "M2"]%string
     /\ map mu_minecraftUUID (rows (minecraftUsers Sample.linkedDB)) = ["M1"%string]
     /\ connections d1 = connections Sample.linkedDB
     /\ verificationFlows d1 = verificationFlows Sample.linkedDB)
  /\ (exists d1,
        linkDiscordAccount Sample.env
          (Sample.during Sample.connectionBatchDown
             (Sample.outside 1000 Sample.inGuild))
          Sample.linkParams Sample.freshDB
        = (ResultErr DatabaseError, d1)
        /\ d1 <> Sample.freshDB
        /\ map discordID (rows (discordUsers d1)) = ["D"%string]
        /\ rows (discordUsers Sample.freshDB) = []
        /\ map mu_minecraftUUID (rows (minecraftUsers d1)) = ["M2"%string]
        /\ rows (minecraftUsers Sample.freshDB) = []
        /\ connections d1 = connections Sample.freshDB
        /\ verificationFlows d1 = verificationFlows Sample.freshDB).
Proof.
  split; eexists; (split; [vm_compute; reflexivity |]);
    (split; [discriminate |]); repeat split.
Qed.

End LinkTheorems.

(** ** verifyConnection *)

Section VerifyTheorems.
Import Schema Datastore Discord Handlers.

(** C2, as stated, fails: with a connection whose Discord user row is
    missing the handler answers [DatabaseError], not [NotLinked]. *)
Lemma verifyConnection_orphan_connection :
  verifyConnection Sample.env (Sample.outside 1000 Sample.inGuild)
    Sample.verifyM1 Sample.orphanDB
  = (ResultErr DatabaseError, Sample.orphanDB)
  /\ (exists connection,
        getRow (fun c => minecraftUserID c =? 1) (connections Sample.orphanDB)
        = Some connection
        /\ getRow (fun u => du_id u =? discordUserID connection)
                  (discordUsers Sample.orphanDB) = None)
  /\ fst (verifyConnection Sample.env (Sample.outside 1000 Sample.inGuild)
            Sample.verifyM1 Sample.orphanDB) <> ResultErr NotLinked.
Proof.
  split; [reflexivity |]. split; [eexists; split; reflexivity |].
  discriminate.
Qed.

(** C2, as the code has it.  With a valid secret and lookups that succeed,
    a missing Minecraft user row or a missing connection row gives
    [NotLinked]; a connection whose Discord user row is missing gives
    [DatabaseError].  The database is not written in any of the three
    cases. *)
Theorem verifyConnection_missing_rows env out params d :
  compare env (vp_sharedSecret params) = true ->
  outage out MinecraftUserLookup = false ->
  outage out ConnectionLookup = false ->
  outage out DiscordUserLookup = false ->
  match getRow (fun u => String.eqb (mu_minecraftUUID u) (vp_minecraftUUID params))
               (minecraftUsers d) with
  | None => verifyConnection env out params d = (ResultErr NotLinked, d)
  | Some minecraftUser =>
      match getRow (fun c => minecraftUserID c =? mu_id minecraftUser)
                   (connections d) with
      | None => verifyConnection env out params d = (ResultErr NotLinked, d)
      | Some connection =>
          getRow (fun u => du_id u =? discordUserID connection) (discordUsers d)
          = None ->
          verifyConnection env out params d = (ResultErr DatabaseError, d)
      end
  end.
Proof.
  intros Hsecret H1 H2 H3.
  unfold verifyConnection, tryCatch.
  unfold selectMinecraftUserByUUID, selectConnectionByMinecraftUser,
    selectDiscordUserById, query.
  rewrite Hsecret, H1. simpl negb. cbv iota.
  destruct (getRow _ (minecraftUsers d)) as [minecraftUser|]; [| reflexivity].
  rewrite H2.
  destruct (getRow _ (connections d)) as [connection|]; [| reflexivity].
  intros Hmissing. rewrite H3, Hmissing. reflexivity.
Qed.

Lemma verifyConnection_missing_rows_witness :
  verifyConnection Sample.env (Sample.outside 1000 Sample.inGuild)
    Sample.verifyM1 Sample.orphanDB
  = (ResultErr DatabaseError, Sample.orphanDB).
Proof.
  exact (verifyConnection_missing_rows Sample.env
           (Sample.outside 1000 Sample.inGuild) Sample.verifyM1 Sample.orphanDB
           eq_refl eq_refl eq_refl eq_refl eq_refl).
Defined.

(** C8.  For a linked UUID whose token refresh and membership fetch
    succeed, a membership list without the configured guild makes the
    handler delete the connection of that UUID and answer [AccessDenied];
    on the database it leaves, a further call (whose lookups succeed)
    answers [NotLinked]. *)
Theorem verifyConnection_membership_lost
  env out params d minecraftUser connection discordUser storedToken token guilds :
  constraints d ->
  compare env (vp_sharedSecret params) = true ->
  (forall call, outage out call = false) ->
  In minecraftUser (rows (minecraftUsers d)) ->
  mu_minecraftUUID minecraftUser = vp_minecraftUUID params ->
  In connection (rows (connections d)) ->
  minecraftUserID connection = mu_id minecraftUser ->
  In discordUser (rows (discordUsers d)) ->
  du_id discordUser = discordUserID connection ->
  discordRefreshToken discordUser = Some storedToken ->
  storedToken <> ""%string ->
  tokenWithRefreshToken out storedToken = ResultOk token ->
  userGuildsData out (accessToken token) = ResultOk guilds ->
  isMember env guilds = false ->
  exists d',
    verifyConnection env out params d = (ResultErr AccessDenied, d')
    /\ connections d'
       = deleteRows (fun c => cn_id c =? cn_id connection) (connections d)
    /\ ~ In connection (rows (connections d'))
    /\ getRow (fun c => minecraftUserID c =? mu_id minecraftUser) (connections d')
       = None
    /\ minecraftUsers d' = minecraftUsers d
    /\ forall out',
         outage out' MinecraftUserLookup = false ->
         outage out' ConnectionLookup = false ->
         verifyConnection env out' params d' = (ResultErr NotLinked, d').
Proof.
  intros Hc Hsecret Hup Hmu Huuid Hcn Hmid Hdu Hdid Htok Hne Hrefresh Hguilds Hmember.
  assert (Hfind1 : getRow (fun u => String.eqb (mu_minecraftUUID u)
                                      (vp_minecraftUUID params))
                          (minecraftUsers d) = Some minecraftUser).
  { apply (find_unique_key mu_minecraftUUID); auto using mu_unique_uuid.
    - by apply String.eqb_eq.
    - intros y _ Hy. apply String.eqb_eq in Hy. congruence. }
  assert (Hfind2 : getRow (fun c => minecraftUserID c =? mu_id minecraftUser)
                          (connections d) = Some connection).
  { apply (find_unique_key minecraftUserID); auto using cn_unique_minecraft.
    - by apply Z.eqb_eq.
    - intros y _ Hy. apply Z.eqb_eq in Hy. congruence. }
  assert (Hfind3 : getRow (fun u => du_id u =? discordUserID connection)
                          (discordUsers d) = Some discordUser).
  { apply (find_unique_key du_id); auto using du_pk.
    - by apply Z.eqb_eq.
    - intros y _ Hy. apply Z.eqb_eq in Hy. congruence. }
  assert (Hgone : List.find (fun c => minecraftUserID c =? mu_id minecraftUser)
                    (List.filter (fun c => negb (cn_id c =? cn_id connection))
                                 (rows (connections d))) = None).
  { apply find_after_delete. intros y Hy Hsel. apply Z.eqb_eq in Hsel.
    apply Z.eqb_eq. f_equal.
    apply (unique_key_row minecraftUserID (rows (connections d)));
      auto using cn_unique_minecraft. congruence. }
  eexists. split; [| split; [| split; [| split; [| split]]]].
  - unfold verifyConnection, tryCatch.
    unfold selectMinecraftUserByUUID, selectConnectionByMinecraftUser,
      selectDiscordUserById, updateRefreshToken, deleteConnectionById, query, exec.
    rewrite Hsecret, !Hup. simpl negb. cbv iota.
    rewrite Hfind1, Hfind2, Hfind3, Htok.
    destruct storedToken as [|c s]; [congruence |].
    rewrite Hrefresh, Hguilds, Hmember. reflexivity.
  - reflexivity.
  - simpl. intros Hin. apply filter_In in Hin as [_ Hin].
    rewrite Z.eqb_refl in Hin. discriminate.
  - exact Hgone.
  - reflexivity.
  - intros out' Ho1 Ho2. unfold verifyConnection, tryCatch.
    unfold selectMinecraftUserByUUID, selectConnectionByMinecraftUser, query.
    rewrite Hsecret, Ho1. simpl negb. cbv iota.
    simpl minecraftUsers. rewrite Hfind1, Ho2.
    unfold getRow. simpl. rewrite Hgone. reflexivity.
Qed.

Lemma linkedDB_constraints :
  constraints Sample.linkedDB.
Proof.
  split; simpl; repeat (apply NoDup_cons; split; [set_solver |]);
    apply NoDup_nil; done.
Qed.

Lemma verifyConnection_membership_lost_witness :
  exists d',
    verifyConnection Sample.env (Sample.outside 1000 Sample.notInGuild)
      Sample.verifyM1 Sample.linkedDB
    = (ResultErr AccessDenied, d')
    /\ verifyConnection Sample.env (Sample.outside 2000 Sample.notInGuild)
         Sample.verifyM1 d'
       = (ResultErr NotLinked, d').
Proof.
  destruct (verifyConnection_membership_lost Sample.env
              (Sample.outside 1000 Sample.notInGuild) Sample.verifyM1
              Sample.linkedDB
              {| mu_createdAt := 1; mu_id := 1; mu_minecraftUUID := "M1" |}
              {| cn_createdAt := 1; discordUserID := 1; cn_id := 1;
                 minecraftUserID := 1 |}
              {| du_createdAt := 1; discordID := "D";
                 discordRefreshToken := Some "stale"%string; du_id := 1 |}
              "stale"%string Sample.token Sample.notInGuild
              linkedDB_constraints eq_refl
              (fun _ => eq_refl) (or_introl eq_refl) eq_refl
              (or_introl eq_refl) eq_refl (or_introl eq_refl) eq_refl eq_refl
              ltac:(discriminate) eq_refl eq_refl eq_refl)
    as (d' & Hrun & _ & _ & _ & _ & Hnext).
  exists d'. split; [exact Hrun |].
  exact (Hnext (Sample.outside 2000 Sample.notInGuild) eq_refl eq_refl).
Defined.

End VerifyTheorems.

(** ** createVerificationFlow *)

Section FlowTheorems.
Import Schema Datastore Discord Handlers.

Lemma NoDup_map_filter {A B} (f : A -> B) (p : A -> bool) (l : list A) :
  NoDup (map f l) -> NoDup (map f (List.filter p l)).
Proof.
  induction l as [|a l IH]; simpl; [done |].
  intros Hnd. apply NoDup_cons in Hnd as [Hfresh Hnd].
  destruct (p a); simpl; auto.
  apply NoDup_cons. split; auto.
  intros Hin. apply Hfresh.
  apply list_elem_of_In, List.in_map_iff in Hin as (x & Hx & Hin).
  apply filter_In in Hin as [Hin _].
  rewrite <- Hx. by apply list_elem_of_In, in_map.
Qed.

Lemma filter_absent_uuid (l : list VerificationFlow) (uuid : string) :
  ~ In uuid (map vf_minecraftUUID l) ->
  List.filter (fun f => String.eqb (vf_minecraftUUID f) uuid) l = [].
Proof.
  induction l as [|a l IH]; simpl; [done |].
  intros Habsent. destruct (String.eqb_spec (vf_minecraftUUID a) uuid); tauto.
Qed.

(** Exactly one row carries a key that a UNIQUE column holds. *)
Lemma unique_uuid_count (l : list VerificationFlow) (x : VerificationFlow) :
  NoDup (map vf_minecraftUUID l) -> In x l ->
  length (List.filter (fun f => String.eqb (vf_minecraftUUID f) (vf_minecraftUUID x)) l)
  = 1%nat.
Proof.
  induction l as [|a l IH]; simpl; [tauto |].
  intros Hnd Hx. apply NoDup_cons in Hnd as [Hfresh Hnd].
  destruct (String.eqb_spec (vf_minecraftUUID a) (vf_minecraftUUID x)) as [Heq|Hne].
  - simpl. f_equal.
    rewrite filter_absent_uuid; [done |].
    rewrite <- Heq. intros Hin. by apply Hfresh, list_elem_of_In.
  - destruct Hx as [->|Hx]; [congruence | auto].
Qed.

Definition flowFor (uuid code : string) (expires : Z) (f : VerificationFlow) : Prop :=
  vf_minecraftUUID f = uuid /\ linkingCode f = code /\ expiresAt f = expires.

(** A successful pass through the generation loop leaves exactly the new
    row for the UUID. *)
Lemma generationLoop_success out uuid left : forall attempt d v d1,
  (forall f, In f (rows (verificationFlows d)) -> vf_minecraftUUID f <> uuid) ->
  NoDup (map vf_minecraftUUID (rows (verificationFlows d))) ->
  generationLoop out uuid left attempt d = (Some (ResultOk v), d1) ->
  value_expiresAt v = now out + EXPIRY_DURATION_MS
  /\ NoDup (map vf_minecraftUUID (rows (verificationFlows d1)))
  /\ exists f, In f (rows (verificationFlows d1))
               /\ flowFor uuid (value_linkingCode v) (value_expiresAt v) f.
Proof.
  assert (Hinsert : forall code d v d1,
    (forall f, In f (rows (verificationFlows d)) -> vf_minecraftUUID f <> uuid) ->
    NoDup (map vf_minecraftUUID (rows (verificationFlows d))) ->
    insertFlow (now out) (now out + EXPIRY_DURATION_MS) code uuid d = Some (tt, d1) ->
    v = {| value_expiresAt := now out + EXPIRY_DURATION_MS;
           value_linkingCode := code |} ->
    value_expiresAt v = now out + EXPIRY_DURATION_MS
    /\ NoDup (map vf_minecraftUUID (rows (verificationFlows d1)))
    /\ exists f, In f (rows (verificationFlows d1))
                 /\ flowFor uuid (value_linkingCode v) (value_expiresAt v) f).
  { intros code d v d1 Hnone Hnd Hins ->. unfold insertFlow in Hins.
    destruct (existsb _ _); [discriminate |]. injection Hins as <-.
    simpl. split; [reflexivity |]. split.
    - rewrite map_app. simpl. apply NoDup_app. split; [exact Hnd |].
      split; [| apply NoDup_singleton].
      intros u Hu Hu'. apply list_elem_of_singleton in Hu'. subst u.
      apply list_elem_of_In, List.in_map_iff in Hu as (f & Hf & Hin).
      exact (Hnone f Hin Hf).
    - eexists. split; [apply in_or_app; right; left; reflexivity |].
      by repeat split. }
  induction left as [|left IH]; intros attempt d v d1 Hnone Hnd; simpl;
    [discriminate |].
  destruct (LinkingCode.generateLinkingCode _) as [code|]; [| discriminate].
  unfold tryCatch at 1.
  destruct (outage out (UniquenessCheck attempt)); [discriminate |].
  unfold selectFlowByCode, query.
  destruct (getRow _ (verificationFlows d)) as [codeEntry|].
  - destruct (now out <? expiresAt codeEntry); [by apply IH |].
    unfold tryCatch at 1.
    destruct (outage out (CollidingDeletion attempt)); [discriminate |].
    unfold deleteFlowById, exec. unfold tryCatch.
    destruct (outage out (FlowInsertion attempt)); [discriminate |].
    destruct (insertFlow _ _ _ _ _) as [[[] d2]|] eqn:Hins; [| discriminate].
    intros Hrun. injection Hrun as <- <-.
    eapply Hinsert; [| | exact Hins | reflexivity]; simpl.
    + intros f Hf. apply filter_In in Hf as [Hf _]. by apply Hnone.
    + by apply NoDup_map_filter.
  - unfold tryCatch.
    destruct (outage out (FlowInsertion attempt)); [discriminate |].
    destruct (insertFlow _ _ _ _ _) as [[[] d2]|] eqn:Hins; [| discriminate].
    intros Hrun. injection Hrun as <- <-.
    eapply Hinsert; [exact Hnone | exact Hnd | exact Hins | reflexivity].
Qed.

(** After any successful call, the UUID has its one row, with the returned
    code and expiry. *)
Lemma createVerificationFlow_success env out params d v d1 :
  NoDup (map vf_minecraftUUID (rows (verificationFlows d))) ->
  createVerificationFlow env out params d = (Some (ResultOk v), d1) ->
  value_expiresAt v = now out + EXPIRY_DURATION_MS
  /\ NoDup (map vf_minecraftUUID (rows (verificationFlows d1)))
  /\ exists f, In f (rows (verificationFlows d1))
               /\ flowFor (fp_minecraftUUID params) (value_linkingCode v)
                          (value_expiresAt v) f.
Proof.
  intros Hnd. unfold createVerificationFlow.
  destruct (negb _); [discriminate |].
  unfold tryCatch at 1.
  destruct (outage out ExistingFlowQuery); [discriminate |].
  unfold selectFlowByUUIDUnexpired, query.
  destruct (getRow _ (verificationFlows d)) as [flow|] eqn:Hflow.
  - unfold tryCatch, updateFlowExpiry, exec.
    destruct (outage out ExpiryUpdate); [discriminate |].
    intros Hrun. injection Hrun as <- <-. simpl.
    apply find_some_In in Hflow as [Hin Hsel].
    apply andb_true_iff in Hsel as [Huuid _]. apply String.eqb_eq in Huuid.
    split; [reflexivity |]. split.
    + rewrite map_map.
      erewrite map_ext; [exact Hnd |]. intros f. by destruct (vf_id f =? vf_id flow).
    + exists (setExpiresAt (now out + EXPIRY_DURATION_MS) flow). split.
      * apply List.in_map_iff. exists flow. by rewrite Z.eqb_refl.
      * by repeat split.
  - unfold tryCatch at 1.
    destruct (outage out ExpiredFlowDeletion); [discriminate |].
    unfold deleteFlowsByUUID, exec. apply generationLoop_success; simpl.
    + intros f Hf. apply filter_In in Hf as [_ Hf].
      apply negb_true_iff, String.eqb_neq in Hf. exact Hf.
    + by apply NoDup_map_filter.
Qed.

(** C4.  With a valid secret and an unexpired flow row for the UUID, the
    call returns the code of that row and rewrites the expiry of that row
    (and of no other) to [now + 15 min].  Hence, of two successful calls
    for one UUID, the second within the lifetime granted by the first, the
    second returns the code of the first and an expiry that is not earlier,
    and it neither adds nor removes a row: the UUID keeps its single
    row. *)
Theorem createVerificationFlow_idempotent env params d :
  constraints d ->
  compare env (fp_sharedSecret params) = true ->
  (forall out flow,
     In flow (rows (verificationFlows d)) ->
     vf_minecraftUUID flow = fp_minecraftUUID params ->
     now out < expiresAt flow ->
     outage out ExistingFlowQuery = false ->
     outage out ExpiryUpdate = false ->
     createVerificationFlow env out params d
     = (Some (ResultOk {| value_expiresAt := now out + 15 * 60 * 1000;
                          value_linkingCode := linkingCode flow |}),
        withVerificationFlows d
          (updateRows (fun f => vf_id f =? vf_id flow)
                      (setExpiresAt (now out + 15 * 60 * 1000))
                      (verificationFlows d)))
     /\ forall f, In f (rows (verificationFlows d)) ->
                  (vf_id f =? vf_id flow) = true -> f = flow)
  /\ (forall out1 out2 v1 v2 d1 d2,
        createVerificationFlow env out1 params d = (Some (ResultOk v1), d1) ->
        createVerificationFlow env out2 params d1 = (Some (ResultOk v2), d2) ->
        now out1 <= now out2 ->
        now out2 < value_expiresAt v1 ->
        value_linkingCode v2 = value_linkingCode v1
        /\ value_expiresAt v1 = now out1 + 15 * 60 * 1000
        /\ value_expiresAt v2 = now out2 + 15 * 60 * 1000
        /\ value_expiresAt v1 <= value_expiresAt v2
        /\ length (rows (verificationFlows d2)) = length (rows (verificationFlows d1))
        /\ length (List.filter
                     (fun f => String.eqb (vf_minecraftUUID f) (fp_minecraftUUID params))
                     (rows (verificationFlows d2))) = 1%nat).
Proof.
  intros Hc Hsecret. split.
  - intros out flow Hin Huuid Hlive Ho1 Ho2.
    assert (Hfind : getRow (fun f => String.eqb (vf_minecraftUUID f)
                                       (fp_minecraftUUID params)
                                     && (now out <? expiresAt f))
                           (verificationFlows d) = Some flow).
    { apply (find_unique_key vf_minecraftUUID); auto using vf_unique_uuid.
      - apply andb_true_iff. split; [by apply String.eqb_eq | by apply Z.ltb_lt].
      - intros y _ Hy. apply andb_true_iff in Hy as [Hy _].
        apply String.eqb_eq in Hy. congruence. }
    split.
    + unfold createVerificationFlow, tryCatch.
      unfold selectFlowByUUIDUnexpired, updateFlowExpiry, query, exec.
      rewrite Hsecret, Ho1. simpl negb. cbv iota. rewrite Hfind, Ho2.
      reflexivity.
    + intros f Hf Hid. apply Z.eqb_eq in Hid.
      apply (unique_key_row vf_id (rows (verificationFlows d)));
        auto using vf_pk.
  - intros out1 out2 v1 v2 d1 d2 Hrun1 Hrun2 Hle Hlt.
    destruct (createVerificationFlow_success _ _ _ _ _ _ (vf_unique_uuid _ Hc) Hrun1)
      as (Hexp1 & Hnd1 & f & Hin & Huuid & Hcode & Hexp).
    destruct (createVerificationFlow_success _ _ _ _ _ _ Hnd1 Hrun2)
      as (Hexp2 & Hnd2 & f2 & Hin2 & Huuid2 & _ & _).
    assert (Hfind : getRow (fun g => String.eqb (vf_minecraftUUID g)
                                       (fp_minecraftUUID params)
                                     && (now out2 <? expiresAt g))
                           (verificationFlows d1) = Some f).
    { apply (find_unique_key vf_minecraftUUID); auto.
      - apply andb_true_iff. split; [by apply String.eqb_eq |].
        apply Z.ltb_lt. by rewrite Hexp.
      - intros y _ Hy. apply andb_true_iff in Hy as [Hy _].
        apply String.eqb_eq in Hy. congruence. }
    unfold createVerificationFlow, tryCatch in Hrun2.
    unfold selectFlowByUUIDUnexpired, updateFlowExpiry, query, exec in Hrun2.
    destruct (negb _); [discriminate |].
    destruct (outage out2 ExistingFlowQuery); [discriminate |].
    rewrite Hfind in Hrun2.
    destruct (outage out2 ExpiryUpdate); [discriminate |].
    injection Hrun2 as <- <-. simpl.
    unfold EXPIRY_DURATION_MS in *.
    repeat split; try lia.
    + congruence.
    + apply length_map.
    + rewrite <- Huuid2. apply unique_uuid_count; auto.
Qed.

Lemma createVerificationFlow_idempotent_witness :
  fst (createVerificationFlow Sample.env (Sample.outside 1000 Sample.inGuild)
         Sample.flowParamsM2 Sample.linkedDB)
  = Some (ResultOk {| value_expiresAt := 901000; value_linkingCode := "aaaaaaaa" |}).
Proof.
  destruct (createVerificationFlow_idempotent Sample.env Sample.flowParamsM2
              Sample.linkedDB linkedDB_constraints eq_refl) as [Hreuse _].
  destruct (Hreuse (Sample.outside 1000 Sample.inGuild) Sample.flowM2
              (or_introl eq_refl) eq_refl eq_refl eq_refl eq_refl) as [Hrun _].
  rewrite Hrun. reflexivity.
Defined.

End FlowTheorems.

(** ** The arithmetic of doubles *)

Section RoundingFacts.
Import Discord Discord.Double.

Lemma pow2_pos (e : Z) : (0 < 2 ^ e)%Q.
Proof. by apply Qpower_0_lt. Qed.

Lemma pow2_le (a b : Z) : a <= b -> (2 ^ a <= 2 ^ b)%Q.
Proof. intros H. by apply Qpower_le_compat_l. Qed.

Lemma pow2_lt (a b : Z) : a < b -> (2 ^ a < 2 ^ b)%Q.
Proof. intros H. by apply Qpower_lt_compat_l. Qed.

Lemma pow2_lt_inv (a b : Z) : (2 ^ a < 2 ^ b)%Q -> a < b.
Proof. intros H. by apply (Qpower_lt_compat_l_inv 2). Qed.

Lemma pow2_succ (e : Z) : (2 ^ (e + 1) == 2 * 2 ^ e)%Q.
Proof. rewrite Qpower_plus by done. rewrite Qpower_1_r. ring. Qed.

Lemma pow2_Z (n : Z) : 0 <= n -> (inject_Z (2 ^ n) == 2 ^ n)%Q.
Proof. intros H. by rewrite Zpower_Qpower. Qed.

Lemma pow2_split (a b : Z) : (2 ^ a == 2 ^ (a - b) * 2 ^ b)%Q.
Proof. rewrite <- Qpower_plus by done. by replace (a - b + b) with a by lia. Qed.

(** [ilog2] brackets a positive rational between two powers of two. *)
Lemma ilog2_spec (q : Q) :
  (0 < q)%Q -> (2 ^ ilog2 q <= q)%Q /\ (q < 2 ^ (ilog2 q + 1))%Q.
Proof.
  intros Hq. unfold ilog2.
  destruct q as [n d]. simpl Qnum. simpl Qden.
  assert (Hn : 0 < n) by (unfold Qlt in Hq; simpl in Hq; lia).
  pose proof (Z.log2_spec n Hn) as [Hn1 Hn2].
  pose proof (Z.log2_spec (Z.pos d) eq_refl) as [Hd1 Hd2].
  pose proof (Z.log2_nonneg n) as Hln. pose proof (Z.log2_nonneg (Z.pos d)) as Hld.
  set (ln := Z.log2 n) in *. set (ld := Z.log2 (Z.pos d)) in *.
  assert (HA : (2 ^ ln <= inject_Z n)%Q /\ (inject_Z n < 2 * 2 ^ ln)%Q).
  { rewrite <- pow2_succ, <- !pow2_Z by lia. rewrite <- Zle_Qle, <- Zlt_Qlt.
    unfold Z.succ in Hn2. lia. }
  assert (HB : (2 ^ ld <= inject_Z (Z.pos d))%Q
               /\ (inject_Z (Z.pos d) < 2 * 2 ^ ld)%Q).
  { rewrite <- pow2_succ, <- !pow2_Z by lia. rewrite <- Zle_Qle, <- Zlt_Qlt.
    unfold Z.succ in Hd2. lia. }
  pose proof (pow2_pos ln) as HApos. pose proof (pow2_pos ld) as HBpos.
  assert (Hq' : (n # d == inject_Z n / inject_Z (Z.pos d))%Q) by apply Qmake_Qdiv.
  assert (Hdpos : (0 < inject_Z (Z.pos d))%Q) by (by rewrite <- (Zlt_Qlt 0)).
  assert (He : (2 ^ (ln - ld) == 2 ^ ln / 2 ^ ld)%Q) by (by apply Qpower_minus).
  assert (Hup : (n # d < 2 * 2 ^ (ln - ld))%Q).
  { rewrite Hq', He. apply Qlt_shift_div_r; [exact Hdpos |].
    set (A := (2 ^ ln)%Q) in *. set (B := (2 ^ ld)%Q) in *.
    set (N := inject_Z n) in *. set (D := inject_Z (Z.pos d)) in *.
    assert (Hx : (2 * (A / B) * D == 2 * A * D / B)%Q) by (field; lra).
    rewrite Hx. apply Qlt_shift_div_l; [exact HBpos |]. nra. }
  assert (Hlow : (2 ^ (ln - ld) < 2 * (n # d))%Q).
  { rewrite Hq', He.
    set (A := (2 ^ ln)%Q) in *. set (B := (2 ^ ld)%Q) in *.
    set (N := inject_Z n) in *. set (D := inject_Z (Z.pos d)) in *.
    apply Qlt_shift_div_r; [exact HBpos |].
    assert (Hx : (2 * (N / D) * B == 2 * N * B / D)%Q) by (field; lra).
    rewrite Hx. apply Qlt_shift_div_l; [exact Hdpos |]. nra. }
  destruct (Qle_bool (2 ^ (ln - ld)) (n # d)) eqn:Hle.
  - apply Qle_bool_iff in Hle. split; [exact Hle |]. by rewrite pow2_succ.
  - assert (Hlt : (n # d < 2 ^ (ln - ld))%Q).
    { apply Qnot_le_lt. intros H. apply Qle_bool_iff in H. congruence. }
    replace (ln - ld - 1 + 1) with (ln - ld) by lia. split; [| exact Hlt].
    replace (ln - ld) with (ln - ld - 1 + 1) in Hlow by lia.
    rewrite pow2_succ in Hlow. lra.
Qed.

Lemma ilog2_mono (a b : Q) : (0 < a)%Q -> (a <= b)%Q -> ilog2 a <= ilog2 b.
Proof.
  intros Ha Hab.
  destruct (ilog2_spec a Ha) as [Ha1 _].
  destruct (ilog2_spec b ltac:(lra)) as [_ Hb2].
  assert (H : ilog2 a < ilog2 b + 1) by (apply pow2_lt_inv; lra). lia.
Qed.

Lemma nearestEven_bounds (q : Q) :
  nearestEven q = Qfloor q \/ nearestEven q = Qfloor q + 1.
Proof. unfold nearestEven. repeat case_match; auto. Qed.

Lemma nearestEven_mono (x y : Q) : (x <= y)%Q -> nearestEven x <= nearestEven y.
Proof.
  intros Hxy. pose proof (Qfloor_resp_le x y Hxy) as Hf.
  destruct (Z.eq_dec (Qfloor x) (Qfloor y)) as [Heq|Hne].
  - unfold nearestEven. rewrite <- Heq.
    destruct (Qcompare_spec (x - inject_Z (Qfloor x)) (1 # 2)) as [Hx|Hx|Hx];
      destruct (Qcompare_spec (y - inject_Z (Qfloor x)) (1 # 2)) as [Hy|Hy|Hy];
      try lia; try lra; destruct (Z.even (Qfloor x)); lia.
  - destruct (nearestEven_bounds x) as [->| ->], (nearestEven_bounds y) as [->| ->];
      lia.
Qed.

Lemma nearestEven_Z (k : Z) : nearestEven (inject_Z k) = k.
Proof.
  unfold nearestEven. rewrite Qfloor_Z.
  destruct (Qcompare_spec (inject_Z k - inject_Z k) (1 # 2)) as [H|H|H];
    [lra | reflexivity | lra].
Qed.

Lemma roundPositive_nonneg (q : Q) : (0 < q)%Q -> (0 <= roundPositive q)%Q.
Proof.
  intros Hq. unfold roundPositive.
  pose proof (pow2_pos (ulpExponent q)) as Hp.
  apply Qmult_le_0_compat; [| lra].
  change 0%Q with (inject_Z 0). rewrite <- Zle_Qle.
  rewrite <- (nearestEven_Z 0). apply nearestEven_mono.
  apply Qle_shift_div_l; [exact Hp |].
  change (inject_Z 0) with 0%Q. rewrite Qmult_0_l. lra.
Qed.

(** A positive number that does not exceed a multiple of its unit in the
    last place is not rounded beyond it, and likewise from below. *)
Lemma roundPositive_below (q : Q) (k : Z) :
  (0 < q)%Q -> (q <= inject_Z k * 2 ^ ulpExponent q)%Q ->
  (roundPositive q <= inject_Z k * 2 ^ ulpExponent q)%Q.
Proof.
  intros Hq Hk. unfold roundPositive.
  pose proof (pow2_pos (ulpExponent q)) as Hp.
  apply Qmult_le_compat_r; [| lra]. rewrite <- Zle_Qle.
  rewrite <- (nearestEven_Z k). apply nearestEven_mono.
  by apply Qle_shift_div_r.
Qed.

Lemma roundPositive_above (q : Q) (k : Z) :
  (0 < q)%Q -> (inject_Z k * 2 ^ ulpExponent q <= q)%Q ->
  (inject_Z k * 2 ^ ulpExponent q <= roundPositive q)%Q.
Proof.
  intros Hq Hk. unfold roundPositive.
  pose proof (pow2_pos (ulpExponent q)) as Hp.
  apply Qmult_le_compat_r; [| lra]. rewrite <- Zle_Qle.
  rewrite <- (nearestEven_Z k) at 1. apply nearestEven_mono.
  by apply Qle_shift_div_l.
Qed.

(** Across two binades the power of two between them separates the
    rounded values. *)
Lemma roundPositive_mono (a b : Q) :
  (0 < a)%Q -> (a <= b)%Q -> (roundPositive a <= roundPositive b)%Q.
Proof.
  intros Ha Hab. assert (Hb : (0 < b)%Q) by lra.
  pose proof (ilog2_mono a b Ha Hab) as Hlog.
  destruct (Z.eq_dec (ulpExponent a) (ulpExponent b)) as [Heq|Hne].
  - unfold roundPositive. rewrite Heq.
    pose proof (pow2_pos (ulpExponent b)) as Hp.
    apply Qmult_le_compat_r; [| lra]. rewrite <- Zle_Qle.
    apply nearestEven_mono. apply Qle_shift_div_l; [exact Hp |].
    assert (Hx : (a / 2 ^ ulpExponent b * 2 ^ ulpExponent b == a)%Q) by (field; lra).
    by rewrite Hx.
  - assert (Hsb : ulpExponent b = ilog2 b - 52) by (unfold ulpExponent in *; lia).
    assert (Hsa : ilog2 a - 52 <= ulpExponent a < ulpExponent b)
      by (unfold ulpExponent in *; lia).
    destruct (ilog2_spec a Ha) as [_ Ha2]. destruct (ilog2_spec b Hb) as [Hb1 _].
    apply (Qle_trans _ (2 ^ ilog2 b)).
    + assert (Hk : (2 ^ ilog2 b
                    == inject_Z (2 ^ (ilog2 b - ulpExponent a)) * 2 ^ ulpExponent a)%Q).
      { rewrite pow2_Z by lia. apply pow2_split. }
      rewrite Hk. apply roundPositive_below; [exact Ha |]. rewrite <- Hk.
      pose proof (pow2_le (ilog2 a + 1) (ilog2 b) ltac:(lia)). lra.
    + assert (Hk : (2 ^ ilog2 b == inject_Z (2 ^ 52) * 2 ^ ulpExponent b)%Q).
      { rewrite pow2_Z by lia. rewrite Hsb.
        rewrite (pow2_split (ilog2 b) (ilog2 b - 52)).
        by replace (ilog2 b - (ilog2 b - 52)) with 52 by lia. }
      rewrite Hk. apply roundPositive_above; [exact Hb |]. by rewrite <- Hk.
Qed.

Lemma nearest_mono (a b : Q) : (a <= b)%Q -> (nearest a <= nearest b)%Q.
Proof.
  intros Hab. unfold nearest.
  destruct (Qcompare_spec a 0) as [Ha|Ha|Ha];
    destruct (Qcompare_spec b 0) as [Hb|Hb|Hb]; try lra.
  - pose proof (roundPositive_nonneg b Hb). lra.
  - pose proof (roundPositive_nonneg (- a) ltac:(lra)). lra.
  - pose proof (roundPositive_mono (- b) (- a) ltac:(lra) ltac:(lra)). lra.
  - pose proof (roundPositive_nonneg (- a) ltac:(lra)).
    pose proof (roundPositive_nonneg b Hb). lra.
  - by apply roundPositive_mono.
Qed.

(** Integers up to [2^53] in magnitude are doubles. *)
Lemma roundPositive_Z (z : Z) :
  0 < z <= 2 ^ 53 -> (roundPositive (inject_Z z) == inject_Z z)%Q.
Proof.
  intros Hz.
  assert (Hq : (0 < inject_Z z)%Q) by (rewrite <- (Zlt_Qlt 0); lia).
  destruct (ilog2_spec _ Hq) as [Hlow _].
  assert (Hlog : ilog2 (inject_Z z) <= 53).
  { assert (ilog2 (inject_Z z) < 54); [| lia]. apply pow2_lt_inv.
    apply (Qle_lt_trans _ (inject_Z z)); [exact Hlow |].
    rewrite <- (pow2_Z 54) by lia. rewrite <- Zlt_Qlt. lia. }
  set (s := ulpExponent (inject_Z z)).
  assert (Hs : s <= 1) by (unfold s, ulpExponent; lia).
  pose proof (pow2_pos s) as Hp.
  assert (Hint : exists k, (inject_Z z == inject_Z k * 2 ^ s)%Q).
  { destruct (Z.eq_dec s 1) as [H1|H1].
    - assert (Hl53 : ilog2 (inject_Z z) = 53) by (unfold s, ulpExponent in H1; lia).
      rewrite Hl53 in Hlow. rewrite <- (pow2_Z 53) in Hlow by lia.
      rewrite <- Zle_Qle in Hlow. assert (z = 2 ^ 53) as -> by lia.
      exists (2 ^ 52). rewrite H1. reflexivity.
    - exists (z * 2 ^ (- s)). rewrite inject_Z_mult, pow2_Z by lia.
      rewrite <- Qmult_assoc, <- Qpower_plus by done.
      replace (- s + s) with 0 by lia. simpl. ring. }
  destruct Hint as (k & Hk).
  apply Qle_antisym.
  - rewrite Hk at 2. apply roundPositive_below; [exact Hq |]. fold s. lra.
  - rewrite Hk at 1. apply roundPositive_above; [exact Hq |]. fold s. lra.
Qed.

Lemma nearest_Z (z : Z) :
  Z.abs z <= 2 ^ 53 -> (nearest (inject_Z z) == inject_Z z)%Q.
Proof.
  intros Hz. unfold nearest.
  destruct (Qcompare_spec (inject_Z z) 0) as [H|H|H].
  - lra.
  - change 0%Q with (inject_Z 0) in H. rewrite <- Zlt_Qlt in H.
    rewrite <- inject_Z_opp, roundPositive_Z by lia.
    rewrite inject_Z_opp. ring.
  - change 0%Q with (inject_Z 0) in H. rewrite <- Zlt_Qlt in H.
    apply roundPositive_Z. lia.
Qed.

Lemma Qred_inject_Z (z : Z) : Qred (inject_Z z) = inject_Z z.
Proof.
  unfold Qred, inject_Z. simpl.
  pose proof (Z.ggcd_gcd z 1) as Hg. pose proof (Z.ggcd_correct_divisors z 1) as Hd.
  destruct (Z.ggcd z 1) as [g [aa bb]]. simpl in *.
  rewrite Z.gcd_1_r in Hg. subst g. destruct Hd as [-> Hb].
  assert (bb = 1) as -> by lia. f_equal. lia.
Qed.

Lemma round_not_NaN (q : Q) : round q <> NaN.
Proof. unfold round. repeat case_match; discriminate. Qed.

(** Rounding keeps the order. *)
Lemma round_mono (a b : Q) : (a <= b)%Q -> leb (round a) (round b) = true.
Proof.
  intros Hab. pose proof (nearest_mono a b Hab) as Hn.
  pose proof (pow2_pos 1024) as Hp. unfold round.
  destruct (Qle_bool (2 ^ 1024) (nearest a)) eqn:Ha1;
    destruct (Qle_bool (2 ^ 1024) (nearest b)) eqn:Hb1;
    destruct (Qle_bool (nearest a) (- 2 ^ 1024)) eqn:Ha2;
    destruct (Qle_bool (nearest b) (- 2 ^ 1024)) eqn:Hb2; simpl;
    try reflexivity;
    repeat match goal with
           | H : Qle_bool _ _ = true |- _ => apply Qle_bool_iff in H
           | H : Qle_bool _ _ = false |- _ =>
               apply not_true_iff_false in H; rewrite Qle_bool_iff in H;
               apply Qnot_le_lt in H
           end; try lra.
  apply Qle_bool_iff, Qred_le. exact Hn.
Qed.

Lemma round_Z (z : Z) :
  Z.abs z <= 2 ^ 53 -> round (inject_Z z) = Finite (inject_Z z).
Proof.
  intros Hz. pose proof (nearest_Z z Hz) as Hn. unfold round.
  assert (Hbig : (inject_Z (2 ^ 53) < 2 ^ 1024)%Q).
  { rewrite pow2_Z by lia. by apply pow2_lt. }
  assert (Hin : (- inject_Z (2 ^ 53) <= inject_Z z <= inject_Z (2 ^ 53))%Q).
  { rewrite <- inject_Z_opp, <- !Zle_Qle. lia. }
  destruct (Qle_bool (2 ^ 1024) (nearest (inject_Z z))) eqn:H1.
  { apply Qle_bool_iff in H1. lra. }
  destruct (Qle_bool (nearest (inject_Z z)) (- 2 ^ 1024)) eqn:H2.
  { apply Qle_bool_iff in H2. lra. }
  f_equal. transitivity (Qred (inject_Z z));
    [by apply Qred_complete | apply Qred_inject_Z].
Qed.

Lemma leb_Finite (a b : Q) : leb (Finite a) (Finite b) = true <-> (a <= b)%Q.
Proof. apply Qle_bool_iff. Qed.

Lemma leb_Finite_false (a b : Q) : leb (Finite a) (Finite b) = false <-> (b < a)%Q.
Proof.
  simpl. rewrite <- not_true_iff_false, Qle_bool_iff. split.
  - apply Qnot_le_lt.
  - intros H1 H2. lra.
Qed.

(** A number between two finite ones is finite. *)
Lemma leb_between (x : JSNumber) (a b : Q) :
  leb (Finite a) x = true -> leb x (Finite b) = true ->
  exists v, x = Finite v /\ (a <= v <= b)%Q.
Proof.
  destruct x as [| | |v]; try discriminate.
  intros H1 H2. apply leb_Finite in H1, H2. eauto.
Qed.

(** What is at least zero and rounded stays at least zero, and likewise
    at most zero. *)
Lemma round_nonneg (q : Q) : (0 <= q)%Q -> leb (Finite 0) (round q) = true.
Proof. intros H. exact (round_mono 0 q H). Qed.

Lemma round_nonpos (q : Q) : (q <= 0)%Q -> leb (round q) (Finite 0) = true.
Proof. intros H. exact (round_mono q 0 H). Qed.

Lemma max_zero_nonneg (x : JSNumber) :
  x <> NaN -> leb (Finite 0) (max (Finite 0) x) = true.
Proof.
  destruct x as [| | |v]; try done. intros _. simpl.
  destruct (Qle_bool 0 v) eqn:H; simpl; [exact H | reflexivity].
Qed.

Lemma mul_positive_not_NaN (x : JSNumber) (j : Q) :
  x <> NaN -> (0 < j)%Q -> mul x (Finite j) <> NaN /\ mul (Finite j) x <> NaN.
Proof.
  intros Hx Hj.
  assert (Hc : (j ?= 0)%Q = Gt) by (by apply Qgt_alt).
  destruct x as [| | |v]; try done; simpl; unfold scaleInfinity; rewrite ?Hc;
    split; try discriminate; apply round_not_NaN.
Qed.

End RoundingFacts.

(** ** The Discord client *)

Section ClientFacts.
Import Discord.

Variable parseFloat : string -> JSNumber.
Variable dateGetTime : string -> option Z.

Local Abbreviation inner := (discordFetchInner parseFloat dateGetTime).
Local Abbreviation run := (attemptsFrom parseFloat dateGetTime).

(** A delay hint read from [Retry-After] is a number and is never
    negative. *)
Lemma discordFetchInner_hint_nonneg (a : Attempt) (afterMs : JSNumber) :
  inner a = ResultErr (retry (Some afterMs)) ->
  Double.leb (Finite 0) afterMs = true.
Proof.
  unfold discordFetchInner. intros Hinner.
  repeat case_match; simplify_eq; apply max_zero_nonneg;
    cbn [Double.mul Double.sub Double.add Double.opp Double.ofZ];
    apply round_not_NaN.
Qed.

(** The jitter lies between the doubles [0.85] and [1.15]. *)
Lemma jitterOf_bounds (a : Attempt) :
  (0 <= mathRandom a)%Q -> (mathRandom a < 1)%Q ->
  Double.leb (Double.round (85 # 100)) (jitterOf a) = true
  /\ Double.leb (jitterOf a) (Double.round (115 # 100)) = true.
Proof.
  intros Hlow Hhigh. unfold jitterOf.
  set (range := (5404319552844595 # 18014398509481984)%Q).
  set (least := (7656119366529843 # 9007199254740992)%Q).
  assert (Hrange : JITTER_RANGE = Finite range) by (vm_compute; reflexivity).
  assert (Hleast : JITTER_MIN = Finite least) by (vm_compute; reflexivity).
  rewrite Hrange, Hleast. cbn [Double.mul].
  assert (Hr0 : Double.round 0 = Finite 0) by (vm_compute; reflexivity).
  assert (Hr1 : Double.round range = Finite range) by (vm_compute; reflexivity).
  assert (Hpos : (0 < range)%Q) by reflexivity.
  destruct (leb_between (Double.round (mathRandom a * range)) 0 range)
    as (x & -> & Hx).
  { rewrite <- Hr0. apply round_mono. nra. }
  { rewrite <- Hr1. apply round_mono. nra. }
  cbn [Double.add]. split.
  - replace (Double.round (85 # 100)) with (Double.round least)
      by (vm_compute; reflexivity).
    apply round_mono. lra.
  - replace (Double.round (115 # 100)) with (Double.round (range + least))
      by (vm_compute; reflexivity).
    apply round_mono. lra.
Qed.

Lemma jitterOf_positive (a : Attempt) :
  (0 <= mathRandom a)%Q -> (mathRandom a < 1)%Q ->
  exists j, jitterOf a = Finite j /\ (0 < j)%Q.
Proof.
  intros Hlow Hhigh. destruct (jitterOf_bounds a Hlow Hhigh) as [H1 H2].
  replace (Double.round (85 # 100))
    with (Finite (7656119366529843 # 9007199254740992)) in H1
    by (vm_compute; reflexivity).
  replace (Double.round (115 # 100))
    with (Finite (2589569785738035 # 2251799813685248)) in H2
    by (vm_compute; reflexivity).
  destruct (leb_between _ _ _ H1 H2) as (j & -> & Hj & _).
  exists j. split; [reflexivity |].
  apply (Qlt_le_trans _ (7656119366529843 # 9007199254740992)); [reflexivity | exact Hj].
Qed.

(** A backoff that is slept is finite, positive, and leaves the safety
    buffer before the deadline. *)
Lemma backoffMs_sleep (maxEndTime : Z) (attempt : nat) (a : Attempt) :
  (0 <= mathRandom a)%Q -> (mathRandom a < 1)%Q ->
  Double.leb (backoffMs maxEndTime attempt a) (Finite 0) = false ->
  exists ms,
    backoffMs maxEndTime attempt a = Finite ms
    /\ (0 < ms)%Q
    /\ (ms <= inject_Z (maxEndTime - clockAfter a - 100))%Q.
Proof.
  intros Hlow Hhigh. unfold backoffMs, EXTRA_BUFFER_MS, Double.ofZ.
  destruct (jitterOf_positive a Hlow Hhigh) as (j & -> & Hj).
  assert (Hbase : Double.mul (Finite 500) (Double.pow2 (Z.of_nat attempt - 1)) <> NaN).
  { apply (mul_positive_not_NaN _ 500); [apply round_not_NaN | reflexivity]. }
  pose proof (proj1 (mul_positive_not_NaN _ j Hbase Hj)) as Hprod.
  set (product := Double.mul _ (Finite j)) in *. clearbody product.
  set (room := inject_Z (maxEndTime - clockAfter a - 100)).
  destruct product as [| | |p]; try done; simpl.
  - intros Hzero. apply leb_Finite_false in Hzero. exists room.
    split; [reflexivity |]. split; [exact Hzero | lra].
  - destruct (Qle_bool p room) eqn:Hmin; intros Hzero;
      apply leb_Finite_false in Hzero.
    + apply Qle_bool_iff in Hmin. eauto.
    + exists room. split; [reflexivity |]. split; [exact Hzero | lra].
Qed.

(** A hint that is slept is finite, and the sleep ends before the
    deadline: the sum that the code compares is rounded, and rounding keeps
    the order. *)
Lemma hint_sleep (maxEndTime now_ : Z) (afterMs : JSNumber) :
  Z.abs maxEndTime <= 2 ^ 53 ->
  Double.leb (Finite 0) afterMs = true ->
  Double.leb (Double.ofZ maxEndTime) (Double.add (Double.ofZ now_) afterMs) = false ->
  exists ms,
    afterMs = Finite ms /\ (0 <= ms)%Q
    /\ (inject_Z now_ + ms < inject_Z maxEndTime)%Q.
Proof.
  intros Hmax Hpos Hearly. unfold Double.ofZ in *.
  destruct afterMs as [| | |ms]; try discriminate.
  apply leb_Finite in Hpos. exists ms. split; [reflexivity |]. split; [exact Hpos |].
  apply Qnot_le_lt. intros Hlate.
  apply round_mono in Hlate. rewrite (round_Z _ Hmax) in Hlate.
  cbn [Double.add] in Hearly. congruence.
Qed.

(** A hint that ends at or after the deadline is never slept. *)
Lemma hint_timeout (maxEndTime now_ : Z) (ms : Q) :
  Z.abs maxEndTime <= 2 ^ 53 ->
  (inject_Z maxEndTime <= inject_Z now_ + ms)%Q ->
  Double.leb (Double.ofZ maxEndTime) (Double.add (Double.ofZ now_) (Finite ms)) = true.
Proof.
  intros Hmax Hlate. unfold Double.ofZ. cbn [Double.add].
  rewrite <- (round_Z _ Hmax). by apply round_mono.
Qed.

(** Every sleep of the loop was scheduled to end before the deadline, and
    only the first [retries] iterations sleep. *)
Lemma attemptsFrom_sleeps (retries maxEndTime : Z) (world : nat -> Attempt)
  (left : nat) : forall attempt result sleeps,
  run retries maxEndTime world left attempt = (result, sleeps) ->
  (length sleeps <= Z.to_nat (retries + 1 - Z.of_nat attempt))%nat
  /\ ((forall k, (0 <= mathRandom (world k))%Q /\ (mathRandom (world k) < 1)%Q) ->
      Z.abs maxEndTime <= 2 ^ 53 ->
      sleepsMeetDeadline maxEndTime world attempt sleeps).
Proof.
  assert (Hnil : forall attempt,
    (length (@nil Sleep) <= Z.to_nat (retries + 1 - Z.of_nat attempt))%nat
    /\ ((forall k, (0 <= mathRandom (world k))%Q /\ (mathRandom (world k) < 1)%Q) ->
        Z.abs maxEndTime <= 2 ^ 53 ->
        sleepsMeetDeadline maxEndTime world attempt [])).
  { intros attempt. split; [simpl; lia |]. intros _ _ [|i] s Hs; discriminate. }
  assert (Hcons : forall attempt x sleeps,
    Z.of_nat attempt <= retries ->
    (exists ms, x = Finite ms /\ (0 <= ms)%Q
                /\ (inject_Z (clockAfter (world attempt)) + ms
                    < inject_Z maxEndTime)%Q) ->
    (length sleeps <= Z.to_nat (retries + 1 - Z.of_nat (S attempt)))%nat ->
    sleepsMeetDeadline maxEndTime world (S attempt) sleeps ->
    sleepsMeetDeadline maxEndTime world attempt (sleep x :: sleeps)).
  { intros attempt x sleeps Hle Hx Hlen Hmeet [|i] s Hs; simpl in Hs.
    - injection Hs as <-. rewrite Nat.add_0_r. exact Hx.
    - replace (attempt + S i)%nat with (S attempt + i)%nat by lia. auto. }
  induction left as [|left IH]; intros attempt result sleeps; cbn [attemptsFrom].
  { intros H. injection H as <- <-. apply Hnil. }
  destruct (_ <=? 0); [intros H; injection H as <- <-; apply Hnil |].
  destruct (wasAborted _); [intros H; injection H as <- <-; apply Hnil |].
  destruct (inner (world attempt)) as [value|[e|[afterMs|]]] eqn:Hinner;
    try (intros H; injection H as <- <-; apply Hnil).
  - destruct (Z.ltb_spec retries (Z.of_nat attempt)) as [Hgt|Hle];
      [intros H; injection H as <- <-; apply Hnil |].
    destruct (Double.leb _ _) eqn:Hlate;
      [intros H; injection H as <- <-; apply Hnil |].
    destruct (run retries maxEndTime world left (S attempt)) as [r sl] eqn:Hrest.
    intros H. injection H as <- <-.
    destruct (IH _ _ _ Hrest) as [Hlen Hmeet].
    split; [simpl; lia |]. intros Hrandom Hmax.
    apply Hcons; [exact Hle | | exact Hlen | by apply Hmeet].
    apply (hint_sleep maxEndTime); [exact Hmax | | exact Hlate].
    eapply discordFetchInner_hint_nonneg, Hinner.
  - destruct (Z.ltb_spec retries (Z.of_nat attempt)) as [Hgt|Hle];
      [intros H; injection H as <- <-; apply Hnil |].
    destruct (Double.leb _ _) eqn:Hzero;
      [intros H; injection H as <- <-; apply Hnil |].
    destruct (run retries maxEndTime world left (S attempt)) as [r sl] eqn:Hrest.
    intros H. injection H as <- <-.
    destruct (IH _ _ _ Hrest) as [Hlen Hmeet].
    split; [simpl; lia |]. intros Hrandom Hmax.
    apply Hcons; [exact Hle | | exact Hlen | by apply Hmeet].
    destruct (Hrandom attempt) as [Hlow Hhigh].
    destruct (backoffMs_sleep maxEndTime attempt (world attempt) Hlow Hhigh Hzero)
      as (ms & -> & Hpos & Hroom).
    exists ms. split; [reflexivity |]. split; [lra |].
    unfold Z.sub in Hroom. rewrite !inject_Z_plus, !inject_Z_opp in Hroom.
    change (inject_Z 100) with 100%Q in Hroom. lra.
Qed.

(** A success of the loop is the answer of an attempt that started before
    the deadline and was not aborted. *)
Lemma attemptsFrom_success (retries maxEndTime : Z) (world : nat -> Attempt)
  (left : nat) : forall attempt value sleeps,
  run retries maxEndTime world left attempt = (ResultOk value, sleeps) ->
  exists k,
    (attempt <= k < attempt + left)%nat
    /\ inner (world k) = ResultOk value
    /\ clockAtStart (world k) < maxEndTime
    /\ wasAborted (world k) = false.
Proof.
  induction left as [|left IH]; intros attempt value sleeps; cbn [attemptsFrom];
    [discriminate |].
  destruct (Z.leb_spec (maxEndTime - clockAtStart (world attempt)) 0) as [|Htime];
    [discriminate |].
  destruct (wasAborted (world attempt)) eqn:Habort; [discriminate |].
  assert (Hrest : forall x,
    (let '(r, sl) := run retries maxEndTime world left (S attempt) in
     (r, sleep x :: sl)) = (ResultOk value, sleeps) ->
    exists k,
      (attempt <= k < attempt + S left)%nat
      /\ inner (world k) = ResultOk value
      /\ clockAtStart (world k) < maxEndTime
      /\ wasAborted (world k) = false).
  { intros x.
    destruct (run retries maxEndTime world left (S attempt)) as [r sl] eqn:Hrun.
    intros H. injection H as -> _.
    destruct (IH _ _ _ Hrun) as (k & Hk & Hfound).
    exists k. split; [lia | exact Hfound]. }
  destruct (inner (world attempt)) as [found|[e|[afterMs|]]] eqn:Hinner.
  - intros H. injection H as -> _. exists attempt.
    split; [lia |]. split; [exact Hinner |]. split; [lia | exact Habort].
  - discriminate.
  - destruct (_ <? _); [discriminate |].
    destruct (Double.leb _ _); [discriminate | apply Hrest].
  - destruct (_ <? _); [discriminate |].
    destruct (Double.leb _ _); [discriminate | apply Hrest].
Qed.

(** C6.  [discordFetch] computes one deadline, [startTime + timeoutMs]
    (5000 ms unless given), and runs at most [retries + 1] attempts (3
    retries unless given); when no iteration is left the call ends with
    [retries-exhausted].  Each iteration is decided as follows.  With no
    time left at its start, or with its fetch aborted by the timer, the
    call ends with [timeout].  A success and a final error of the attempt
    are returned as they are.  A retryable outcome after the last retry
    ends the call with [retries-exhausted].  A delay hint is slept, and the
    loop goes on, unless the sum of the clock and the hint, as the code
    computes it, reaches the deadline: then the call ends with [timeout],
    and this is the case whenever the hint ends at or after the deadline.
    Without a hint the delay is [500 * 2 ** (attempt - 1)] times the
    jitter, capped by the time left less 100 ms; a delay that is not
    positive ends the call with [retries-exhausted], any other is slept.
    The jitter lies between [0.85] and [1.15].  Whatever the world does, at
    most [retries] sleeps happen, a success comes from an attempt that
    started before the deadline and was not aborted, and each sleep is
    finite, not negative and ends before the deadline. *)
Theorem discordFetch_deadline (retriesOpt : option nat) (timeoutOpt : option Z)
  (startTime : Z) (world : nat -> Attempt) :
  let retries := default 3%nat retriesOpt in
  let maxEndTime := startTime + default 5000 timeoutOpt in
  let loop := run (Z.of_nat retries) maxEndTime world in
  discordFetch parseFloat dateGetTime retriesOpt timeoutOpt startTime world
  = loop (retries + 1)%nat 1%nat
  /\ (forall attempt, loop 0%nat attempt = (ResultErr retries_exhausted, []))
  /\ (forall left attempt,
        let a := world attempt in
        let here := loop (S left) attempt in
        let continue ms :=
          let '(r, sleeps) := loop left (S attempt) in (r, sleep ms :: sleeps) in
        (maxEndTime - clockAtStart a <= 0 -> here = (ResultErr timeout, []))
        /\ (0 < maxEndTime - clockAtStart a -> wasAborted a = true ->
            here = (ResultErr timeout, []))
        /\ (0 < maxEndTime - clockAtStart a -> wasAborted a = false ->
            match inner a with
            | ResultOk value => here = (ResultOk value, [])
            | ResultErr (final e) => here = (ResultErr e, [])
            | ResultErr (retry hint) =>
                ((retries < attempt)%nat ->
                 here = (ResultErr retries_exhausted, []))
                /\ ((attempt <= retries)%nat ->
                    match hint with
                    | Some afterMs =>
                        let sum :=
                          Double.add (Double.ofZ (clockAfter a)) afterMs in
                        (Double.leb (Double.ofZ maxEndTime) sum = true ->
                         here = (ResultErr timeout, []))
                        /\ (Double.leb (Double.ofZ maxEndTime) sum = false ->
                            here = continue afterMs)
                        /\ (Z.abs maxEndTime <= 2 ^ 53 ->
                            forall ms, afterMs = Finite ms ->
                            (inject_Z maxEndTime
                             <= inject_Z (clockAfter a) + ms)%Q ->
                            here = (ResultErr timeout, []))
                    | None =>
                        let backoff :=
                          Double.min
                            (Double.mul
                               (Double.mul (Finite 500)
                                           (Double.pow2 (Z.of_nat attempt - 1)))
                               (jitterOf a))
                            (Double.ofZ (maxEndTime - clockAfter a - 100)) in
                        (Double.leb backoff (Finite 0) = true ->
                         here = (ResultErr retries_exhausted, []))
                        /\ (Double.leb backoff (Finite 0) = false ->
                            here = continue backoff)
                    end)
            end))
  /\ (forall a, (0 <= mathRandom a)%Q -> (mathRandom a < 1)%Q ->
                Double.leb (Double.round (85 # 100)) (jitterOf a) = true
                /\ Double.leb (jitterOf a) (Double.round (115 # 100)) = true)
  /\ (forall result sleeps,
        discordFetch parseFloat dateGetTime retriesOpt timeoutOpt startTime world
        = (result, sleeps) ->
        (length sleeps <= retries)%nat
        /\ (forall value,
              result = ResultOk value ->
              exists k,
                (1 <= k <= retries + 1)%nat
                /\ inner (world k) = ResultOk value
                /\ clockAtStart (world k) < maxEndTime
                /\ wasAborted (world k) = false)
        /\ ((forall k, (0 <= mathRandom (world k))%Q
                       /\ (mathRandom (world k) < 1)%Q) ->
            Z.abs maxEndTime <= 2 ^ 53 ->
            sleepsMeetDeadline maxEndTime world 1 sleeps)).
Proof.
  intros retries maxEndTime loop.
  split; [reflexivity |]. split; [reflexivity |].
  split; [| split; [exact jitterOf_bounds |]].
  - intros left attempt a here continue. subst here loop. cbn [attemptsFrom].
    fold a.
    split; [| split].
    + intros Hout. by destruct (Z.leb_spec (maxEndTime - clockAtStart a) 0); [| lia].
    + intros Hin Habort.
      destruct (Z.leb_spec (maxEndTime - clockAtStart a) 0); [lia |].
      by rewrite Habort.
    + intros Hin Habort.
      destruct (Z.leb_spec (maxEndTime - clockAtStart a) 0); [lia |].
      rewrite Habort.
      destruct (inner a) as [value|[e|hint]]; [reflexivity | reflexivity |].
      split.
      * intros Hlast.
        by destruct (Z.ltb_spec (Z.of_nat retries) (Z.of_nat attempt)); [| lia].
      * intros Hmore.
        destruct (Z.ltb_spec (Z.of_nat retries) (Z.of_nat attempt)); [lia |].
        destruct hint as [afterMs|].
        -- cbv zeta. split; [by intros -> |]. split; [by intros -> |].
           intros Hmax ms -> Hlate.
           by rewrite (hint_timeout maxEndTime (clockAfter a) ms Hmax Hlate).
        -- unfold backoffMs, EXTRA_BUFFER_MS. cbv zeta.
           split; by intros ->.
  - intros result sleeps Hfetch. unfold discordFetch in Hfetch.
    fold retries maxEndTime in Hfetch.
    pose proof (attemptsFrom_sleeps _ _ _ _ _ _ _ Hfetch) as [Hlen Hmeet].
    split; [lia |]. split; [| exact Hmeet].
    intros value ->.
    destruct (attemptsFrom_success _ _ _ _ _ _ _ Hfetch) as (k & Hk & Hfound).
    exists k. split; [lia | exact Hfound].
Qed.

(** C3, as the code has it.  After a fetch that succeeded, the revocation
    succeeds exactly on the statuses 200 and 204, whatever the body; 401 is
    [invalid-auth] and every other status, the other 2xx included, is
    [unexpected-response]. *)
Theorem revokeDiscordOAuth2Token_status (startTime : Z) (world : nat -> Attempt)
  (value : FetchValue) :
  fst (discordFetch parseFloat dateGetTime None None startTime world)
  = ResultOk value ->
  let revoked := revokeDiscordOAuth2Token parseFloat dateGetTime startTime world in
  (statusCode value = 200 \/ statusCode value = 204 -> revoked = ResultOk tt)
  /\ (statusCode value = 401 -> revoked = ResultErr invalid_auth)
  /\ (statusCode value <> 200 -> statusCode value <> 204 ->
      statusCode value <> 401 -> revoked = ResultErr unexpected_response).
Proof.
  intros Hfetch revoked. subst revoked.
  unfold revokeDiscordOAuth2Token, revokeResponse. rewrite Hfetch.
  repeat split.
  - by intros [-> | ->].
  - by intros ->.
  - intros H200 H204 H401.
    destruct (Z.eqb_spec (statusCode value) 401); [done |].
    destruct (Z.eqb_spec (statusCode value) 200); [done |].
    by destruct (Z.eqb_spec (statusCode value) 204).
Qed.

End ClientFacts.

Lemma discordFetch_deadline_witness :
  Discord.discordFetch Sample.parseFloat Sample.dateGetTime (Some 3%nat) (Some 1000) 0
    Sample.serverErrors
  = (ResultErr Discord.retries_exhausted,
     [Discord.sleep (Discord.Finite 500); Discord.sleep (Discord.Finite 300)])
  /\ Discord.sleepsMeetDeadline 1000 Sample.serverErrors 1
       [Discord.sleep (Discord.Finite 500); Discord.sleep (Discord.Finite 300)].
Proof.
  split; [vm_compute; reflexivity |].
  apply (proj2 (proj2 (proj2 (proj2 (proj2 (proj2 (discordFetch_deadline
    Sample.parseFloat Sample.dateGetTime (Some 3%nat) (Some 1000) 0
    Sample.serverErrors))))
    (ResultErr Discord.retries_exhausted) _ ltac:(vm_compute; reflexivity)))).
  - intros k. split; [discriminate | reflexivity].
  - simpl. lia.
Defined.

(** C3, as stated, fails: a fetch that succeeds with status 201 is a 2xx
    answer, and the revocation reports [unexpected-response]. *)
Lemma revokeDiscordOAuth2Token_created :
  fst (Discord.discordFetch Sample.parseFloat Sample.dateGetTime None None 0 Sample.created)
  = ResultOk {| Discord.data := JNull; Discord.statusCode := 201 |}
  /\ 200 <= 201 < 300
  /\ Discord.revokeDiscordOAuth2Token Sample.parseFloat Sample.dateGetTime 0
       Sample.created
     = ResultErr Discord.unexpected_response.
Proof. split; [reflexivity |]. split; [lia | reflexivity]. Qed.

Lemma revokeDiscordOAuth2Token_status_witness :
  Discord.revokeDiscordOAuth2Token Sample.parseFloat Sample.dateGetTime 0
    Sample.created
  = ResultErr Discord.unexpected_response.
Proof.
  apply (revokeDiscordOAuth2Token_status Sample.parseFloat Sample.dateGetTime 0
           Sample.created {| Discord.data := JNull; Discord.statusCode := 201 |}
           eq_refl); discriminate.
Defined.

(** ** The dispatcher *)

Section DispatcherFacts.

Variable World Value : Type.
Variable JSON_parse : string -> option json.

Local Abbreviation Handler := (RPC.RPCHandler World Value).

(** The map holds, under each method name, the last handler of the list
    that carries the name. *)
Lemma createHandlersMap_snoc (handlers : list Handler) (h : Handler) :
  RPC.createHandlersMap World Value (handlers ++ [h])
  = <[RPC.method h := h]> (RPC.createHandlersMap World Value handlers).
Proof. unfold RPC.createHandlersMap. by rewrite foldl_app. Qed.

Lemma createHandlersMap_lookup (handlers : list Handler) (name : string) :
  match RPC.createHandlersMap World Value handlers !! name with
  | None => forall h, In h handlers -> RPC.method h <> name
  | Some h => In h handlers /\ RPC.method h = name
  end.
Proof.
  induction handlers as [|h handlers IH] using rev_ind.
  - unfold RPC.createHandlersMap. simpl. rewrite lookup_empty.
    intros h [].
  - rewrite createHandlersMap_snoc.
    destruct (decide (RPC.method h = name)) as [Heq|Hne].
    + rewrite Heq, lookup_insert_eq. split; [| exact Heq].
      apply in_or_app. right. by left.
    + rewrite lookup_insert_ne by exact Hne.
      destruct (RPC.createHandlersMap World Value handlers !! name) as [h'|].
      * destruct IH as [Hin Hname]. split; [| exact Hname].
        apply in_or_app. by left.
      * intros h' Hin. apply in_app_or in Hin as [Hin|[<-|[]]]; auto.
Qed.

(** C9.  [handleRPC] is a total function into well-formed responses.  In
    this order: a body that cannot be read or parsed gives the code -32700;
    a parsed body that fails the envelope schema gives -32600; a method
    that no registered handler carries gives -32601; parameters that the
    handler's schema refuses give -32602; a handler whose promise rejects
    gives -32603; and otherwise the value the handler resolved to is the
    [result] of the response.  Only the handler acts on the world. *)
Theorem handleRPC_classification (RPC_HANDLERS : list Handler)
  (reqText : Result string unit) (w : World) :
  let answer := RPC.handleRPC World Value JSON_parse RPC_HANDLERS reqText w in
  let failed code message :=
    RPC.payload (fst answer)
    = RPC.error {| RPC.code := code; RPC.message := message |}
    /\ snd answer = w in
  RPC.RPCResponseSchema (fst answer) = true
  /\ match reqText with
     | ResultErr _ => failed (-32700) "Parse error"%string
     | ResultOk text =>
     match JSON_parse text with
     | None => failed (-32700) "Parse error"%string
     | Some reqJSON =>
     match RPC.RPCRequestSchema reqJSON with
     | None => failed (-32600) "Invalid Request"%string
     | Some rpcRequest =>
     match RPC.getHandlers World Value RPC_HANDLERS !! RPC.req_method rpcRequest with
     | None =>
         (forall h, In h RPC_HANDLERS -> RPC.method h <> RPC.req_method rpcRequest)
         /\ failed (-32601) "Method not found"%string
     | Some h =>
         In h RPC_HANDLERS /\ RPC.method h = RPC.req_method rpcRequest
         /\ match RPC.paramsSchema h (RPC.req_params rpcRequest) with
            | None => failed (-32602) "Invalid params"%string
            | Some params =>
                match RPC.handler h params w with
                | (RPC.Rejected, w') =>
                    RPC.payload (fst answer)
                    = RPC.error {| RPC.code := -32603;
                                   RPC.message := "Internal error" |}
                    /\ snd answer = w'
                | (RPC.Fulfilled value, w') =>
                    RPC.payload (fst answer) = RPC.result value
                    /\ snd answer = w'
                end
            end
     end end end end.
Proof.
  intros answer failed. subst answer failed. unfold RPC.handleRPC.
  destruct reqText as [text|]; [| by repeat split].
  destruct (JSON_parse text) as [reqJSON|]; [| by repeat split].
  destruct (RPC.RPCRequestSchema reqJSON) as [rpcRequest|]; [| by repeat split].
  pose proof (createHandlersMap_lookup RPC_HANDLERS (RPC.req_method rpcRequest))
    as Hlookup.
  unfold RPC.getHandlers.
  destruct (RPC.createHandlersMap World Value RPC_HANDLERS !! _) as [h|];
    [| by repeat split].
  destruct Hlookup as [Hin Hname].
  destruct (RPC.paramsSchema h (RPC.req_params rpcRequest)) as [params|];
    [| by repeat split].
  destruct (RPC.handler h params w) as [[value|] w']; by repeat split.
Qed.

(** C10.  The response carries the id [null] whenever the body could not
    be read or parsed or failed the envelope schema, whatever [id] member
    the parsed body has; in every response made after the envelope schema
    accepted the request, it carries the id of the request ([null] when the
    request has none). *)
Theorem handleRPC_request_id (RPC_HANDLERS : list Handler)
  (reqText : Result string unit) (w : World) :
  let response :=
    fst (RPC.handleRPC World Value JSON_parse RPC_HANDLERS reqText w) in
  RPC.id response
  = match reqText with
    | ResultErr _ => RPC.IDNull
    | ResultOk text =>
        match JSON_parse text with
        | None => RPC.IDNull
        | Some reqJSON =>
            match RPC.RPCRequestSchema reqJSON with
            | None => RPC.IDNull
            | Some rpcRequest => default RPC.IDNull (RPC.req_id rpcRequest)
            end
        end
    end
  /\ (forall text members i,
        reqText = ResultOk text ->
        JSON_parse text = Some (JObject members) ->
        RPC.idSchema (RPC.member "id" members) = Some (Some i) ->
        RPC.RPCRequestSchema (JObject members) = None ->
        RPC.id response = RPC.IDNull).
Proof.
  intros response.
  assert (Hid : RPC.id response
    = match reqText with
      | ResultErr _ => RPC.IDNull
      | ResultOk text =>
          match JSON_parse text with
          | None => RPC.IDNull
          | Some reqJSON =>
              match RPC.RPCRequestSchema reqJSON with
              | None => RPC.IDNull
              | Some rpcRequest => default RPC.IDNull (RPC.req_id rpcRequest)
              end
          end
      end).
  { subst response. unfold RPC.handleRPC.
    destruct reqText as [text|]; [| reflexivity].
    destruct (JSON_parse text) as [reqJSON|]; [| reflexivity].
    destruct (RPC.RPCRequestSchema reqJSON) as [rpcRequest|]; [| reflexivity].
    destruct (RPC.getHandlers World Value RPC_HANDLERS !! _) as [h|];
      [| reflexivity].
    destruct (RPC.paramsSchema h (RPC.req_params rpcRequest)) as [params|];
      [| reflexivity].
    by destruct (RPC.handler h params w) as [[value|] w']. }
  split; [exact Hid |].
  intros text members i -> Hparse _ Hschema.
  by rewrite Hid, Hparse, Hschema.
Qed.

End DispatcherFacts.

Lemma handleRPC_classification_witness :
  RPC.handleRPC nat json Sample.JSON_parse [Sample.ping]
    (ResultOk Sample.pingBody) 0%nat
  = ({| RPC.id := RPC.IDNumber 7; RPC.jsonrpc := "2.0";
        RPC.payload := RPC.result (JString "pong") |}, 1%nat)
  /\ RPC.payload (fst (RPC.handleRPC nat json Sample.JSON_parse [Sample.ping]
                         (ResultOk Sample.noVersionBody) 0%nat))
     = RPC.error {| RPC.code := -32600; RPC.message := "Invalid Request" |}.
Proof.
  split; [reflexivity |].
  exact (proj1 (proj2 (handleRPC_classification nat json Sample.JSON_parse
                         [Sample.ping] (ResultOk Sample.noVersionBody) 0%nat))).
Defined.

Lemma handleRPC_request_id_witness :
  RPC.member "id" [("id", JNumber 7); ("method", JString "ping")]%string
  = Some (JNumber 7)
  /\ RPC.id (fst (RPC.handleRPC nat json Sample.JSON_parse [Sample.ping]
                    (ResultOk Sample.noVersionBody) 0%nat))
     = RPC.IDNull
  /\ RPC.id (fst (RPC.handleRPC nat json Sample.JSON_parse [Sample.ping]
                    (ResultOk Sample.pingBody) 0%nat))
     = RPC.IDNumber 7.
Proof.
  split; [reflexivity |]. split.
  - exact (proj2 (handleRPC_request_id nat json Sample.JSON_parse [Sample.ping]
                    (ResultOk Sample.noVersionBody) 0%nat)
                 Sample.noVersionBody _ (RPC.IDNumber 7)
                 eq_refl eq_refl eq_refl eq_refl).
  - exact (proj1 (handleRPC_request_id nat json Sample.JSON_parse [Sample.ping]
                    (ResultOk Sample.pingBody) 0%nat)).
Defined.

(** ** Invariants of the tables *)

Section TableFacts.
Import Schema Datastore.

Context {Row : Type}.

(** AUTOINCREMENT hands out an id above every id in the table. *)
Lemma nextId_above (id : Row -> Z) (t : Table Row) (r : Row) :
  In r (rows t) -> id r < nextId id t.
Proof.
  unfold nextId. generalize (sequence t) as s.
  induction (rows t) as [|a l IH]; simpl; [tauto |].
  intros s [->|Hin]; [lia |]. specialize (IH s Hin). lia.
Qed.

Lemma nextId_fresh (id : Row -> Z) (t : Table Row) :
  ~ In (nextId id t) (map id (rows t)).
Proof.
  intros Hin. apply List.in_map_iff in Hin as (r & Hr & Hin).
  apply (nextId_above id) in Hin. lia.
Qed.

Lemma NoDup_snoc {A} (l : list A) (x : A) :
  NoDup l -> ~ In x l -> NoDup (l ++ [x]).
Proof.
  intros Hnd Hx. apply NoDup_app. split; [exact Hnd |].
  split; [| apply NoDup_singleton].
  intros y Hy Hy'. apply list_elem_of_singleton in Hy'. subst y.
  by apply Hx, list_elem_of_In.
Qed.

(** An update that keeps a column keeps the column. *)
Lemma updateRows_column {K} (key : Row -> K) (where_ : Row -> bool)
  (set : Row -> Row) (t : Table Row) :
  (forall r, key (set r) = key r) ->
  map key (rows (updateRows where_ set t)) = map key (rows t).
Proof.
  intros Hkeep. simpl. rewrite map_map. apply map_ext.
  intros r. by destruct (where_ r).
Qed.

Lemma deleteRows_NoDup {K} (key : Row -> K) (where_ : Row -> bool) (t : Table Row) :
  NoDup (map key (rows t)) -> NoDup (map key (rows (deleteRows where_ t))).
Proof.
  simpl. generalize (rows t) as l.
  induction l as [|a l IH]; simpl; [done |].
  intros Hnd. apply NoDup_cons in Hnd as [Hfresh Hnd].
  destruct (where_ a); simpl; auto.
  apply NoDup_cons. split; auto.
  intros Hin. apply Hfresh.
  apply list_elem_of_In, List.in_map_iff in Hin as (x & Hx & Hin).
  apply filter_In in Hin as [Hin _].
  rewrite <- Hx. by apply list_elem_of_In, in_map.
Qed.

Lemma insertRow_NoDup {K} (key : Row -> K) (l : list Row) (x : Row) :
  NoDup (map key l) -> ~ In (key x) (map key l) -> NoDup (map key (l ++ [x])).
Proof. intros Hnd Hfresh. rewrite map_app. simpl. by apply NoDup_snoc. Qed.

(** Rewriting one column of the row with primary key [k] to a value no
    other row holds keeps the column free of duplicates. *)
Lemma updateRows_NoDup {K} (id : Row -> Z) (key : Row -> K) (k : Z)
  (set : Row -> Row) (v : K) (t : Table Row) :
  NoDup (map id (rows t)) ->
  NoDup (map key (rows t)) ->
  (forall r, key (set r) = v) ->
  (forall r, In r (rows t) -> id r <> k -> key r <> v) ->
  NoDup (map key (rows (updateRows (fun r => id r =? k) set t))).
Proof.
  simpl. generalize (rows t) as l.
  induction l as [|a l IH]; simpl; [done |].
  intros Hpk Hnd Hset Hother.
  apply NoDup_cons in Hpk as [Hida Hpk]. apply NoDup_cons in Hnd as [Hka Hnd].
  apply NoDup_cons. split; [| apply IH; auto].
  intros Hin. apply list_elem_of_In, List.in_map_iff in Hin as (x & Hx & Hin).
  apply List.in_map_iff in Hin as (r & <- & Hin).
  assert (Hne : id r <> id a).
  { intros Heq. apply Hida. rewrite <- Heq. by apply list_elem_of_In, in_map. }
  destruct (Z.eqb_spec (id a) k) as [Hak|Hak];
    destruct (Z.eqb_spec (id r) k) as [Hrk|Hrk].
  - congruence.
  - rewrite Hset in Hx. apply (Hother r); auto.
  - rewrite Hset in Hx. apply (Hother a); auto.
  - apply Hka. rewrite <- Hx. by apply list_elem_of_In, in_map.
Qed.

End TableFacts.

(** ** What the statements keep *)

Section StatementFacts.
Import Schema Datastore.

Lemma tryCatch_cases {A} (outage : bool) (s : Stmt A) (d : DB) r d1 :
  tryCatch outage s d = (r, d1) ->
  (d1 = d /\ r = ResultErr tt) \/ (exists a, s d = Some (a, d1) /\ r = ResultOk a).
Proof.
  unfold tryCatch. destruct outage; [intros [= <- <-]; auto |].
  destruct (s d) as [[a d']|]; intros [= <- <-]; eauto.
Qed.

Lemma existsb_false_In {A} (f : A -> bool) (l : list A) (x : A) :
  existsb f l = false -> In x l -> f x = false.
Proof.
  intros Hex Hin. destruct (f x) eqn:Hfx; [| done].
  assert (existsb f l = true) by (apply existsb_exists; eauto). congruence.
Qed.

Lemma find_none_In {A} (f : A -> bool) (l : list A) (x : A) :
  List.find f l = None -> In x l -> f x = false.
Proof. intros Hfind Hin. exact (List.find_none f l Hfind x Hin). Qed.

Lemma deleteFlows_constraints (where_ : VerificationFlow -> bool) (d : DB) :
  constraints d ->
  constraints (withVerificationFlows d (deleteRows where_ (verificationFlows d))).
Proof. intros []. split; simpl; auto; by apply deleteRows_NoDup. Qed.

Lemma updateFlowExpiry_constraints (id e : Z) (d : DB) :
  constraints d ->
  constraints (withVerificationFlows d
                 (updateRows (fun f => vf_id f =? id) (setExpiresAt e)
                             (verificationFlows d))).
Proof.
  intros []. split; auto; unfold withVerificationFlows, verificationFlows;
    by rewrite updateRows_column.
Qed.

Lemma insertFlow_constraints (createdAt e : Z) (code uuid : string) (d d' : DB) u :
  insertFlow createdAt e code uuid d = Some (u, d') ->
  constraints d -> constraints d'.
Proof.
  unfold insertFlow. destruct (existsb _ _) eqn:Hex; [discriminate |].
  intros [= _ <-] []. split; simpl; auto.
  - apply insertRow_NoDup; [done | apply nextId_fresh].
  - apply insertRow_NoDup; [done |]. simpl. intros Hin.
    apply List.in_map_iff in Hin as (f & Hf & Hin).
    apply (existsb_false_In _ _ _ Hex) in Hin.
    apply orb_false_iff in Hin as [Hin _]. apply String.eqb_neq in Hin. done.
  - apply insertRow_NoDup; [done |]. simpl. intros Hin.
    apply List.in_map_iff in Hin as (f & Hf & Hin).
    apply (existsb_false_In _ _ _ Hex) in Hin.
    apply orb_false_iff in Hin as [_ Hin]. apply String.eqb_neq in Hin. done.
Qed.

Lemma upsertDiscordUser_constraints (createdAt : Z) (did tok : string) d d' rs :
  upsertDiscordUser createdAt did tok d = Some (rs, d') ->
  constraints d -> constraints d'.
Proof.
  unfold upsertDiscordUser.
  destruct (getRow _ (discordUsers d)) as [u|] eqn:Hfind; intros [= _ <-] [].
  - split; auto; unfold withDiscordUsers, discordUsers;
      by rewrite updateRows_column.
  - split; simpl; auto.
    + apply insertRow_NoDup; [done | apply nextId_fresh].
    + apply insertRow_NoDup; [done |]. simpl. intros Hin.
      apply List.in_map_iff in Hin as (r & Hr & Hin).
      apply (find_none_In _ _ _ Hfind) in Hin.
      apply String.eqb_neq in Hin. done.
Qed.

Lemma upsertMinecraftUser_constraints (createdAt : Z) (uuid : string) d d' rs :
  upsertMinecraftUser createdAt uuid d = Some (rs, d') ->
  constraints d -> constraints d'.
Proof.
  unfold upsertMinecraftUser.
  destruct (getRow _ (minecraftUsers d)) as [u|] eqn:Hfind; intros [= _ <-] [];
    [by split |].
  split; simpl; auto.
  - apply insertRow_NoDup; [done | apply nextId_fresh].
  - apply insertRow_NoDup; [done |]. simpl. intros Hin.
    apply List.in_map_iff in Hin as (r & Hr & Hin).
    apply (find_none_In _ _ _ Hfind) in Hin.
    apply String.eqb_neq in Hin. done.
Qed.

Lemma upsertConnection_constraints (createdAt did mid : Z) d d' u :
  upsertConnection createdAt did mid d = Some (u, d') ->
  constraints d -> constraints d'.
Proof.
  unfold upsertConnection.
  destruct (getRow _ (connections d)) as [c|] eqn:Hfind;
    destruct (existsb _ _) eqn:Hex; try discriminate; intros [= _ <-] [].
  - split; auto; unfold withConnections, connections.
    + by rewrite updateRows_column.
    + apply (updateRows_NoDup cn_id discordUserID _ _ did); auto.
      intros r Hin Hid Hdid.
      apply (existsb_false_In _ _ _ Hex) in Hin.
      apply andb_false_iff in Hin as [Hin|Hin].
      * apply Z.eqb_neq in Hin. done.
      * apply negb_false_iff, Z.eqb_eq in Hin. done.
    + by rewrite updateRows_column.
  - split; simpl; auto.
    + apply insertRow_NoDup; [done | apply nextId_fresh].
    + apply insertRow_NoDup; [done |]. simpl. intros Hin.
      apply List.in_map_iff in Hin as (r & Hr & Hin).
      apply (existsb_false_In _ _ _ Hex) in Hin.
      apply Z.eqb_neq in Hin. done.
    + apply insertRow_NoDup; [done |]. simpl. intros Hin.
      apply List.in_map_iff in Hin as (r & Hr & Hin).
      apply (find_none_In _ _ _ Hfind) in Hin.
      apply Z.eqb_neq in Hin. done.
Qed.

Lemma updateRefreshToken_constraints (id : Z) (tok : string) (d : DB) :
  constraints d ->
  constraints (withDiscordUsers d
                 (updateRows (fun u => du_id u =? id)
                             (setRefreshToken (Some tok)) (discordUsers d))).
Proof.
  intros []. split; auto; unfold withDiscordUsers, discordUsers;
    by rewrite updateRows_column.
Qed.

Lemma deleteConnection_constraints (where_ : Connection -> bool) (d : DB) :
  constraints d ->
  constraints (withConnections d (deleteRows where_ (connections d))).
Proof. intros []. split; simpl; auto; by apply deleteRows_NoDup. Qed.

Lemma upsertDiscordUser_returns (createdAt : Z) (did tok : string) d rs d1 :
  upsertDiscordUser createdAt did tok d = Some (rs, d1) ->
  exists r, rs = [r]
            /\ In r (rows (discordUsers d1))
            /\ discordID r = did
            /\ discordRefreshToken r = Some tok
            /\ minecraftUsers d1 = minecraftUsers d
            /\ connections d1 = connections d
            /\ verificationFlows d1 = verificationFlows d.
Proof.
  unfold upsertDiscordUser.
  destruct (getRow _ (discordUsers d)) as [u|] eqn:Hfind; intros [= <- <-];
    eexists; (split; [reflexivity |]); simpl; repeat split.
  - apply find_some_In in Hfind as [Hin _].
    apply List.in_map_iff. exists u. by rewrite Z.eqb_refl.
  - apply find_some_In in Hfind as [_ Hid]. by apply String.eqb_eq in Hid.
  - apply in_or_app. right. by left.
Qed.

Lemma upsertMinecraftUser_returns (createdAt : Z) (uuid : string) d rs d1 :
  upsertMinecraftUser createdAt uuid d = Some (rs, d1) ->
  exists r, rs = [r]
            /\ In r (rows (minecraftUsers d1))
            /\ mu_minecraftUUID r = uuid
            /\ (In r (rows (minecraftUsers d))
                \/ forall u, In u (rows (minecraftUsers d)) -> mu_id u < mu_id r)
            /\ discordUsers d1 = discordUsers d
            /\ connections d1 = connections d
            /\ verificationFlows d1 = verificationFlows d.
Proof.
  unfold upsertMinecraftUser.
  destruct (getRow _ (minecraftUsers d)) as [u|] eqn:Hfind; intros [= <- <-];
    eexists; (split; [reflexivity |]); simpl; repeat split.
  - by apply find_some_In in Hfind as [Hin _].
  - apply find_some_In in Hfind as [_ Hid]. by apply String.eqb_eq in Hid.
  - left. by apply find_some_In in Hfind as [Hin _].
  - apply in_or_app. right. by left.
  - right. intros u Hu. by apply nextId_above.
Qed.

Lemma upsertConnection_returns (createdAt did mid : Z) d u d2 :
  upsertConnection createdAt did mid d = Some (u, d2) ->
  exists c, In c (rows (connections d2))
            /\ discordUserID c = did
            /\ minecraftUserID c = mid
            /\ cn_createdAt c = createdAt
            /\ discordUsers d2 = discordUsers d
            /\ minecraftUsers d2 = minecraftUsers d
            /\ verificationFlows d2 = verificationFlows d.
Proof.
  unfold upsertConnection.
  destruct (getRow _ (connections d)) as [c|] eqn:Hfind;
    destruct (existsb _ _); try discriminate; intros [= _ <-];
    eexists; simpl; repeat split.
  - apply find_some_In in Hfind as [Hin _].
    apply List.in_map_iff. exists c. rewrite Z.eqb_refl. split; [reflexivity | done].
  - reflexivity.
  - simpl. apply find_some_In in Hfind as [_ Hid]. by apply Z.eqb_eq in Hid.
  - reflexivity.
  - apply in_or_app. right. by left.
  - reflexivity.
  - reflexivity.
  - reflexivity.
Qed.

End StatementFacts.

(** ** What the handlers keep *)

Section HandlerInvariants.
Import Schema Datastore Discord Handlers.

Variable P : DB -> Prop.

(** A property that the flow statements keep is kept by
    [createVerificationFlow], whatever path it takes. *)
Lemma generationLoop_keeps out uuid :
  (forall d where_,
     P d -> P (withVerificationFlows d (deleteRows where_ (verificationFlows d)))) ->
  (forall d c e code u d',
     insertFlow c e code uuid d = Some (u, d') -> P d -> P d') ->
  forall left attempt d,
    P d -> P (snd (generationLoop out uuid left attempt d)).
Proof.
  intros Hdel Hins. induction left as [|left IH]; intros attempt d Hd; simpl;
    [exact Hd |].
  destruct (LinkingCode.generateLinkingCode _) as [code|]; [| exact Hd].
  destruct (tryCatch _ (selectFlowByCode code) d) as [r d1] eqn:Hsel.
  apply tryCatch_cases in Hsel as [[-> ->]|(entry & [= _ <-] & ->)];
    [exact Hd |].
  assert (Hinsert : forall d2, P d2 ->
    P (snd (let '(insertion, d3) :=
              tryCatch (outage out (FlowInsertion attempt))
                (insertFlow (now out) (now out + EXPIRY_DURATION_MS) code uuid) d2 in
            match insertion with
            | ResultErr _ => (Some (ResultErr DatabaseError), d3)
            | ResultOk _ =>
                (Some (ResultOk {| value_expiresAt := now out + EXPIRY_DURATION_MS;
                                   value_linkingCode := code |}), d3)
            end))).
  { intros d2 Hd2.
    destruct (tryCatch _ (insertFlow _ _ _ _) d2) as [r d3] eqn:Hi.
    apply tryCatch_cases in Hi as [[-> ->]|(u & Hi & ->)]; simpl; eauto. }
  destruct entry as [codeEntry|]; [| by apply Hinsert].
  destruct (now out <? expiresAt codeEntry); [by apply IH |].
  destruct (tryCatch _ (deleteFlowById _) d) as [r d2] eqn:Hdl.
  apply tryCatch_cases in Hdl as [[-> ->]|(u & [= <- <-] & ->)]; [exact Hd |].
  apply Hinsert, Hdel, Hd.
Qed.

Lemma createVerificationFlow_keeps env out params d :
  (forall d id e,
     P d -> P (withVerificationFlows d
                 (updateRows (fun f => vf_id f =? id) (setExpiresAt e)
                             (verificationFlows d)))) ->
  (forall d where_,
     P d -> P (withVerificationFlows d (deleteRows where_ (verificationFlows d)))) ->
  (forall d c e code uuid u d',
     insertFlow c e code uuid d = Some (u, d') -> P d -> P d') ->
  P d -> P (snd (createVerificationFlow env out params d)).
Proof.
  intros Hupd Hdel Hins Hd. unfold createVerificationFlow.
  destruct (negb _); [exact Hd |].
  destruct (tryCatch _ (selectFlowByUUIDUnexpired _ _) d) as [r d1] eqn:Hsel.
  apply tryCatch_cases in Hsel as [[-> ->]|(existing & [= _ <-] & ->)];
    [exact Hd |].
  destruct existing as [flow|].
  - destruct (tryCatch _ (updateFlowExpiry _ _) d) as [r d2] eqn:Hu.
    apply tryCatch_cases in Hu as [[-> ->]|(u & [= <- <-] & ->)]; simpl; auto.
  - destruct (tryCatch _ (deleteFlowsByUUID _) d) as [r d2] eqn:Hdl.
    apply tryCatch_cases in Hdl as [[-> ->]|(u & [= <- <-] & ->)]; [exact Hd |].
    apply generationLoop_keeps; eauto.
Qed.

Lemma linkDiscordAccount_keeps env out params d :
  (forall d c did tok rs d',
     upsertDiscordUser c did tok d = Some (rs, d') -> P d -> P d') ->
  (forall d c uuid rs d',
     upsertMinecraftUser c uuid d = Some (rs, d') -> P d -> P d') ->
  (forall d c du mu u d',
     In du (rows (discordUsers d)) -> In mu (rows (minecraftUsers d)) ->
     upsertConnection c (du_id du) (mu_id mu) d = Some (u, d') -> P d -> P d') ->
  (forall d where_,
     P d -> P (withVerificationFlows d (deleteRows where_ (verificationFlows d)))) ->
  P d -> P (snd (linkDiscordAccount env out params d)).
Proof.
  intros Hdu Hmu Hcn Hdel Hd. unfold linkDiscordAccount.
  destruct (decodeOAuthState _ _) as [state|]; [| exact Hd].
  destruct (tryCatch _ (selectFlowByCodeUnexpired _ _) d) as [r d1] eqn:Hsel.
  apply tryCatch_cases in Hsel as [[-> ->]|(found & [= _ <-] & ->)];
    [exact Hd |].
  destruct found as [flow|]; [| exact Hd].
  destruct (tokenWithCode _ _) as [token|e];
    [| by destruct (isCode e invalid_code)].
  destruct (userData _ _) as [discordUser|]; [| exact Hd].
  destruct (userGuildsData _ _) as [guilds|]; [| exact Hd].
  destruct (negb _); [exact Hd |].
  destruct (tryCatch _ (batch _ _) d) as [r d1] eqn:Hb1.
  apply tryCatch_cases in Hb1 as [[-> ->]|([rs1 rs2] & Hb1 & ->)]; [exact Hd |].
  assert (Hd1 : P d1).
  { unfold batch in Hb1.
    destruct (upsertDiscordUser _ _ _ d) as [[a da]|] eqn:H1; [| discriminate].
    destruct (upsertMinecraftUser _ _ da) as [[b db]|] eqn:H2; [| discriminate].
    injection Hb1 as _ _ <-. eauto. }
  assert (Hrs1 : forall r, head rs1 = Some r -> In r (rows (discordUsers d1))).
  { unfold batch in Hb1.
    destruct (upsertDiscordUser _ _ _ d) as [[a da]|] eqn:H1; [| discriminate].
    destruct (upsertMinecraftUser _ _ da) as [[b db]|] eqn:H2; [| discriminate].
    injection Hb1 as <- _ <-.
    apply upsertDiscordUser_returns in H1 as (r0 & -> & Hin & _).
    apply upsertMinecraftUser_returns in H2 as (m0 & _ & _ & _ & _ & -> & _).
    by intros r [= <-]. }
  assert (Hrs2 : forall m, head rs2 = Some m -> In m (rows (minecraftUsers d1))).
  { unfold batch in Hb1.
    destruct (upsertDiscordUser _ _ _ d) as [[a da]|] eqn:H1; [| discriminate].
    destruct (upsertMinecraftUser _ _ da) as [[b db]|] eqn:H2; [| discriminate].
    injection Hb1 as _ <- <-.
    apply upsertMinecraftUser_returns in H2 as (m0 & -> & Hin & _).
    by intros m [= <-]. }
  destruct (head rs1) as [discordRecord|]; [| exact Hd1].
  destruct (head rs2) as [minecraftRecord|]; [| exact Hd1].
  destruct (tryCatch _ (batch _ _) d1) as [r d2] eqn:Hb2.
  apply tryCatch_cases in Hb2 as [[-> ->]|([u1 u2] & Hb2 & ->)]; [exact Hd1 |].
  unfold batch in Hb2.
  destruct (upsertConnection _ _ _ d1) as [[a da]|] eqn:H1; [| discriminate].
  unfold deleteFlowById, exec in Hb2. injection Hb2 as _ _ <-. simpl.
  apply Hdel. eapply Hcn; eauto.
Qed.

Lemma verifyConnection_keeps env out params d :
  (forall d id tok,
     P d -> P (withDiscordUsers d
                 (updateRows (fun u => du_id u =? id)
                             (setRefreshToken (Some tok)) (discordUsers d)))) ->
  (forall d where_,
     P d -> P (withConnections d (deleteRows where_ (connections d)))) ->
  P d -> P (snd (verifyConnection env out params d)).
Proof.
  intros Hupd Hdel Hd. unfold verifyConnection.
  destruct (negb _); [exact Hd |].
  destruct (tryCatch _ (selectMinecraftUserByUUID _) d) as [r d1] eqn:H1.
  apply tryCatch_cases in H1 as [[-> ->]|(found & [= _ <-] & ->)]; [exact Hd |].
  destruct found as [minecraftUser|]; [| exact Hd].
  destruct (tryCatch _ (selectConnectionByMinecraftUser _) d) as [r d1] eqn:H2.
  apply tryCatch_cases in H2 as [[-> ->]|(found & [= _ <-] & ->)]; [exact Hd |].
  destruct found as [connection|]; [| exact Hd].
  destruct (tryCatch _ (selectDiscordUserById _) d) as [r d1] eqn:H3.
  apply tryCatch_cases in H3 as [[-> ->]|(found & [= _ <-] & ->)]; [exact Hd |].
  destruct found as [discordUser|]; [| exact Hd].
  destruct (discordRefreshToken discordUser) as [[|c s]|]; try exact Hd.
  destruct (tokenWithRefreshToken _ _) as [token|e];
    [| by destruct (isCode e invalid_auth)].
  destruct (tryCatch _ (updateRefreshToken _ _) d) as [r d1] eqn:H4.
  apply tryCatch_cases in H4 as [[-> ->]|(u & [= <- <-] & ->)]; [exact Hd |].
  destruct (userGuildsData _ _) as [guilds|e];
    [| destruct (isCode e invalid_auth); simpl; auto].
  destruct (negb _); [| simpl; auto].
  destruct (tryCatch _ (deleteConnectionById _) _) as [r d2] eqn:H5.
  apply tryCatch_cases in H5 as [[-> ->]|(u & [= <- <-] & ->)]; [simpl; auto |].
  exact (Hdel _ _ (Hupd _ _ _ Hd)).
Qed.

End HandlerInvariants.

Section HandlerTheorems.
Import Schema Datastore Discord Handlers.

(** X1.  [createVerificationFlow] keeps the uniqueness constraints of the
    schema, on every path and whatever calls fail. *)
Theorem createVerificationFlow_keeps_constraints env out params d :
  constraints d -> constraints (snd (createVerificationFlow env out params d)).
Proof.
  apply createVerificationFlow_keeps.
  - intros. by apply updateFlowExpiry_constraints.
  - intros. by apply deleteFlows_constraints.
  - intros. by eapply insertFlow_constraints.
Qed.

Lemma createVerificationFlow_keeps_constraints_witness :
  constraints (snd (createVerificationFlow Sample.env
                      (Sample.outside 10000 Sample.inGuild)
                      Sample.flowParamsM2 Sample.linkedDB)).
Proof.
  exact (createVerificationFlow_keeps_constraints _ _ _ _ linkedDB_constraints).
Defined.

(** X2.  [linkDiscordAccount] keeps the uniqueness constraints of the
    schema, on every path and whatever calls fail. *)
Theorem linkDiscordAccount_keeps_constraints env out params d :
  constraints d -> constraints (snd (linkDiscordAccount env out params d)).
Proof.
  apply linkDiscordAccount_keeps.
  - intros. by eapply upsertDiscordUser_constraints.
  - intros. by eapply upsertMinecraftUser_constraints.
  - intros. by eapply upsertConnection_constraints.
  - intros. by apply deleteFlows_constraints.
Qed.

Lemma linkDiscordAccount_keeps_constraints_witness :
  constraints (snd (linkDiscordAccount Sample.env
                      (Sample.outside 1000 Sample.inGuild)
                      Sample.linkParams Sample.linkedDB)).
Proof.
  exact (linkDiscordAccount_keeps_constraints _ _ _ _ linkedDB_constraints).
Defined.

(** X3.  [verifyConnection] keeps the uniqueness constraints of the
    schema, on every path and whatever calls fail. *)
Theorem verifyConnection_keeps_constraints env out params d :
  constraints d -> constraints (snd (verifyConnection env out params d)).
Proof.
  apply verifyConnection_keeps.
  - intros. by apply updateRefreshToken_constraints.
  - intros. by apply deleteConnection_constraints.
Qed.

Lemma verifyConnection_keeps_constraints_witness :
  constraints (snd (verifyConnection Sample.env
                      (Sample.outside 1000 Sample.notInGuild)
                      Sample.verifyM1 Sample.linkedDB)).
Proof.
  exact (verifyConnection_keeps_constraints _ _ _ _ linkedDB_constraints).
Defined.

(** X4.  [createVerificationFlow] writes the flow table only: the Discord
    users, the Minecraft users and the connections come back as they
    were, on every path. *)
Theorem createVerificationFlow_writes_flows_only env out params d :
  let d' := snd (createVerificationFlow env out params d) in
  discordUsers d' = discordUsers d
  /\ minecraftUsers d' = minecraftUsers d
  /\ connections d' = connections d.
Proof.
  apply (createVerificationFlow_keeps
           (fun d' => discordUsers d' = discordUsers d
                      /\ minecraftUsers d' = minecraftUsers d
                      /\ connections d' = connections d)); auto.
  intros d1 c e code uuid u d2. unfold insertFlow.
  destruct (existsb _ _); [discriminate |]. by intros [= _ <-].
Qed.

(** X5.  [verifyConnection] never touches the Minecraft users or the
    flows, never adds or alters a connection (it can only delete), and
    changes nothing of a Discord user but the stored refresh token. *)
Theorem verifyConnection_writes env out params d :
  let d' := snd (verifyConnection env out params d) in
  minecraftUsers d' = minecraftUsers d
  /\ verificationFlows d' = verificationFlows d
  /\ (forall c, In c (rows (connections d')) -> In c (rows (connections d)))
  /\ map (fun u => (du_id u, discordID u, du_createdAt u)) (rows (discordUsers d'))
     = map (fun u => (du_id u, discordID u, du_createdAt u)) (rows (discordUsers d)).
Proof.
  apply (verifyConnection_keeps
           (fun d' =>
              minecraftUsers d' = minecraftUsers d
              /\ verificationFlows d' = verificationFlows d
              /\ (forall c, In c (rows (connections d')) -> In c (rows (connections d)))
              /\ map (fun u => (du_id u, discordID u, du_createdAt u))
                     (rows (discordUsers d'))
                 = map (fun u => (du_id u, discordID u, du_createdAt u))
                       (rows (discordUsers d)))).
  - intros d1 id tok (Hmu & Hvf & Hcn & Hdu). repeat split; auto.
    unfold withDiscordUsers, discordUsers at 1. by rewrite updateRows_column.
  - intros d1 where_ (Hmu & Hvf & Hcn & Hdu). repeat split; auto.
    simpl. intros c Hc. apply filter_In in Hc as [Hc _]. auto.
  - auto.
Qed.

(** X6.  [linkDiscordAccount] never removes an identity: every Discord id
    and every Minecraft user row of the database is still there afterwards.
    It never removes a connection, and it never adds a flow. *)
Theorem linkDiscordAccount_keeps_identities env out params d :
  let d' := snd (linkDiscordAccount env out params d) in
  (forall id, In id (map discordID (rows (discordUsers d))) ->
              In id (map discordID (rows (discordUsers d'))))
  /\ (forall u, In u (rows (minecraftUsers d)) -> In u (rows (minecraftUsers d')))
  /\ (length (rows (connections d)) <= length (rows (connections d')))%nat
  /\ (forall f, In f (rows (verificationFlows d')) ->
                In f (rows (verificationFlows d))).
Proof.
  apply (linkDiscordAccount_keeps
           (fun d' =>
              (forall id, In id (map discordID (rows (discordUsers d))) ->
                          In id (map discordID (rows (discordUsers d'))))
              /\ (forall u, In u (rows (minecraftUsers d)) ->
                            In u (rows (minecraftUsers d')))
              /\ (length (rows (connections d)) <= length (rows (connections d')))%nat
              /\ (forall f, In f (rows (verificationFlows d')) ->
                            In f (rows (verificationFlows d))))).
  - intros d1 c did tok rs d2. unfold upsertDiscordUser.
    destruct (getRow _ _); intros [= _ <-] (Hdu & Hmu & Hcn & Hvf);
      repeat split; auto; intros id Hid; apply Hdu in Hid.
    + unfold withDiscordUsers, discordUsers. by rewrite updateRows_column.
    + simpl. rewrite map_app. apply in_or_app. by left.
  - intros d1 c uuid rs d2. unfold upsertMinecraftUser.
    destruct (getRow _ _); intros [= _ <-] (Hdu & Hmu & Hcn & Hvf);
      repeat split; auto.
    intros u Hu. simpl. apply in_or_app. left. auto.
  - intros d1 c du mu u d2 _ _. unfold upsertConnection.
    destruct (getRow _ _); destruct (existsb _ _); try discriminate;
      intros [= _ <-] (Hdu & Hmu & Hcn & Hvf); repeat split; auto; simpl.
    + by rewrite length_map.
    + rewrite length_app. simpl. lia.
  - intros d1 where_ (Hdu & Hmu & Hcn & Hvf). repeat split; auto.
    simpl. intros f Hf. apply filter_In in Hf as [Hf _]. auto.
  - repeat split; auto.
Qed.

End HandlerTheorems.

(** ** Code generation in createVerificationFlow *)

Section GenerationFacts.
Import Schema Datastore Discord Handlers Vocabulary.

(** Under UNIQUE(linkingCode) the row that the uniqueness check reads
    decides whether the code is taken by a live flow. *)
Lemma liveCollision_getRow (d : DB) (now_ : Z) (code : string) :
  NoDup (map linkingCode (rows (verificationFlows d))) ->
  liveCollision d now_ code
  = match getRow (fun f => String.eqb (linkingCode f) code) (verificationFlows d) with
    | Some entry => now_ <? expiresAt entry
    | None => false
    end.
Proof.
  intros Hnd. unfold liveCollision, getRow.
  destruct (List.find _ _) as [entry|] eqn:Hfind.
  - apply find_some_In in Hfind as [Hin Hcode].
    destruct (now_ <? expiresAt entry) eqn:Hlive.
    + apply existsb_exists. exists entry. by rewrite Hcode, Hlive.
    + destruct (existsb _ _) eqn:Hex; [| done].
      apply existsb_exists in Hex as (f & Hf & Hp).
      apply andb_true_iff in Hp as [Hfc Hfl].
      apply String.eqb_eq in Hfc, Hcode.
      assert (f = entry) by
        (apply (unique_key_row linkingCode (rows (verificationFlows d)));
         auto; congruence).
      congruence.
  - destruct (existsb _ _) eqn:Hex; [| done].
    apply existsb_exists in Hex as (f & Hf & Hp).
    apply andb_true_iff in Hp as [Hfc _].
    by rewrite (find_none_In _ _ _ Hfind Hf) in Hfc.
Qed.

Lemma insertFlow_succeeds (createdAt e : Z) (code uuid : string) (d : DB) :
  (forall f, In f (rows (verificationFlows d)) ->
             linkingCode f <> code /\ vf_minecraftUUID f <> uuid) ->
  exists d', insertFlow createdAt e code uuid d = Some (tt, d').
Proof.
  intros Hfree. unfold insertFlow.
  destruct (existsb _ _) eqn:Hex; [| eauto].
  apply existsb_exists in Hex as (f & Hf & Hp).
  destruct (Hfree f Hf) as [Hc Hu].
  apply orb_true_iff in Hp as [Hp|Hp]; apply String.eqb_eq in Hp; done.
Qed.

(** With the datastore reachable, the loop returns the first code that no
    live flow holds, and gives up when all the codes it draws are held by
    live flows. *)
Lemma generationLoop_outcome out uuid (codes : nat -> string) :
  (forall call, outage out call = false) ->
  forall left attempt d,
    constraints d ->
    (forall f, In f (rows (verificationFlows d)) -> vf_minecraftUUID f <> uuid) ->
    (forall a, (attempt <= a < attempt + left)%nat ->
               LinkingCode.generateLinkingCode (randomFills out a) = Some (codes a)) ->
    match List.find (fun a => negb (liveCollision d (now out) (codes a)))
                    (seq attempt left) with
    | Some a =>
        fst (generationLoop out uuid left attempt d)
        = Some (ResultOk {| value_expiresAt := now out + EXPIRY_DURATION_MS;
                            value_linkingCode := codes a |})
    | None =>
        generationLoop out uuid left attempt d
        = (Some (ResultErr CodeGenerationFailed), d)
    end.
Proof.
  intros Hup. induction left as [|left IH]; intros attempt d Hc Hnone Hgen;
    simpl; [reflexivity |].
  rewrite (Hgen attempt) by lia.
  rewrite (liveCollision_getRow d) by apply Hc.
  unfold tryCatch. rewrite !Hup. unfold selectFlowByCode, query.
  destruct (getRow _ (verificationFlows d)) as [codeEntry|] eqn:Hfind.
  - destruct (now out <? expiresAt codeEntry) eqn:Hlive; simpl.
    + apply IH; auto. intros a Ha. apply Hgen. lia.
    + unfold deleteFlowById, exec.
      destruct (insertFlow_succeeds (now out) (now out + EXPIRY_DURATION_MS)
                  (codes attempt) uuid
                  (withVerificationFlows d
                     (deleteRows (fun f => vf_id f =? vf_id codeEntry)
                                 (verificationFlows d)))) as [d' ->];
        [| reflexivity].
      simpl. intros f Hf. apply filter_In in Hf as [Hf Hid]. split; auto.
      intros Hcode. apply find_some_In in Hfind as [Hin Hec].
      apply String.eqb_eq in Hec.
      assert (f = codeEntry) by
        (apply (unique_key_row linkingCode (rows (verificationFlows d)));
         auto using vf_unique_code; congruence).
      subst f. by rewrite Z.eqb_refl in Hid.
  - simpl.
    destruct (insertFlow_succeeds (now out) (now out + EXPIRY_DURATION_MS)
                (codes attempt) uuid d) as [d' ->]; [| reflexivity].
    intros f Hf. split; auto. intros Hcode.
    pose proof (find_none_In _ _ _ Hfind Hf) as Hne.
    apply String.eqb_neq in Hne. done.
Qed.

Lemma find_ext_eq {A} (p q : A -> bool) (l : list A) :
  (forall x, p x = q x) -> List.find p l = List.find q l.
Proof.
  intros H. induction l as [|a l IH]; simpl; [done |]. by rewrite H, IH.
Qed.

Lemma existsb_filter_same {A} (p q : A -> bool) (l : list A) :
  (forall x, In x l -> q x = false -> p x = false) ->
  existsb p (List.filter q l) = existsb p l.
Proof.
  induction l as [|a l IH]; simpl; [done |]. intros H.
  destruct (q a) eqn:Hq; simpl.
  - f_equal. apply IH. auto.
  - rewrite (H a) by auto. simpl. apply IH. auto.
Qed.

(** X7.  With a valid secret, a reachable datastore and no unexpired flow
    for the UUID, [createVerificationFlow] returns the first of its (at most
    five) generated codes that no live flow holds; that code then belongs
    to the UUID alone, so an expired flow that held it is gone.  When all
    five codes are held by live flows the answer is [CodeGenerationFailed]
    and only the UUID's own expired rows were removed. *)
Theorem createVerificationFlow_generation env out params d (codes : nat -> string) :
  constraints d ->
  compare env (fp_sharedSecret params) = true ->
  (forall call, outage out call = false) ->
  getRow (fun f => String.eqb (vf_minecraftUUID f) (fp_minecraftUUID params)
                   && (now out <? expiresAt f))
         (verificationFlows d) = None ->
  (forall a, (a < 5)%nat ->
             LinkingCode.generateLinkingCode (randomFills out a) = Some (codes a)) ->
  let run := createVerificationFlow env out params d in
  match List.find (fun a => negb (liveCollision d (now out) (codes a))) (seq 0 5) with
  | Some a =>
      fst run = Some (ResultOk {| value_expiresAt := now out + 15 * 60 * 1000;
                                  value_linkingCode := codes a |})
      /\ forall f, In f (rows (verificationFlows (snd run))) ->
                   linkingCode f = codes a ->
                   vf_minecraftUUID f = fp_minecraftUUID params
                   /\ expiresAt f = now out + 15 * 60 * 1000
  | None =>
      run = (Some (ResultErr CodeGenerationFailed),
             withVerificationFlows d
               (deleteRows (fun f => String.eqb (vf_minecraftUUID f)
                                                (fp_minecraftUUID params))
                           (verificationFlows d)))
  end.
Proof.
  intros Hc Hsecret Hup Hnoflow Hgen run.
  set (d0 := withVerificationFlows d
               (deleteRows (fun f => String.eqb (vf_minecraftUUID f)
                                                (fp_minecraftUUID params))
                           (verificationFlows d))).
  assert (Hrun : run = generationLoop out (fp_minecraftUUID params) 5 0 d0).
  { subst run. unfold createVerificationFlow, tryCatch.
    rewrite Hsecret, !Hup. simpl negb. cbv iota.
    unfold selectFlowByUUIDUnexpired, query. rewrite Hnoflow.
    reflexivity. }
  assert (Hlive : forall code,
            liveCollision d0 (now out) code = liveCollision d (now out) code).
  { intros code. unfold liveCollision. simpl.
    apply (existsb_filter_same _ (fun r => negb _)).
    intros f Hf Hq. apply negb_false_iff in Hq.
    pose proof (find_none_In _ _ _ Hnoflow Hf) as Hdead. simpl in Hdead.
    rewrite Hq in Hdead. simpl in Hdead. rewrite Hdead. apply andb_false_r. }
  pose proof (generationLoop_outcome out (fp_minecraftUUID params) codes Hup
                5 0 d0) as Hloop.
  assert (Hc0 : constraints d0) by by apply deleteFlows_constraints.
  specialize (Hloop Hc0).
  rewrite (find_ext_eq _ (fun a => negb (liveCollision d (now out) (codes a))))
    in Hloop by (intros a; by rewrite Hlive).
  destruct (List.find _ (seq 0 5)) as [a|].
  - assert (Hfst : fst run
                   = Some (ResultOk {| value_expiresAt := now out + 15 * 60 * 1000;
                                       value_linkingCode := codes a |})).
    { rewrite Hrun. apply Hloop.
      - simpl. intros f Hf. apply filter_In in Hf as [_ Hf].
        by apply negb_true_iff, String.eqb_neq in Hf.
      - intros b Hb. apply Hgen. lia. }
    split; [exact Hfst |].
    intros f Hf Hcode.
    destruct (createVerificationFlow_success env out params d
                {| value_expiresAt := now out + 15 * 60 * 1000;
                   value_linkingCode := codes a |} (snd run)
                (vf_unique_uuid _ Hc))
      as (_ & _ & g & Hg & Hgu & Hgc & Hge).
    { fold run. rewrite <- Hfst. apply surjective_pairing. }
    simpl in Hgc, Hge.
    assert (f = g).
    { apply (unique_key_row linkingCode (rows (verificationFlows (snd run))));
        auto; [| congruence].
      apply vf_unique_code. subst run.
      apply createVerificationFlow_keeps; auto; intros.
      - by apply updateFlowExpiry_constraints.
      - by apply deleteFlows_constraints.
      - by eapply insertFlow_constraints. }
    subst f. split; assumption.
  - rewrite Hrun. apply Hloop.
    + simpl. intros f Hf. apply filter_In in Hf as [_ Hf].
      by apply negb_true_iff, String.eqb_neq in Hf.
    + intros b Hb. apply Hgen. lia.
Qed.

End GenerationFacts.

(** ** What a link and a verification leave behind *)

Section LinkOutcome.
Import Schema Datastore Discord Handlers.

Lemma constraints_after_link env out params d :
  constraints d -> constraints (snd (linkDiscordAccount env out params d)).
Proof.
  apply linkDiscordAccount_keeps.
  - intros. by eapply upsertDiscordUser_constraints.
  - intros. by eapply upsertMinecraftUser_constraints.
  - intros. by eapply upsertConnection_constraints.
  - intros. by apply deleteFlows_constraints.
Qed.

(** The rows a successful [linkDiscordAccount] has read and written. *)
Lemma linkDiscordAccount_rows env out params d v d' :
  linkDiscordAccount env out params d = (ResultOk v, d') ->
  exists state flow token discordUser guilds discordRecord minecraftRecord connection,
    decodeOAuthState out (lp_state params) = Some state
    /\ getRow (fun f => String.eqb (linkingCode f) (st_linkingCode state)
                        && (now out <? expiresAt f)) (verificationFlows d)
       = Some flow
    /\ tokenWithCode out (lp_code params) = ResultOk token
    /\ userData out (accessToken token) = ResultOk discordUser
    /\ userGuildsData out (accessToken token) = ResultOk guilds
    /\ isMember env guilds = true
    /\ discordUsername v = username discordUser
    /\ In discordRecord (rows (discordUsers d'))
    /\ discordID discordRecord = user_id discordUser
    /\ discordRefreshToken discordRecord = Some (refreshToken token)
    /\ In minecraftRecord (rows (minecraftUsers d'))
    /\ mu_minecraftUUID minecraftRecord = vf_minecraftUUID flow
    /\ In connection (rows (connections d'))
    /\ discordUserID connection = du_id discordRecord
    /\ minecraftUserID connection = mu_id minecraftRecord
    /\ cn_createdAt connection = now out
    /\ verificationFlows d'
       = deleteRows (fun f => vf_id f =? vf_id flow) (verificationFlows d).
Proof.
  intros Hrun. unfold linkDiscordAccount in Hrun.
  destruct (decodeOAuthState out (lp_state params)) as [state|] eqn:Hstate;
    [| discriminate].
  destruct (tryCatch _ (selectFlowByCodeUnexpired _ _) d) as [r d0] eqn:Hsel.
  apply tryCatch_cases in Hsel as [[-> ->]|(found & [= <- <-] & ->)];
    [discriminate |].
  destruct (getRow _ (verificationFlows d)) as [flow|] eqn:Hflow; [| discriminate].
  destruct (tokenWithCode out (lp_code params)) as [token|e] eqn:Htoken;
    [| destruct (isCode e invalid_code); discriminate].
  destruct (userData out (accessToken token)) as [discordUser|] eqn:Huser;
    [| discriminate].
  destruct (userGuildsData out (accessToken token)) as [guilds|] eqn:Hguilds;
    [| discriminate].
  destruct (isMember env guilds) eqn:Hmember; [| discriminate]. simpl in Hrun.
  destruct (tryCatch _ (batch _ _) d) as [r d1] eqn:Hb1.
  apply tryCatch_cases in Hb1 as [[-> ->]|([rs1 rs2] & Hb1 & ->)]; [discriminate |].
  unfold batch in Hb1.
  destruct (upsertDiscordUser _ _ _ d) as [[a da]|] eqn:H1; [| discriminate].
  destruct (upsertMinecraftUser _ _ da) as [[b db]|] eqn:H2; [| discriminate].
  injection Hb1 as <- <- <-.
  apply upsertDiscordUser_returns in H1
    as (discordRecord & -> & Hdr & Hdid & Hdtok & Hmu1 & Hcn1 & Hvf1).
  apply upsertMinecraftUser_returns in H2
    as (minecraftRecord & -> & Hmr & Hmuuid & _ & Hdu2 & Hcn2 & Hvf2).
  simpl in Hrun.
  destruct (tryCatch _ (batch _ _) db) as [r d2] eqn:Hb2.
  apply tryCatch_cases in Hb2 as [[-> ->]|([u1 u2] & Hb2 & ->)]; [discriminate |].
  injection Hrun as <- <-.
  unfold batch in Hb2.
  destruct (upsertConnection _ _ _ db) as [[u dc]|] eqn:H3; [| discriminate].
  unfold deleteFlowById, exec in Hb2. injection Hb2 as _ _ <-.
  apply upsertConnection_returns in H3
    as (connection & Hcr & Hcdid & Hcmid & Hcat & Hdu3 & Hmu3 & Hvf3).
  exists state, flow, token, discordUser, guilds, discordRecord, minecraftRecord,
    connection.
  simpl. rewrite Hdu3, Hmu3, Hvf3, Hdu2, Hvf2, Hvf1.
  repeat split; auto.
Qed.

(** X8.  After a successful [linkDiscordAccount] the database holds the
    Discord user with the new refresh token, the Minecraft user of the
    flow, and a connection between the two created at [now]; that
    connection is the only one of either of them, and the linking code no
    longer resolves to a flow. *)
Theorem linkDiscordAccount_success env out params d v d' :
  constraints d ->
  linkDiscordAccount env out params d = (ResultOk v, d') ->
  exists state flow token discordUser discordRecord minecraftRecord connection,
    decodeOAuthState out (lp_state params) = Some state
    /\ In flow (rows (verificationFlows d))
    /\ linkingCode flow = st_linkingCode state
    /\ now out < expiresAt flow
    /\ tokenWithCode out (lp_code params) = ResultOk token
    /\ userData out (accessToken token) = ResultOk discordUser
    /\ discordUsername v = username discordUser
    /\ In discordRecord (rows (discordUsers d'))
    /\ discordID discordRecord = user_id discordUser
    /\ discordRefreshToken discordRecord = Some (refreshToken token)
    /\ In minecraftRecord (rows (minecraftUsers d'))
    /\ mu_minecraftUUID minecraftRecord = vf_minecraftUUID flow
    /\ In connection (rows (connections d'))
    /\ discordUserID connection = du_id discordRecord
    /\ minecraftUserID connection = mu_id minecraftRecord
    /\ cn_createdAt connection = now out
    /\ (forall c, In c (rows (connections d')) ->
                  minecraftUserID c = mu_id minecraftRecord
                  \/ discordUserID c = du_id discordRecord ->
                  c = connection)
    /\ getRow (fun f => String.eqb (linkingCode f) (st_linkingCode state))
              (verificationFlows d') = None.
Proof.
  intros Hc Hrun.
  pose proof (constraints_after_link env out params d Hc) as Hc'.
  rewrite Hrun in Hc'. simpl in Hc'.
  destruct (linkDiscordAccount_rows _ _ _ _ _ _ Hrun)
    as (state & flow & token & discordUser & guilds & discordRecord
        & minecraftRecord & connection & Hstate & Hflow & Htoken & Huser
        & _ & _ & Hname & Hdr & Hdid & Hdtok & Hmr & Hmuuid & Hcr & Hcdid
        & Hcmid & Hcat & Hvf).
  apply find_some_In in Hflow as [Hfin Hfsel].
  apply andb_true_iff in Hfsel as [Hfcode Hflive].
  apply String.eqb_eq in Hfcode. apply Z.ltb_lt in Hflive.
  exists state, flow, token, discordUser, discordRecord, minecraftRecord, connection.
  repeat split; auto.
  - intros c Hin [Hm|Hd].
    + apply (unique_key_row minecraftUserID (rows (connections d'))); auto.
      * apply (cn_unique_minecraft _ Hc').
      * congruence.
    + apply (unique_key_row discordUserID (rows (connections d'))); auto.
      * apply (cn_unique_discord _ Hc').
      * congruence.
  - rewrite Hvf. apply find_after_delete. intros y Hy Hsel.
    apply String.eqb_eq in Hsel. apply Z.eqb_eq. f_equal.
    apply (unique_key_row linkingCode (rows (verificationFlows d)));
      auto using vf_unique_code. congruence.
Qed.

(** X9.  A Discord account that is connected to one Minecraft account
    cannot be moved to another: when the flow belongs to a different
    Minecraft UUID, [linkDiscordAccount] answers [DatabaseError] (the
    connection upsert violates UNIQUE(discordUserID)) and the existing
    connection stays as it was. *)
Theorem linkDiscordAccount_never_moves
  env out params d state flow token discordUser guilds du c mu :
  constraints d ->
  decodeOAuthState out (lp_state params) = Some state ->
  outage out FlowLookup = false ->
  getRow (fun f => String.eqb (linkingCode f) (st_linkingCode state)
                   && (now out <? expiresAt f))
         (verificationFlows d) = Some flow ->
  tokenWithCode out (lp_code params) = ResultOk token ->
  userData out (accessToken token) = ResultOk discordUser ->
  userGuildsData out (accessToken token) = ResultOk guilds ->
  isMember env guilds = true ->
  In du (rows (discordUsers d)) -> discordID du = user_id discordUser ->
  In c (rows (connections d)) -> discordUserID c = du_id du ->
  In mu (rows (minecraftUsers d)) -> mu_id mu = minecraftUserID c ->
  mu_minecraftUUID mu <> vf_minecraftUUID flow ->
  fst (linkDiscordAccount env out params d) = ResultErr DatabaseError
  /\ connections (snd (linkDiscordAccount env out params d)) = connections d.
Proof.
  intros Hc Hstate Hlookup Hflow Htoken Huser Hguilds Hmember
         Hdu Hdid Hcn Hcdid Hmu Hmid Huuid.
  assert (Hrun : exists d1,
            linkDiscordAccount env out params d = (ResultErr DatabaseError, d1)
            /\ connections d1 = connections d).
  2: { destruct Hrun as (d1 & -> & Hd1). by split. }
  unfold linkDiscordAccount, tryCatch.
  rewrite Hstate, Hlookup. unfold selectFlowByCodeUnexpired, query.
  rewrite Hflow, Htoken, Huser, Hguilds, Hmember. simpl negb. cbv iota.
  destruct (outage out UserUpsertBatch); [by eexists |].
  unfold batch.
  assert (Hfind : getRow (fun u => String.eqb (discordID u) (user_id discordUser))
                         (discordUsers d) = Some du).
  { apply (find_unique_key discordID); auto using du_unique_discordID.
    - by apply String.eqb_eq.
    - intros y _ Hy. apply String.eqb_eq in Hy. congruence. }
  unfold upsertDiscordUser. rewrite Hfind. cbv beta iota zeta.
  set (da := withDiscordUsers d _).
  destruct (upsertMinecraftUser (now out) (vf_minecraftUUID flow) da)
    as [[rs2 db]|] eqn:H2; [| by eexists].
  apply upsertMinecraftUser_returns in H2
    as (minecraftRecord & -> & _ & Hruuid & Hrid & _ & Hcn2 & _).
  assert (Hne : mu_id minecraftRecord <> minecraftUserID c).
  { rewrite <- Hmid. destruct Hrid as [Hin|Hnew].
    - intros Heq. apply Huuid. rewrite <- Hruuid. f_equal. symmetry.
      apply (unique_key_row mu_id (rows (minecraftUsers d)));
        auto using mu_pk.
    - specialize (Hnew mu Hmu). lia. }
  assert (Hfail : upsertConnection (now out)
                    (du_id (setRefreshToken (Some (refreshToken token)) du))
                    (mu_id minecraftRecord) db = None).
  { unfold upsertConnection. rewrite Hcn2. subst da. simpl connections. simpl du_id.
    destruct (getRow _ (connections d)) as [c'|] eqn:Hc'.
    - apply find_some_In in Hc' as [Hin' Hsel]. apply Z.eqb_eq in Hsel.
      replace (existsb _ _) with true; [done |]. symmetry.
      apply existsb_exists. exists c. split; [exact Hcn |].
      apply andb_true_iff. split; [by apply Z.eqb_eq |].
      apply negb_true_iff, Z.eqb_neq. intros Hid. apply Hne.
      rewrite <- Hsel. f_equal.
      apply (unique_key_row cn_id (rows (connections d))); auto using cn_pk.
    - replace (existsb _ _) with true; [done |]. symmetry.
      apply existsb_exists. exists c. split; [exact Hcn |]. by apply Z.eqb_eq. }
  assert (Hcnb : connections db = connections d) by by rewrite Hcn2.
  change (head [?x]) with (Some x). cbv iota.
  destruct (outage out ConnectionBatch); [by eexists |].
  rewrite Hfail. by eexists.
Qed.

(** X10.  A successful [verifyConnection] has found the Minecraft user,
    its connection and the connected Discord user, has refreshed that
    user's token, and has seen the configured guild in the membership list;
    it writes the new refresh token into that user's row and changes
    nothing else. *)
Theorem verifyConnection_success env out params d d' :
  verifyConnection env out params d = (ResultOk tt, d') ->
  exists minecraftUser connection discordUser stored token guilds,
    In minecraftUser (rows (minecraftUsers d))
    /\ mu_minecraftUUID minecraftUser = vp_minecraftUUID params
    /\ In connection (rows (connections d))
    /\ minecraftUserID connection = mu_id minecraftUser
    /\ In discordUser (rows (discordUsers d))
    /\ du_id discordUser = discordUserID connection
    /\ discordRefreshToken discordUser = Some stored
    /\ tokenWithRefreshToken out stored = ResultOk token
    /\ userGuildsData out (accessToken token) = ResultOk guilds
    /\ isMember env guilds = true
    /\ d' = withDiscordUsers d
              (updateRows (fun u => du_id u =? du_id discordUser)
                          (setRefreshToken (Some (refreshToken token)))
                          (discordUsers d))
    /\ In (setRefreshToken (Some (refreshToken token)) discordUser)
          (rows (discordUsers d'))
    /\ (forall u, In u (rows (discordUsers d)) ->
                  du_id u <> du_id discordUser -> In u (rows (discordUsers d'))).
Proof.
  unfold verifyConnection. intros Hrun.
  destruct (negb _); [discriminate |].
  destruct (tryCatch _ (selectMinecraftUserByUUID _) d) as [r d0] eqn:H1.
  apply tryCatch_cases in H1 as [[-> ->]|(found & [= <- <-] & ->)];
    [discriminate |].
  destruct (getRow _ (minecraftUsers d)) as [minecraftUser|] eqn:Hmu;
    [| discriminate].
  destruct (tryCatch _ (selectConnectionByMinecraftUser _) d) as [r d0] eqn:H2.
  apply tryCatch_cases in H2 as [[-> ->]|(found & [= <- <-] & ->)];
    [discriminate |].
  destruct (getRow _ (connections d)) as [connection|] eqn:Hcn; [| discriminate].
  destruct (tryCatch _ (selectDiscordUserById _) d) as [r d0] eqn:H3.
  apply tryCatch_cases in H3 as [[-> ->]|(found & [= <- <-] & ->)];
    [discriminate |].
  destruct (getRow _ (discordUsers d)) as [discordUser|] eqn:Hdu; [| discriminate].
  destruct (discordRefreshToken discordUser) as [stored|] eqn:Hstored;
    [| discriminate].
  assert (Hrun' :
    match tokenWithRefreshToken out stored with
    | ResultErr e =>
        if isCode e invalid_auth then (ResultErr InvalidAuth, d)
        else (ResultErr DiscordError, d)
    | ResultOk token =>
        let '(refreshUpdate, d) :=
          tryCatch (outage out RefreshTokenUpdate)
            (updateRefreshToken (du_id discordUser) (refreshToken token)) d in
        match refreshUpdate with
        | ResultErr _ => (ResultErr DatabaseError, d)
        | ResultOk _ =>
            match userGuildsData out (accessToken token) with
            | ResultErr e =>
                if isCode e invalid_auth then (ResultErr InvalidAuth, d)
                else (ResultErr DiscordError, d)
            | ResultOk guilds =>
                if negb (isMember env guilds)
                then
                  let '(deleteResult, d) :=
                    tryCatch (outage out ConnectionDeletion)
                      (deleteConnectionById (cn_id connection)) d in
                  match deleteResult with
                  | ResultErr _ => (ResultErr DatabaseError, d)
                  | ResultOk _ => (ResultErr AccessDenied, d)
                  end
                else (ResultOk tt, d)
            end
        end
    end = (ResultOk (), d')).
  { destruct stored; [discriminate | exact Hrun]. }
  clear Hrun.
  destruct (tokenWithRefreshToken out stored) as [token|e] eqn:Htoken;
    [| destruct (isCode e invalid_auth); discriminate].
  destruct (tryCatch _ (updateRefreshToken _ _) d) as [r d1] eqn:H4.
  apply tryCatch_cases in H4 as [[-> ->]|(u & [= <- <-] & ->)]; [discriminate |].
  destruct (userGuildsData out (accessToken token)) as [guilds|e] eqn:Hguilds;
    [| destruct (isCode e invalid_auth); discriminate].
  destruct (isMember env guilds) eqn:Hmember; simpl in Hrun'.
  2: { destruct (tryCatch _ _ _) as [[] ?]; discriminate. }
  injection Hrun' as <-.
  apply find_some_In in Hmu as [Hmin Hmsel]. apply String.eqb_eq in Hmsel.
  apply find_some_In in Hcn as [Hcin Hcsel]. apply Z.eqb_eq in Hcsel.
  apply find_some_In in Hdu as [Hdin Hdsel]. apply Z.eqb_eq in Hdsel.
  exists minecraftUser, connection, discordUser, stored, token, guilds.
  repeat split; auto; simpl.
  - apply List.in_map_iff. exists discordUser. by rewrite Z.eqb_refl.
  - intros u Hu Hne. apply List.in_map_iff. exists u.
    destruct (Z.eqb_spec (du_id u) (du_id discordUser)); done.
Qed.

End LinkOutcome.

Section OutcomeWitnesses.
Import Schema Datastore Discord Handlers.

Lemma freshDB_constraints : constraints Sample.freshDB.
Proof.
  split; simpl; repeat (apply NoDup_cons; split; [set_solver |]);
    apply NoDup_nil; done.
Qed.

Lemma staleDB_constraints : constraints Cases.staleDB.
Proof.
  split; simpl; repeat (apply NoDup_cons; split; [set_solver |]);
    apply NoDup_nil; done.
Qed.

Lemma createVerificationFlow_generation_witness :
  fst (createVerificationFlow Sample.env (Sample.outside 10000 Sample.inGuild)
         Sample.flowParamsM2 Cases.staleDB)
  = Some (ResultOk {| value_expiresAt := 910000;
                      value_linkingCode := "aba9b9ab" |})
  /\ forall f,
       In f (rows (verificationFlows
                     (snd (createVerificationFlow Sample.env
                             (Sample.outside 10000 Sample.inGuild)
                             Sample.flowParamsM2 Cases.staleDB)))) ->
       linkingCode f = "aba9b9ab"%string ->
       vf_minecraftUUID f = "M2"%string /\ expiresAt f = 910000.
Proof.
  exact (createVerificationFlow_generation Sample.env
           (Sample.outside 10000 Sample.inGuild) Sample.flowParamsM2
           Cases.staleDB (fun _ => "aba9b9ab"%string)
           staleDB_constraints eq_refl (fun _ => eq_refl) eq_refl
           (fun _ _ => eq_refl)).
Defined.

Lemma linkDiscordAccount_success_witness :
  exists d',
    linkDiscordAccount Sample.env (Sample.outside 1000 Sample.inGuild)
      Sample.linkParams Sample.freshDB
    = (ResultOk {| discordUsername := "dino" |}, d')
    /\ getRow (fun f => String.eqb (linkingCode f) "aaaaaaaa")
              (verificationFlows d') = None.
Proof.
  eexists. split; [reflexivity |].
  destruct (linkDiscordAccount_success Sample.env
              (Sample.outside 1000 Sample.inGuild) Sample.linkParams
              Sample.freshDB _ _ freshDB_constraints eq_refl)
    as (state & flow & token & discordUser & dr & mr & cn & Hstate & H).
  injection Hstate as <-.
  exact (proj2 (proj2 (proj2 (proj2 (proj2 (proj2 (proj2 (proj2 (proj2 (proj2
         (proj2 (proj2 (proj2 (proj2 (proj2 (proj2 H)))))))))))))))).
Defined.

Lemma linkDiscordAccount_never_moves_witness :
  fst (linkDiscordAccount Sample.env (Sample.outside 1000 Sample.inGuild)
         Sample.linkParams Sample.linkedDB)
  = ResultErr DatabaseError
  /\ connections (snd (linkDiscordAccount Sample.env
                         (Sample.outside 1000 Sample.inGuild)
                         Sample.linkParams Sample.linkedDB))
     = connections Sample.linkedDB.
Proof.
  exact (linkDiscordAccount_never_moves Sample.env
           (Sample.outside 1000 Sample.inGuild) Sample.linkParams
           Sample.linkedDB
           {| st_linkingCode := "aaaaaaaa"; st_timestamp := 5%Q |}
           Sample.flowM2 Sample.token Sample.dino Sample.inGuild
           {| du_createdAt := 1; discordID := "D";
              discordRefreshToken := Some "stale"%string; du_id := 1 |}
           {| cn_createdAt := 1; discordUserID := 1; cn_id := 1;
              minecraftUserID := 1 |}
           {| mu_createdAt := 1; mu_id := 1; mu_minecraftUUID := "M1" |}
           linkedDB_constraints eq_refl eq_refl eq_refl eq_refl eq_refl eq_refl
           eq_refl (or_introl eq_refl) eq_refl (or_introl eq_refl) eq_refl
           (or_introl eq_refl) eq_refl ltac:(discriminate)).
Defined.

Lemma verifyConnection_success_witness :
  exists d',
    verifyConnection Sample.env (Sample.outside 1000 Sample.inGuild)
      Sample.verifyM1 Sample.linkedDB
    = (ResultOk tt, d')
    /\ map discordRefreshToken (rows (discordUsers d')) = [Some "fresh"%string].
Proof.
  eexists. split; [reflexivity |].
  destruct (verifyConnection_success Sample.env
              (Sample.outside 1000 Sample.inGuild) Sample.verifyM1
              Sample.linkedDB _ eq_refl)
    as (mu & cn & du & stored & token & guilds & _).
  reflexivity.
Defined.

End OutcomeWitnesses.

(** ** getDiscordOAuthLink and the state it issues *)

Section OAuthLinkFacts.
Import Schema Datastore Discord Handlers Vocabulary OAuthLink.

Variable searchParamsToString : list (string * string) -> string.
Variable numberToString : Q -> string.

Lemma find_none_existsb {A} (p : A -> bool) (l : list A) :
  List.find p l = None <-> existsb p l = false.
Proof.
  induction l as [|a l IH]; simpl; [done |].
  destruct (p a); simpl; [split; discriminate | exact IH].
Qed.

(** The lookup of [linkDiscordAccount] fails exactly on the codes that no
    live flow holds. *)
Lemma linkDiscordAccount_invalid_code env out params d state :
  decodeOAuthState out (lp_state params) = Some state ->
  outage out FlowLookup = false ->
  fst (linkDiscordAccount env out params d) = ResultErr InvalidLinkingCode
  <-> liveCollision d (now out) (st_linkingCode state) = false.
Proof.
  intros Hstate Hup. unfold liveCollision. rewrite <- find_none_existsb.
  unfold linkDiscordAccount, tryCatch. rewrite Hstate, Hup.
  unfold selectFlowByCodeUnexpired, query, getRow.
  destruct (List.find _ _) as [flow|]; [| done].
  split; [| discriminate]. intros H. exfalso.
  destruct (tokenWithCode _ _) as [token|e];
    [| destruct (isCode e invalid_code); discriminate].
  destruct (userData _ _); [| discriminate].
  destruct (userGuildsData _ _); [| discriminate].
  destruct (negb _); [discriminate |].
  repeat case_match; discriminate.
Qed.

(** X11.  [getDiscordOAuthLink] never writes to the database.  With the
    lookup reachable and under the schema's constraints, it refuses a code
    as [InvalidLinkingCode] exactly when [linkDiscordAccount], at the same
    instant and for a state carrying that code, refuses it as
    [InvalidLinkingCode]; otherwise it returns a link. *)
Theorem getDiscordOAuthLink_agrees lenv env out params linkParams d state :
  constraints d ->
  outage out FlowLookup = false ->
  decodeOAuthState out (lp_state linkParams) = Some state ->
  st_linkingCode state = ol_linkingCode params ->
  let offered :=
    getDiscordOAuthLink searchParamsToString numberToString lenv out params d in
  snd offered = d
  /\ (fst offered = ResultErr InvalidLinkingCode
      <-> fst (linkDiscordAccount env out linkParams d)
          = ResultErr InvalidLinkingCode)
  /\ (fst offered <> ResultErr InvalidLinkingCode ->
      exists url, fst offered = ResultOk {| oauthURL := url |}).
Proof.
  intros Hc Hup Hstate Hcode offered.
  rewrite (linkDiscordAccount_invalid_code env out linkParams d state Hstate Hup).
  rewrite Hcode, (liveCollision_getRow d) by apply Hc.
  subst offered. unfold getDiscordOAuthLink, tryCatch. rewrite Hup.
  unfold selectFlowByCode, query.
  destruct (getRow _ (verificationFlows d)) as [flow|]; simpl.
  - destruct (Z.leb_spec (expiresAt flow) (now out)) as [Hdead|Hlive];
      destruct (Z.ltb_spec (now out) (expiresAt flow)); try lia; simpl.
    + repeat split; auto. congruence.
    + split; [reflexivity |]. split; [split; discriminate |]. eauto.
  - repeat split; auto. congruence.
Qed.

(** X12.  [linkDiscordAccount] reads the linking code of the state and
    nothing else of it: however the timestamp is read, as long as it is
    read as some number, the handler does the same. *)
Theorem linkDiscordAccount_ignores_timestamp env out params d coerce state state' :
  decodeOAuthState out (lp_state params) = Some state ->
  decodeOAuthState (withCoerceNumber coerce out) (lp_state params) = Some state' ->
  linkDiscordAccount env (withCoerceNumber coerce out) params d
  = linkDiscordAccount env out params d.
Proof.
  intros Hstate Hstate'.
  assert (Hsame : st_linkingCode state' = st_linkingCode state).
  { unfold decodeOAuthState in *. simpl in Hstate'.
    destruct (searchParam out (lp_state params) "linkingCode"); [| discriminate].
    destruct (coerceNumber out _); [| discriminate].
    destruct (coerce _); [| discriminate].
    injection Hstate as <-. by injection Hstate' as <-. }
  unfold linkDiscordAccount. rewrite Hstate, Hstate', Hsame. reflexivity.
Qed.

End OAuthLinkFacts.

Lemma getDiscordOAuthLink_agrees_witness :
  fst (OAuthLink.getDiscordOAuthLink Cases.valuesOnly Cases.printNothing
         Cases.linkEnv (Sample.outside 10000 Sample.inGuild)
         {| OAuthLink.ol_linkingCode := "aaaaaaaa" |} Sample.freshDB)
  = ResultErr Handlers.InvalidLinkingCode
  <-> fst (Handlers.linkDiscordAccount Sample.env
             (Sample.outside 10000 Sample.inGuild) Sample.linkParams
             Sample.freshDB)
      = ResultErr Handlers.InvalidLinkingCode.
Proof.
  exact (proj1 (proj2 (getDiscordOAuthLink_agrees Cases.valuesOnly
           Cases.printNothing Cases.linkEnv Sample.env
           (Sample.outside 10000 Sample.inGuild)
           {| OAuthLink.ol_linkingCode := "aaaaaaaa" |} Sample.linkParams
           Sample.freshDB
           {| Handlers.st_linkingCode := "aaaaaaaa"; Handlers.st_timestamp := 5%Q |}
           freshDB_constraints eq_refl eq_refl eq_refl))).
Defined.

Lemma linkDiscordAccount_ignores_timestamp_witness :
  Handlers.linkDiscordAccount Sample.env
    (Vocabulary.withCoerceNumber Cases.coerceZero
       (Sample.outside 1000 Sample.inGuild))
    Sample.linkParams Sample.freshDB
  = Handlers.linkDiscordAccount Sample.env (Sample.outside 1000 Sample.inGuild)
      Sample.linkParams Sample.freshDB.
Proof.
  exact (linkDiscordAccount_ignores_timestamp Sample.env
           (Sample.outside 1000 Sample.inGuild) Sample.linkParams Sample.freshDB
           Cases.coerceZero _ _ eq_refl eq_refl).
Defined.

(** ** Outcomes of the Discord client *)

Section ClientOutcomes.
Import Discord Vocabulary.

Variable parseFloat : string -> JSNumber.
Variable dateGetTime : string -> option Z.

Local Abbreviation inner := (discordFetchInner parseFloat dateGetTime).
Local Abbreviation run := (attemptsFrom parseFloat dateGetTime).

(** A success carries a status that is not retried; the only final
    error is [invalid-json]. *)
Lemma discordFetchInner_outcomes (a : Attempt) :
  match inner a with
  | ResultOk value => ~ retryable (statusCode value)
  | ResultErr (final e) => e = invalid_json
  | ResultErr (retry _) => True
  end.
Proof.
  unfold discordFetchInner, retryable.
  destruct (outcome a) as [|status header body]; [exact I |].
  destruct (Z.eqb_spec status 429) as [->|Hne].
  - destruct header as [header|]; [| exact I].
    repeat case_match; (exact I || discriminate).
  - destruct (Z.leb_spec 500 status), (Z.ltb_spec status 600); simpl;
      try exact I; destruct body; simpl; (reflexivity || lia).
Qed.

(** X13.  One fetch is classified in exactly one of three ways.  It
    succeeds only on an answer whose status is neither 429 nor 5xx and
    whose body parsed, and it carries that status and body.  Its only final
    error is [invalid-json], on such a status with an unparsable body.
    Everything else (a rejected fetch, a 429, a 5xx) is a retry; a retry
    carries a delay hint only for a 429 with a [Retry-After] header, and the
    hint is never negative. *)
Theorem discordFetchInner_classification (a : Attempt) :
  match inner a with
  | ResultOk value =>
      exists header,
        outcome a = Responds (statusCode value) header (Some (data value))
        /\ ~ retryable (statusCode value)
  | ResultErr (final e) =>
      e = invalid_json
      /\ exists status header,
           outcome a = Responds status header None /\ ~ retryable status
  | ResultErr (retry hint) =>
      (outcome a = Rejects
       \/ exists status header body,
            outcome a = Responds status header body /\ retryable status)
      /\ forall afterMs,
           hint = Some afterMs ->
           Double.leb (Finite 0) afterMs = true
           /\ exists header body, outcome a = Responds 429 (Some header) body
  end.
Proof.
  pose proof (discordFetchInner_hint_nonneg parseFloat dateGetTime a) as Hnonneg.
  unfold retryable.
  destruct (inner a) as [value|[e|hint]] eqn:Hinner;
    unfold discordFetchInner in Hinner;
    destruct (outcome a) as [|status header body].
  - discriminate.
  - destruct (Z.eqb_spec status 429) as [->|Hne];
      [repeat case_match; discriminate |].
    destruct (Z.leb_spec 500 status), (Z.ltb_spec status 600);
      simpl in Hinner; try discriminate;
      (destruct body as [parsed|]; [| discriminate]);
      injection Hinner as <-; exists header; simpl; (split; [reflexivity | lia]).
  - discriminate.
  - destruct (Z.eqb_spec status 429) as [->|Hne];
      [repeat case_match; discriminate |].
    destruct (Z.leb_spec 500 status), (Z.ltb_spec status 600);
      simpl in Hinner; try discriminate;
      (destruct body as [parsed|]; [discriminate |]);
      injection Hinner as <-; (split; [reflexivity |]);
      exists status, header; (split; [reflexivity | lia]).
  - split; [auto |]. intros afterMs ->. discriminate.
  - destruct (Z.eqb_spec status 429) as [->|Hne].
    + split; [right; exists 429, header, body; auto |].
      intros afterMs ->. split; [by apply Hnonneg |].
      destruct header as [header|]; [eauto | discriminate].
    + split.
      * right. exists status, header, body. split; [reflexivity |].
        destruct (Z.leb_spec 500 status), (Z.ltb_spec status 600);
          simpl in Hinner; try lia; destruct body; discriminate.
      * intros afterMs ->.
        destruct ((500 <=? status) && (status <? 600)); [discriminate |].
        destruct body; discriminate.
Qed.

(** A result of the loop is a success with a status that is not
    retryable, or one of three errors. *)
Lemma attemptsFrom_results (retries maxEndTime : Z) (world : nat -> Attempt)
  (left : nat) : forall attempt,
  match fst (run retries maxEndTime world left attempt) with
  | ResultOk value => ~ retryable (statusCode value)
  | ResultErr e => e = timeout \/ e = retries_exhausted \/ e = invalid_json
  end.
Proof.
  induction left as [|left IH]; intros attempt; cbn [attemptsFrom];
    [simpl; auto |].
  destruct (_ <=? 0); [simpl; auto |].
  destruct (wasAborted _); [simpl; auto |].
  pose proof (discordFetchInner_outcomes (world attempt)) as Hinner.
  destruct (inner (world attempt)) as [value|[e|hint]].
  - exact Hinner.
  - simpl. rewrite Hinner. auto.
  - destruct (_ <? _); [simpl; auto |].
    specialize (IH (S attempt)).
    destruct hint as [afterMs|].
    + destruct (Double.leb _ _); [simpl; auto |].
      by destruct (run retries maxEndTime world left (S attempt)).
    + destruct (Double.leb _ _); [simpl; auto |].
      by destruct (run retries maxEndTime world left (S attempt)).
Qed.

(** X14.  Whatever the world does, [discordFetch] returns a success whose
    status is neither 429 nor 5xx, or one of the errors [timeout],
    [retries-exhausted] and [invalid-json]: it never reports
    [network-error], a rejected fetch being retried like a 5xx. *)
Theorem discordFetch_results (retries : option nat) (timeoutMs : option Z)
  (startTime : Z) (world : nat -> Attempt) :
  match fst (discordFetch parseFloat dateGetTime retries timeoutMs startTime world) with
  | ResultOk value => statusCode value <> 429 /\ ~ (500 <= statusCode value < 600)
  | ResultErr e => e = timeout \/ e = retries_exhausted \/ e = invalid_json
  end.
Proof.
  unfold discordFetch.
  pose proof (attemptsFrom_results (Z.of_nat (default 3%nat retries))
                (startTime + default 5000 timeoutMs) world
                (default 3%nat retries + 1) 1) as H.
  destruct (fst _) as [value|e]; [| exact H].
  unfold retryable in H. split; [intros Hs | intros Hs]; apply H; auto.
Qed.

(** X15.  A 429 whose [Retry-After] header reads as [secs] seconds, not
    negative, gives the hint [secs * 1000] as the doubles multiply it, and
    the hint is what the loop sleeps, without backoff or jitter, before the
    next attempt, provided a retry is left.  The sleep is skipped and the
    call ends with [timeout] when the clock plus the hint, added as
    doubles, reaches the deadline, which is so whenever the hint ends at or
    after the deadline; a hint that is slept ends before the deadline. *)
Theorem discordFetch_honours_retry_after (retries maxEndTime : Z)
  (world : nat -> Attempt) (left attempt : nat) (header : string)
  (body : option json) (secs : Q) :
  let a := world attempt in
  let afterMs := Double.max (Finite 0) (Double.mul (Finite secs) (Finite 1000)) in
  let late :=
    Double.leb (Double.ofZ maxEndTime)
               (Double.add (Double.ofZ (clockAfter a)) afterMs) in
  outcome a = Responds 429 (Some header) body ->
  parseFloat header = Finite secs ->
  (0 <= secs)%Q ->
  0 < maxEndTime - clockAtStart a ->
  wasAborted a = false ->
  Z.of_nat attempt <= retries ->
  Z.abs maxEndTime <= 2 ^ 53 ->
  inner a = ResultErr (retry (Some afterMs))
  /\ (late = false ->
      run retries maxEndTime world (S left) attempt
      = (fst (run retries maxEndTime world left (S attempt)),
         sleep afterMs :: snd (run retries maxEndTime world left (S attempt)))
      /\ exists ms,
           afterMs = Finite ms /\ (0 <= ms)%Q
           /\ (inject_Z (clockAfter a) + ms < inject_Z maxEndTime)%Q)
  /\ (late = true ->
      run retries maxEndTime world (S left) attempt = (ResultErr timeout, []))
  /\ (forall ms, afterMs = Finite ms ->
                 (inject_Z maxEndTime <= inject_Z (clockAfter a) + ms)%Q ->
                 late = true)
  /\ (afterMs = PosInfinity -> late = true).
Proof.
  intros a afterMs late Hout Hparse Hsecs Hleft Habort Hmore Hmax.
  assert (Hinner : inner a = ResultErr (retry (Some afterMs))).
  { unfold discordFetchInner. rewrite Hout. simpl. rewrite Hparse.
    apply Qle_bool_iff in Hsecs. by rewrite Hsecs. }
  pose proof (discordFetchInner_hint_nonneg _ _ _ _ Hinner) as Hpos.
  assert (Hstep : run retries maxEndTime world (S left) attempt
                  = if late then (ResultErr timeout, [])
                    else (fst (run retries maxEndTime world left (S attempt)),
                          sleep afterMs
                          :: snd (run retries maxEndTime world left (S attempt)))).
  { cbn [attemptsFrom]. fold a. rewrite Hinner, Habort.
    destruct (Z.leb_spec (maxEndTime - clockAtStart a) 0); [lia |].
    destruct (Z.ltb_spec retries (Z.of_nat attempt)); [lia |].
    fold late. destruct late; [reflexivity |].
    by destruct (run retries maxEndTime world left (S attempt)). }
  split; [exact Hinner |]. split; [| split; [| split]].
  - intros Hearly. rewrite Hstep, Hearly. split; [reflexivity |].
    by apply (hint_sleep maxEndTime).
  - intros Hlate. by rewrite Hstep, Hlate.
  - intros ms Hms Hlate. subst late. rewrite Hms.
    by apply hint_timeout.
  - intros Hinf. subst late. by rewrite Hinf.
Qed.

(** The converse fails by rounding: on a clock one millisecond before a
    deadline of 1.7e12, a hint of 0.0009999999 s ends before the deadline,
    yet the sum as doubles is the deadline, and the call times out. *)
Lemma hint_rounds_to_deadline :
  let afterMs :=
    Double.max (Finite 0)
      (Double.mul (Finite (2305842778629393 # 2305843009213693952)) (Finite 1000)) in
  Double.leb (Double.ofZ 1700000000000)
             (Double.add (Double.ofZ 1699999999999) afterMs) = true
  /\ exists ms,
       afterMs = Finite ms
       /\ (inject_Z 1699999999999 + ms < inject_Z 1700000000000)%Q.
Proof.
  split; [vm_compute; reflexivity |].
  eexists. split; [vm_compute; reflexivity | reflexivity].
Qed.

End ClientOutcomes.

(** ** Token and profile calls *)

Section APIFacts.
Import Discord DiscordAPI Handlers Vocabulary.

Variable parseFloat : string -> JSNumber.
Variable dateGetTime : string -> option Z.

(** X16.  On the result of one fetch, refreshing a token and exchanging a
    code are classified alike, except that the provider error
    [invalid_grant] is [invalid-code] for the exchange and [invalid-auth]
    for the refresh; the refresh never reports [invalid-code]. *)
Theorem token_calls_agree (retries : option nat) (timeoutMs : option Z)
  (startTime : Z) (world : nat -> Attempt) (now_ : Z) :
  let response :=
    fst (discordFetch parseFloat dateGetTime retries timeoutMs startTime world) in
  createDiscordOAuth2TokenWithRefreshToken now_ response
  = match createDiscordOAuth2TokenWithCode now_ response with
    | ResultErr invalid_code => ResultErr invalid_auth
    | other => other
    end
  /\ createDiscordOAuth2TokenWithRefreshToken now_ response <> ResultErr invalid_code.
Proof.
  intros response.
  pose proof (attemptsFrom_results parseFloat dateGetTime
                (Z.of_nat (default 3%nat retries))
                (startTime + default 5000 timeoutMs) world
                (default 3%nat retries + 1) 1) as Hfetch.
  fold (discordFetch parseFloat dateGetTime retries timeoutMs startTime world)
    in Hfetch.
  fold response in Hfetch.
  unfold createDiscordOAuth2TokenWithRefreshToken,
    createDiscordOAuth2TokenWithCode.
  destruct response as [value|e].
  - destruct (statusCode value =? 401); [split; [reflexivity | discriminate] |].
    destruct (tokenResponseSchema (data value)) as [[fields|fields]|];
      try (split; [reflexivity | discriminate]).
    destruct (String.eqb _ _); split; (reflexivity || discriminate).
  - destruct Hfetch as [->|[->| ->]]; split; (reflexivity || discriminate).
Qed.

(** Bounds through the arithmetic of the expiry: a factor of 1000 and a
    shift by the clock keep an integer bound that a double holds exactly. *)
Lemma scale_below (x : JSNumber) (b z : Z) :
  Double.leb x (Double.ofZ b) = true -> b * 1000 <= z -> Z.abs z <= 2 ^ 53 ->
  Double.leb (Double.mul x (Finite 1000)) (Double.ofZ z) = true.
Proof.
  unfold Double.ofZ. intros Hx Hb Hz. destruct x as [| | |v]; try done.
  apply leb_Finite in Hx. cbn [Double.mul]. rewrite <- (round_Z _ Hz).
  apply round_mono. rewrite Zle_Qle in Hb. rewrite inject_Z_mult in Hb.
  change (inject_Z 1000) with 1000%Q in Hb. lra.
Qed.

Lemma scale_above (x : JSNumber) (b z : Z) :
  Double.leb (Double.ofZ b) x = true -> z <= b * 1000 -> Z.abs z <= 2 ^ 53 ->
  Double.leb (Double.ofZ z) (Double.mul x (Finite 1000)) = true.
Proof.
  unfold Double.ofZ. intros Hx Hb Hz. destruct x as [| | |v]; try done.
  apply leb_Finite in Hx. cbn [Double.mul]. rewrite <- (round_Z _ Hz).
  apply round_mono. rewrite Zle_Qle in Hb. rewrite inject_Z_mult in Hb.
  change (inject_Z 1000) with 1000%Q in Hb. lra.
Qed.

Lemma shift_below (n : Z) (x : JSNumber) (b z : Z) :
  Double.leb x (Double.ofZ b) = true -> n + b <= z -> Z.abs z <= 2 ^ 53 ->
  Double.leb (Double.add (Double.ofZ n) x) (Double.ofZ z) = true.
Proof.
  unfold Double.ofZ. intros Hx Hb Hz. destruct x as [| | |v]; try done.
  apply leb_Finite in Hx. cbn [Double.add]. rewrite <- (round_Z _ Hz).
  apply round_mono. rewrite Zle_Qle in Hb. rewrite inject_Z_plus in Hb. lra.
Qed.

Lemma shift_above (n : Z) (x : JSNumber) (b z : Z) :
  Double.leb (Double.ofZ b) x = true -> z <= n + b -> Z.abs z <= 2 ^ 53 ->
  Double.leb (Double.ofZ z) (Double.add (Double.ofZ n) x) = true.
Proof.
  unfold Double.ofZ. intros Hx Hb Hz. destruct x as [| | |v]; try done.
  apply leb_Finite in Hx. cbn [Double.add]. rewrite <- (round_Z _ Hz).
  apply round_mono. rewrite Zle_Qle in Hb. rewrite inject_Z_plus in Hb. lra.
Qed.

(** X17.  The exchange succeeds exactly on an answer whose status is not
    401 and whose body has the five token members with their types; the
    status plays no other part, and members beyond the five are dropped.
    The expiry it reports is [now + (expires_in - 30) * 1000] as doubles
    compute it, never [NaN].  Against a whole number [s] of seconds whose
    expiry [now + (s - 30) * 1000] and its parts are integers a double
    holds, rounding keeps the order: a lifetime of at most [s] expires no
    later than that, one of at least [s] no earlier.  So a token declared
    to live at most 30 s is reported as expiring at [now] or before. *)
Theorem createDiscordOAuth2TokenWithCode_success (now_ : Z)
  (response : Result FetchValue DiscordErrorCode) (token : TokenData) :
  (createDiscordOAuth2TokenWithCode now_ response = ResultOk token
   <-> exists value fields,
         response = ResultOk value
         /\ statusCode value <> 401
         /\ DiscordOAuth2TokenDataSchema (data value) = Some fields
         /\ token = tokenData now_ fields)
  /\ (forall fields,
        let expiresAt := td_expiresAt (tokenData now_ fields) in
        expiresAt <> NaN
        /\ (forall s : Z,
              Z.abs ((s - 30) * 1000) <= 2 ^ 53 ->
              Z.abs (now_ + (s - 30) * 1000) <= 2 ^ 53 ->
              ((expires_in fields <= inject_Z s)%Q ->
               Double.leb expiresAt (Double.ofZ (now_ + (s - 30) * 1000)) = true)
              /\ ((inject_Z s <= expires_in fields)%Q ->
                  Double.leb (Double.ofZ (now_ + (s - 30) * 1000)) expiresAt = true))
        /\ (Z.abs now_ <= 2 ^ 53 -> (expires_in fields <= 30)%Q ->
            Double.leb expiresAt (Double.ofZ now_) = true)).
Proof.
  split.
  - unfold createDiscordOAuth2TokenWithCode, tokenResponseSchema. split.
    + destruct response as [value|]; [| discriminate].
      destruct (Z.eqb_spec (statusCode value) 401); [discriminate |].
      destruct (DiscordOAuth2TokenDataSchema (data value)) as [fields|] eqn:Hschema.
      * intros [= <-]. exists value, fields. done.
      * destruct (DiscordOAuth2TokenErrorSchema (data value));
          [destruct (String.eqb _ _) |]; discriminate.
    + intros (value & fields & -> & Hstatus & Hschema & ->).
      destruct (Z.eqb_spec (statusCode value) 401); [done |].
      by rewrite Hschema.
  - intros fields expiresAt. subst expiresAt. unfold tokenData.
    cbn [td_expiresAt]. set (e := expires_in fields).
    assert (Hbounds : forall s : Z,
      Z.abs ((s - 30) * 1000) <= 2 ^ 53 ->
      Z.abs (now_ + (s - 30) * 1000) <= 2 ^ 53 ->
      ((e <= inject_Z s)%Q ->
       Double.leb (Double.add (Double.ofZ now_)
                     (Double.mul (Double.sub (Finite e) (Finite 30)) (Finite 1000)))
                  (Double.ofZ (now_ + (s - 30) * 1000)) = true)
      /\ ((inject_Z s <= e)%Q ->
          Double.leb (Double.ofZ (now_ + (s - 30) * 1000))
                     (Double.add (Double.ofZ now_)
                        (Double.mul (Double.sub (Finite e) (Finite 30)) (Finite 1000)))
          = true)).
    { intros s Hscaled Hsum.
      assert (Hs : Z.abs (s - 30) <= 2 ^ 53) by lia.
      split; intros He.
      - apply (shift_below _ _ ((s - 30) * 1000)); [| lia | exact Hsum].
        apply (scale_below _ (s - 30)); [| lia | exact Hscaled].
        unfold Double.ofZ. cbn [Double.sub Double.add Double.opp].
        rewrite <- (round_Z _ Hs). apply round_mono.
        unfold Z.sub. rewrite inject_Z_plus.
        change (inject_Z (- (30))) with (- (30))%Q. lra.
      - apply (shift_above _ _ ((s - 30) * 1000)); [| lia | exact Hsum].
        apply (scale_above _ (s - 30)); [| lia | exact Hscaled].
        unfold Double.ofZ. cbn [Double.sub Double.add Double.opp].
        rewrite <- (round_Z _ Hs). apply round_mono.
        unfold Z.sub. rewrite inject_Z_plus.
        change (inject_Z (- (30))) with (- (30))%Q. lra. }
    split; [| split; [exact Hbounds |]].
    + cbn [Double.sub Double.add Double.opp Double.ofZ].
      pose proof (round_not_NaN (e + - (30))) as Hsub.
      destruct (mul_positive_not_NaN (Double.round (e + - (30))) 1000 Hsub
                  ltac:(reflexivity)) as [Hmul _].
      destruct (Double.mul _ _); (done || apply round_not_NaN).
    + intros Hnow He.
      destruct (Hbounds 30 ltac:(simpl; lia) ltac:(lia)) as [Hbelow _].
      replace (now_ + (30 - 30) * 1000) with now_ in Hbelow by lia.
      apply Hbelow. exact He.
Qed.

Lemma asString_Some (o : option json) (s : string) :
  asString o = Some s <-> o = Some (JString s).
Proof.
  unfold asString. split.
  - destruct o as [[]|]; intros; simplify_eq; auto.
  - by intros ->.
Qed.

(** X18.  The profile call answers [invalid-auth] on 401 and
    [insufficient-permissions] on 403 whatever the body.  On any other
    status it succeeds exactly when the body is an object whose [id] and
    [username] are strings, and returns those; every other body is
    [unexpected-response]. *)
Theorem fetchDiscordUserData_classification
  (value : FetchValue) :
  let fetched := fetchDiscordUserData (ResultOk value) in
  (statusCode value = 401 -> fetched = ResultErr invalid_auth)
  /\ (statusCode value = 403 -> fetched = ResultErr insufficient_permissions)
  /\ (statusCode value <> 401 -> statusCode value <> 403 ->
      (forall user,
         fetched = ResultOk user
         <-> exists members,
               data value = JObject members
               /\ RPC.member "id" members = Some (JString (user_id user))
               /\ RPC.member "username" members = Some (JString (username user)))
      /\ ((forall user, fetched <> ResultOk user) ->
          fetched = ResultErr unexpected_response)).
Proof.
  intros fetched. subst fetched. unfold fetchDiscordUserData.
  split; [by intros -> |]. split; [by intros -> |].
  intros H401 H403.
  destruct (Z.eqb_spec (statusCode value) 401); [done |].
  destruct (Z.eqb_spec (statusCode value) 403); [done |].
  unfold DiscordAPIUserDataSchema. split.
  - intros user. split.
    + destruct (data value) as [| | | | |members];
        try (destruct (DiscordAPIErrorResponseSchema _); discriminate).
      destruct (asString (RPC.member "id" members)) as [i|] eqn:Hi;
        [| destruct (DiscordAPIErrorResponseSchema _); discriminate].
      destruct (asString (RPC.member "username" members)) as [u|] eqn:Hu;
        [| destruct (DiscordAPIErrorResponseSchema _); discriminate].
      intros [= <-]. exists members. simpl.
      by apply asString_Some in Hi, Hu.
    + intros (members & -> & Hi & Hu). rewrite Hi, Hu. simpl.
      by destruct user.
  - intros Hnever.
    destruct (data value) as [| | | | |members];
      try (by destruct (DiscordAPIErrorResponseSchema _)).
    destruct (asString (RPC.member "id" members)) as [i|];
      [| by destruct (DiscordAPIErrorResponseSchema _)].
    destruct (asString (RPC.member "username" members)) as [u|];
      [| by destruct (DiscordAPIErrorResponseSchema _)].
    by destruct (Hnever {| user_id := i; username := u |}).
Qed.

Lemma arrayOf_Some {A} (schema : json -> option A) (items : list json) (l : list A) :
  arrayOf schema items = Some l <-> Forall2 (fun item a => schema item = Some a) items l.
Proof.
  revert l. induction items as [|item rest IH]; intros l; simpl.
  - split; [intros [= <-]; constructor | by inversion 1].
  - destruct (schema item) as [a|] eqn:Hs.
    + destruct (arrayOf schema rest) as [others|] eqn:Hrest.
      * split.
        -- intros [= <-]. constructor; [done | by apply IH].
        -- inversion 1 as [|? b ? l' Hb Hl]; subst.
           apply IH in Hl. congruence.
      * split; [discriminate |]. inversion 1 as [|? b ? l' Hb Hl]; subst.
        apply IH in Hl. discriminate.
    + split; [discriminate |]. inversion 1; congruence.
Qed.

Lemma guildSchema_id (item : json) (guild : DiscordGuildData) :
  DiscordAPIGuildDataSchema item = Some guild ->
  exists members,
    item = JObject members
    /\ RPC.member "id" members = Some (JString (guild_id guild)).
Proof.
  unfold DiscordAPIGuildDataSchema.
  destruct item as [| | | | |members]; try discriminate.
  destruct (asString (RPC.member "id" members)) as [i|] eqn:Hi; [| discriminate].
  destruct (asString (RPC.member "name" members)) as [n|]; [| discriminate].
  intros [= <-]. exists members. split; [reflexivity |]. by apply asString_Some.
Qed.

(** X19.  When the membership call succeeds, the body is an array with one
    element per guild returned, in order, and the membership test of the
    handlers holds exactly when some element of that array carries the
    configured guild id.  One element that is not an object with string
    [id] and [name] turns the whole answer into [unexpected-response]. *)
Theorem fetchDiscordUserGuildsData_membership (env : Env) (value : FetchValue) :
  (forall guilds,
     fetchDiscordUserGuildsData (ResultOk value) = ResultOk guilds ->
     exists items,
       data value = JArray items
       /\ length items = length guilds
       /\ (isMember env guilds = true
           <-> exists members,
                 In (JObject members) items
                 /\ DiscordAPIGuildDataSchema (JObject members) <> None
                 /\ RPC.member "id" members
                    = Some (JString (DISCORD_GUILD_ID env))))
  /\ (forall items item,
        statusCode value <> 401 -> statusCode value <> 403 ->
        data value = JArray items ->
        In item items -> DiscordAPIGuildDataSchema item = None ->
        fetchDiscordUserGuildsData (ResultOk value)
        = ResultErr unexpected_response).
Proof.
  unfold fetchDiscordUserGuildsData, guildListSchema. split.
  - intros guilds.
    destruct (statusCode value =? 401); [discriminate |].
    destruct (statusCode value =? 403); [discriminate |].
    destruct (data value) as [| | | |items|];
      try (destruct (DiscordAPIErrorResponseSchema _); discriminate).
    destruct (arrayOf _ items) as [parsed|] eqn:Harr;
      [| destruct (DiscordAPIErrorResponseSchema _); discriminate].
    intros [= <-]. apply arrayOf_Some in Harr.
    exists items. split; [reflexivity |].
    split; [by eapply Forall2_length |].
    unfold isMember. rewrite existsb_exists. split.
    + intros (guild & Hin & Hid). apply String.eqb_eq in Hid.
      induction Harr as [|item g items' gs Hs Hrest IH]; [done |].
      destruct Hin as [<-|Hin].
      * destruct (guildSchema_id _ _ Hs) as (members & -> & Hm).
        exists members. split; [by left |]. split; [congruence |].
        by rewrite Hm, Hid.
      * destruct (IH Hin) as (members & Hm & Hrest'). exists members.
        split; [by right | done].
    + intros (members & Hin & Hok & Hid).
      induction Harr as [|item g items' gs Hs Hrest IH]; [done |].
      destruct Hin as [->|Hin].
      * exists g. split; [by left |].
        destruct (guildSchema_id _ _ Hs) as (members' & [= <-] & Hm).
        rewrite Hid in Hm. injection Hm as <-. apply String.eqb_refl.
      * destruct (IH Hin) as (g' & Hg' & Hid'). exists g'. split; [by right | done].
  - intros items item H401 H403 Hdata Hin Hbad.
    destruct (Z.eqb_spec (statusCode value) 401); [done |].
    destruct (Z.eqb_spec (statusCode value) 403); [done |].
    rewrite Hdata.
    destruct (arrayOf _ items) as [parsed|] eqn:Harr;
      [| by destruct (DiscordAPIErrorResponseSchema _)].
    apply arrayOf_Some in Harr. exfalso. clear Hdata.
    induction Harr as [|item' g items' gs Hs Hrest IH]; [done |].
    destruct Hin as [->|Hin]; [congruence | auto].
Qed.

End APIFacts.
Section APIWitnesses.
Import Discord DiscordAPI Handlers.

Lemma discordFetch_honours_retry_after_witness :
  attemptsFrom Cases.parseTenth Sample.dateGetTime 3 5000 Cases.rateLimited 2 1
  = (ResultOk (Cases.answer 201 JNull), [sleep (Finite 100)])
  /\ (inject_Z 50 + 100 < inject_Z 5000)%Q.
Proof.
  destruct (discordFetch_honours_retry_after Cases.parseTenth Sample.dateGetTime
              3 5000 Cases.rateLimited 1 1 "0.1" None
              (3602879701896397 # 36028797018963968)
              eq_refl eq_refl ltac:(discriminate) eq_refl eq_refl
              ltac:(discriminate) ltac:(discriminate))
    as (_ & Hearly & _).
  destruct (Hearly eq_refl) as [Hrun _].
  split; [exact Hrun | reflexivity].
Defined.

Lemma createDiscordOAuth2TokenWithCode_success_witness :
  createDiscordOAuth2TokenWithCode 1000 (ResultOk (Cases.answer 200 Cases.tokenBody))
  = ResultOk {| td_accessToken := "access";
                td_expiresAt := Finite (-4892826743603199 # 549755813888);
                td_refreshToken := "fresh"; td_scope := ["identify"; "guilds"]%string;
                td_tokenType := "Bearer" |}
  /\ Double.leb (Finite (-4892826743603199 # 549755813888)) (Double.ofZ 1000) = true
  /\ td_expiresAt
       (tokenData 1700000000000
          {| access_token := "access";
             expires_in := 4222124649252465 # 140737488355328;
             refresh_token := "fresh"; scope_text := "identify guilds";
             token_type := "Bearer" |})
     = Double.ofZ 1700000000000.
Proof.
  pose proof (createDiscordOAuth2TokenWithCode_success 1000
                (ResultOk (Cases.answer 200 Cases.tokenBody))
                (tokenData 1000
                   {| access_token := "access";
                      expires_in := 2828823515942093 # 140737488355328;
                      refresh_token := "fresh"; scope_text := "identify guilds";
                      token_type := "Bearer" |})) as [Hiff Hexpiry].
  split; [| split].
  - apply Hiff. eexists _, _.
    split; [reflexivity |]. split; [discriminate |]. split; reflexivity.
  - apply (proj2 (proj2 (Hexpiry
             {| access_token := "access";
                expires_in := 2828823515942093 # 140737488355328;
                refresh_token := "fresh"; scope_text := "identify guilds";
                token_type := "Bearer" |}))).
    + discriminate.
    + discriminate.
  - vm_compute. reflexivity.
Defined.

Lemma fetchDiscordUserData_classification_witness :
  fetchDiscordUserData (ResultOk (Cases.answer 200 Cases.profileBody))
  = ResultOk Sample.dino
  /\ fetchDiscordUserData (ResultOk (Cases.answer 401 Cases.profileBody))
     = ResultErr invalid_auth.
Proof.
  split.
  - apply (proj1 (proj2 (proj2 (fetchDiscordUserData_classification
                                  (Cases.answer 200 Cases.profileBody)))
                   ltac:(discriminate) ltac:(discriminate))).
    eexists. repeat split.
  - apply (proj1 (fetchDiscordUserData_classification
                    (Cases.answer 401 Cases.profileBody))).
    reflexivity.
Defined.

Lemma fetchDiscordUserGuildsData_membership_witness :
  isMember Sample.env Sample.inGuild = true
  /\ fetchDiscordUserGuildsData
       (ResultOk (Cases.answer 200 (JArray [Cases.profileBody])))
     = ResultErr unexpected_response.
Proof.
  split.
  - destruct (proj1 (fetchDiscordUserGuildsData_membership Sample.env
                       (Cases.answer 200 Cases.guildsBody))
                Sample.inGuild eq_refl)
      as (items & Hitems & _ & Hmember).
    injection Hitems as <-. apply Hmember.
    eexists. split; [right; left; reflexivity |].
    split; [discriminate | reflexivity].
  - apply (proj2 (fetchDiscordUserGuildsData_membership Sample.env
                    (Cases.answer 200 (JArray [Cases.profileBody])))
             [Cases.profileBody] Cases.profileBody);
      [discriminate | discriminate | reflexivity | by left | reflexivity].
Defined.

End APIWitnesses.

(** ** Foreign keys and the databases the service reaches *)

Section References.
Import Schema Datastore Discord Handlers Vocabulary.

Lemma upsertDiscordUser_ids (createdAt : Z) (did tok : string) d rs d1 id :
  upsertDiscordUser createdAt did tok d = Some (rs, d1) ->
  In id (map du_id (rows (discordUsers d))) ->
  In id (map du_id (rows (discordUsers d1))).
Proof.
  unfold upsertDiscordUser.
  destruct (getRow _ (discordUsers d)); intros [= _ <-] Hin.
  - unfold withDiscordUsers, discordUsers. by rewrite updateRows_column.
  - simpl. rewrite map_app. apply in_or_app. by left.
Qed.

Lemma upsertMinecraftUser_ids (createdAt : Z) (uuid : string) d rs d1 id :
  upsertMinecraftUser createdAt uuid d = Some (rs, d1) ->
  In id (map mu_id (rows (minecraftUsers d))) ->
  In id (map mu_id (rows (minecraftUsers d1))).
Proof.
  unfold upsertMinecraftUser.
  destruct (getRow _ (minecraftUsers d)); intros [= _ <-] Hin; [done |].
  simpl. rewrite map_app. apply in_or_app. by left.
Qed.

Lemma upsertDiscordUser_references (createdAt : Z) (did tok : string) d rs d1 :
  upsertDiscordUser createdAt did tok d = Some (rs, d1) ->
  referential d -> referential d1.
Proof.
  intros Hrun Href c Hc.
  pose proof (upsertDiscordUser_returns _ _ _ _ _ _ Hrun)
    as (r & _ & _ & _ & _ & Hmu & Hcn & _).
  rewrite Hcn in Hc. rewrite Hmu. destruct (Href c Hc) as [Hd Hm].
  split; [by eapply upsertDiscordUser_ids | done].
Qed.

Lemma upsertMinecraftUser_references (createdAt : Z) (uuid : string) d rs d1 :
  upsertMinecraftUser createdAt uuid d = Some (rs, d1) ->
  referential d -> referential d1.
Proof.
  intros Hrun Href c Hc.
  pose proof (upsertMinecraftUser_returns _ _ _ _ _ Hrun)
    as (r & _ & _ & _ & _ & Hdu & Hcn & _).
  rewrite Hcn in Hc. rewrite Hdu. destruct (Href c Hc) as [Hd Hm].
  split; [done | by eapply upsertMinecraftUser_ids].
Qed.

Lemma upsertConnection_references (createdAt : Z) du mu d u d1 :
  In du (rows (discordUsers d)) -> In mu (rows (minecraftUsers d)) ->
  upsertConnection createdAt (du_id du) (mu_id mu) d = Some (u, d1) ->
  referential d -> referential d1.
Proof.
  intros Hdu Hmu. unfold upsertConnection.
  destruct (getRow _ (connections d)) as [c0|] eqn:Hfind;
    destruct (existsb _ _); try discriminate; intros [= _ <-] Href c Hc;
    simpl in *.
  - apply List.in_map_iff in Hc as (c1 & <- & Hc1).
    destruct (Href c1 Hc1) as [Hd Hm].
    destruct (cn_id c1 =? cn_id c0); [| done].
    split; [exact (List.in_map du_id _ _ Hdu) | done].
  - apply in_app_or in Hc as [Hc|[<-|[]]]; [by apply Href |].
    split; [exact (List.in_map du_id _ _ Hdu) | exact (List.in_map mu_id _ _ Hmu)].
Qed.

Lemma flows_references d t :
  referential d -> referential (withVerificationFlows d t).
Proof. intros Href c Hc. exact (Href c Hc). Qed.

Lemma insertFlow_references (createdAt e : Z) (code uuid : string) d u d1 :
  insertFlow createdAt e code uuid d = Some (u, d1) ->
  referential d -> referential d1.
Proof.
  unfold insertFlow. destruct (existsb _ _); [discriminate |].
  intros [= _ <-]. apply flows_references.
Qed.

Lemma createVerificationFlow_references env out params d :
  referential d -> referential (snd (createVerificationFlow env out params d)).
Proof.
  apply createVerificationFlow_keeps.
  - intros. by apply flows_references.
  - intros. by apply flows_references.
  - intros. by eapply insertFlow_references.
Qed.

Lemma linkDiscordAccount_references env out params d :
  referential d -> referential (snd (linkDiscordAccount env out params d)).
Proof.
  apply linkDiscordAccount_keeps.
  - intros. by eapply upsertDiscordUser_references.
  - intros. by eapply upsertMinecraftUser_references.
  - intros. by eapply upsertConnection_references.
  - intros. by apply flows_references.
Qed.

Lemma verifyConnection_references env out params d :
  referential d -> referential (snd (verifyConnection env out params d)).
Proof.
  apply verifyConnection_keeps.
  - intros d0 id tok Href c Hc. destruct (Href c Hc) as [Hd Hm].
    split; [| done].
    unfold withDiscordUsers, discordUsers. by rewrite updateRows_column.
  - intros d0 where_ Href c Hc. simpl in Hc.
    apply filter_In in Hc as [Hc _]. exact (Href c Hc).
Qed.

(** X20.  Each handler that writes keeps the foreign keys of the schema:
    if every connection references an existing Discord user and an existing
    Minecraft user before the call, the same holds after it, on every path
    and whatever fails on the way. *)
Theorem handlers_keep_references env out d :
  referential d ->
  (forall params, referential (snd (createVerificationFlow env out params d)))
  /\ (forall params, referential (snd (linkDiscordAccount env out params d)))
  /\ (forall params, referential (snd (verifyConnection env out params d))).
Proof.
  intros Href. split; [| split]; intros params.
  - by apply createVerificationFlow_references.
  - by apply linkDiscordAccount_references.
  - by apply verifyConnection_references.
Qed.

Lemma emptyDB_constraints : constraints emptyDB.
Proof. split; simpl; apply NoDup_nil; done. Qed.

(** X21.  Every database that calls of the handlers lead to from the empty
    one satisfies the primary-key and UNIQUE constraints and the foreign
    keys of the schema. *)
Theorem reachable_invariants d :
  reachable d -> constraints d /\ referential d.
Proof.
  induction 1 as [|env out params d Hr [Hc Href]|env out params d Hr [Hc Href]
                  |env out params d Hr [Hc Href]].
  - split; [apply emptyDB_constraints | intros c []].
  - split; [| by apply createVerificationFlow_references].
    apply createVerificationFlow_keeps; auto.
    + intros. by apply updateFlowExpiry_constraints.
    + intros. by apply deleteFlows_constraints.
    + intros. by eapply insertFlow_constraints.
  - split; [by apply constraints_after_link
           | by apply linkDiscordAccount_references].
  - split; [| by apply verifyConnection_references].
    apply verifyConnection_keeps; auto.
    + intros. by apply updateRefreshToken_constraints.
    + intros. by apply deleteConnection_constraints.
Qed.

(** X22.  On a database that satisfies the foreign keys, and with no outage
    of the datastore, [verifyConnection] never answers [DatabaseError]: the
    branch for a connection whose Discord user is missing is not taken, and
    the two writes cannot fail. *)
Theorem verifyConnection_no_database_error env out params d :
  referential d ->
  (forall call, outage out call = false) ->
  fst (verifyConnection env out params d) <> ResultErr DatabaseError.
Proof.
  intros Href Hup. unfold verifyConnection.
  destruct (negb _); [discriminate |].
  rewrite !Hup. unfold tryCatch, selectMinecraftUserByUUID,
    selectConnectionByMinecraftUser, selectDiscordUserById, query. simpl.
  destruct (getRow _ (minecraftUsers d)) as [minecraftUser|]; [| discriminate].
  destruct (getRow _ (connections d)) as [connection|] eqn:Hcn; [| discriminate].
  apply find_some_In in Hcn as [Hcin _].
  destruct (Href connection Hcin) as [Hd _].
  apply List.in_map_iff in Hd as (u & Hid & Hu).
  destruct (getRow _ (discordUsers d)) as [discordUser|] eqn:Hdu.
  - destruct (discordRefreshToken discordUser) as [[|ch rest]|];
      try discriminate.
    destruct (tokenWithRefreshToken _ _) as [token|e];
      [| destruct (isCode e invalid_auth); discriminate].
    simpl.
    destruct (userGuildsData _ _) as [guilds|e];
      [| destruct (isCode e invalid_auth); discriminate].
    destruct (negb _); discriminate.
  - apply (find_none_In _ _ _ Hdu) in Hu. apply Z.eqb_neq in Hu. done.
Qed.

End References.

Section ReferenceWitnesses.
Import Schema Datastore Discord Handlers Vocabulary.

Lemma linkedDB_referential : referential Sample.linkedDB.
Proof.
  intros c [<-|[]]. split; simpl; by left.
Qed.

Lemma handlers_keep_references_witness :
  referential (snd (linkDiscordAccount Sample.env
                      (Sample.outside 1000 Sample.inGuild)
                      Sample.linkParams Sample.linkedDB)).
Proof.
  exact (proj1 (proj2 (handlers_keep_references Sample.env
                         (Sample.outside 1000 Sample.inGuild)
                         Sample.linkedDB linkedDB_referential))
           Sample.linkParams).
Defined.

Lemma reachable_invariants_witness :
  constraints (snd (createVerificationFlow Sample.env
                      (Sample.outside 10000 Sample.inGuild)
                      Sample.flowParamsM2 emptyDB))
  /\ referential (snd (createVerificationFlow Sample.env
                         (Sample.outside 10000 Sample.inGuild)
                         Sample.flowParamsM2 emptyDB)).
Proof.
  exact (reachable_invariants _
           (reach_createVerificationFlow Sample.env
              (Sample.outside 10000 Sample.inGuild) Sample.flowParamsM2
              emptyDB reach_empty)).
Defined.

Lemma verifyConnection_no_database_error_witness :
  fst (verifyConnection Sample.env (Sample.outside 1000 Sample.inGuild)
         Sample.verifyM1 Sample.linkedDB)
  <> ResultErr DatabaseError.
Proof.
  exact (verifyConnection_no_database_error Sample.env
           (Sample.outside 1000 Sample.inGuild) Sample.verifyM1
           Sample.linkedDB linkedDB_referential (fun _ => eq_refl)).
Defined.

End ReferenceWitnesses.

(** ** The registry of handlers *)

Section RegistryFacts.

Variable World Value : Type.

Local Abbreviation Handler := (RPC.RPCHandler World Value).

Lemma createHandlersMap_last (before after : list Handler) (h : Handler) :
  (forall h', In h' after -> RPC.method h' <> RPC.method h) ->
  RPC.createHandlersMap World Value (before ++ h :: after) !! RPC.method h
  = Some h.
Proof.
  induction after as [|x after IH] using rev_ind; intros Hafter.
  - rewrite createHandlersMap_snoc. apply lookup_insert_eq.
  - change (before ++ h :: after ++ [x]) with (before ++ (h :: after) ++ [x]).
    rewrite app_assoc, createHandlersMap_snoc.
    rewrite lookup_insert_ne.
    + apply IH. intros h' Hin. apply Hafter, in_or_app. by left.
    + apply Hafter, in_or_app. right. by left.
Qed.

(** X23.  Of the handlers registered under one method name, the registry
    serves the one that comes last in [RPC_HANDLERS]; when the names are
    pairwise distinct, every registered handler is served under its name
    and the registry has one entry per handler. *)
Theorem getHandlers_registered (RPC_HANDLERS : list Handler) :
  (forall before h after,
     RPC_HANDLERS = before ++ h :: after ->
     (forall h', In h' after -> RPC.method h' <> RPC.method h) ->
     RPC.getHandlers World Value RPC_HANDLERS !! RPC.method h = Some h)
  /\ (NoDup (map RPC.method RPC_HANDLERS) ->
      (forall h, In h RPC_HANDLERS ->
                 RPC.getHandlers World Value RPC_HANDLERS !! RPC.method h = Some h)
      /\ size (RPC.getHandlers World Value RPC_HANDLERS) = length RPC_HANDLERS).
Proof.
  unfold RPC.getHandlers. split.
  - intros before h after -> Hafter. by apply createHandlersMap_last.
  - intros Hnames. split.
    + intros h Hin. apply in_split in Hin as (before & after & ->).
      apply createHandlersMap_last. intros h' Hin' Heq.
      rewrite map_app in Hnames. apply NoDup_app in Hnames as (_ & _ & Hnames).
      simpl in Hnames. apply NoDup_cons in Hnames as [Hnotin _].
      apply Hnotin. rewrite <- Heq. apply list_elem_of_In.
      by apply List.in_map.
    + induction RPC_HANDLERS as [|h handlers IH] using rev_ind; [done |].
      rewrite createHandlersMap_snoc, length_app. simpl.
      rewrite map_app in Hnames. apply NoDup_app in Hnames as (Hl & Hsep & _).
      rewrite map_size_insert_None, IH; [lia | done |].
      pose proof (createHandlersMap_lookup World Value handlers (RPC.method h))
        as Hlookup.
      destruct (_ !! _) as [h'|]; [| done].
      destruct Hlookup as [Hin Hname]. exfalso.
      apply (Hsep (RPC.method h)); [| simpl; set_solver].
      rewrite <- Hname. apply list_elem_of_In. by apply List.in_map.
Qed.

End RegistryFacts.

Lemma getHandlers_registered_witness :
  RPC.getHandlers nat json [Sample.ping] !! "ping"%string = Some Sample.ping
  /\ size (RPC.getHandlers nat json [Sample.ping]) = 1%nat.
Proof.
  destruct (proj2 (getHandlers_registered nat json [Sample.ping]))
    as [Hserved Hsize].
  - apply NoDup_cons. split; [set_solver | apply NoDup_nil; done].
  - split; [apply (Hserved Sample.ping); by left | exact Hsize].
Defined.

(** ** Scopes *)

Section ScopeFacts.
Import OAuthLink DiscordAPI.

Lemma split_word (word : string) :
  ~ In " "%char (list_ascii_of_string word) -> split " " word = [word].
Proof.
  induction word as [|ch word IH]; intros Hfree; simpl; [done |].
  destruct (Ascii.eqb_spec ch " "%char) as [->|Hne];
    [exfalso; apply Hfree; by left |].
  rewrite IH; [done |]. intros Hin. apply Hfree. by right.
Qed.

Lemma split_append (word rest : string) :
  ~ In " "%char (list_ascii_of_string word) ->
  split " " (String.append word (String " " rest)) = word :: split " " rest.
Proof.
  induction word as [|ch word IH]; intros Hfree.
  - reflexivity.
  - change (String.append (String ch word) (String " " rest))
      with (String ch (String.append word (String " " rest))).
    simpl. destruct (Ascii.eqb_spec ch " "%char) as [->|Hne];
      [exfalso; apply Hfree; by left |].
    rewrite IH; [done |]. intros Hin. apply Hfree. by right.
Qed.

(** X24.  The scopes that the authorize URL joins with a space are the
    ones the token functions recover by splitting at spaces, provided there
    is at least one scope and no scope contains a space. *)
Theorem split_join (scopes : list string) :
  scopes <> [] ->
  (forall s, In s scopes -> ~ In " "%char (list_ascii_of_string s)) ->
  split " " (join " " scopes) = scopes.
Proof.
  induction scopes as [|s rest IH]; intros Hne Hfree; [done |].
  destruct rest as [|s' rest].
  - simpl. apply split_word, Hfree. by left.
  - change (join " " (s :: s' :: rest))
      with (String.append s (String " " (join " " (s' :: rest)))).
    rewrite split_append by (apply Hfree; by left).
    rewrite IH; [done | done |]. intros x Hx. apply Hfree. by right.
Qed.

End ScopeFacts.

Lemma split_join_witness :
  DiscordAPI.split " " (OAuthLink.join " " OAuthLink.DISCORD_SCOPES)
  = OAuthLink.DISCORD_SCOPES.
Proof.
  apply split_join; [discriminate |].
  intros s [<-|[<-|[]]]; vm_compute; intuition discriminate.
Defined.

(** ** The script of the web pages *)

Section WebClientFacts.
Import WebClient Vocabulary.

Lemma toInt32_digit (random : Q) :
  (0 <= random < 1)%Q -> 0 <= toInt32 (random * 16) < 16.
Proof.
  intros [Hlow Hhigh]. unfold toInt32.
  assert (Hle : (0 <= random * 16)%Q) by lra.
  apply Qle_bool_iff in Hle as Hbool. rewrite Hbool.
  pose proof (Qfloor_le (random * 16)) as Hfloor.
  pose proof (Qlt_floor (random * 16)) as Hceil.
  assert (Hup : Qfloor (random * 16) < 16).
  { rewrite Zlt_Qlt. change (inject_Z 16) with 16%Q.
    set (fl := inject_Z (Qfloor (random * 16))) in *. lra. }
  assert (Hdown : 0 < Qfloor (random * 16) + 1).
  { rewrite Zlt_Qlt. change (inject_Z 0) with 0%Q.
    set (fl := inject_Z (Qfloor (random * 16) + 1)) in *. lra. }
  rewrite Z.mod_small by lia. lia.
Qed.

Lemma toString16_digit (v : Z) :
  0 <= v < 16 -> toString16 v = String (hexDigit v) "".
Proof.
  intros Hv. unfold toString16.
  destruct (Z.ltb_spec v 0); [lia |].
  simpl. rewrite Z.mod_small, Z.div_small by lia. reflexivity.
Qed.

Lemma small_cases (P : Z -> Prop) (v : Z) :
  0 <= v < 16 ->
  Forall P [0; 1; 2; 3; 4; 5; 6; 7; 8; 9; 10; 11; 12; 13; 14; 15] -> P v.
Proof.
  intros Hv Hall. rewrite List.Forall_forall in Hall. apply Hall.
  replace v with (Z.of_nat (Z.to_nat v)) by lia.
  assert (Hn : (Z.to_nat v < 16)%nat) by lia.
  revert Hn. generalize (Z.to_nat v). intros n Hn.
  do 16 (destruct n as [|n]; [simpl; tauto |]). lia.
Qed.

Lemma replacement_x (random : Q) :
  (0 <= random < 1)%Q ->
  exists ch, replacement random "x" = String ch "" /\ isHex ch = true.
Proof.
  intros Hrandom. apply toInt32_digit in Hrandom.
  unfold replacement. simpl Ascii.eqb. cbv iota.
  rewrite toString16_digit by exact Hrandom.
  eexists. split; [reflexivity |].
  apply (small_cases (fun v => isHex (hexDigit v) = true) _ Hrandom).
  repeat (constructor; [reflexivity |]). constructor.
Qed.

Lemma replacement_y (random : Q) :
  (0 <= random < 1)%Q ->
  exists ch, replacement random "y" = String ch "" /\ isVariant ch = true.
Proof.
  intros Hrandom. apply toInt32_digit in Hrandom.
  unfold replacement. simpl Ascii.eqb. cbv iota.
  apply (small_cases
           (fun r => exists ch,
                toString16 (Z.lor (Z.land r 3) 8) = String ch ""
                /\ isVariant ch = true) _ Hrandom).
  repeat (constructor; [eexists; split; reflexivity |]). constructor.
Qed.

(** X25.  Where the browser has no [crypto.randomUUID], the identifier
    that [generateUUID] builds from [Math.random] has the textual form of a
    version-4 UUID: 36 characters, hyphens after the 8th, 13th, 18th and
    23rd, the digit 4 for the version, one of 8, 9, a, b for the variant and
    lower-case hexadecimal digits elsewhere.  [Math.random] is taken to
    return numbers from 0 up to, not including, 1. *)
Theorem generateUUID_fallback (random : nat -> Q) :
  (forall call, (0 <= random call < 1)%Q) ->
  isUUIDv4 (generateUUID None random) = true.
Proof.
  intros Hrandom. unfold generateUUID, isUUIDv4.
  cbv [replaceXY Ascii.eqb Bool.eqb orb].
  repeat match goal with
         | |- context [replacement (random ?k) "x"%char] =>
             destruct (replacement_x (random k) (Hrandom k)) as (? & -> & ?)
         end.
  repeat match goal with
         | |- context [replacement (random ?k) "y"%char] =>
             destruct (replacement_y (random k) (Hrandom k)) as (? & -> & ?)
         end.
  cbv [String.append matchesPattern Ascii.eqb Bool.eqb].
  repeat match goal with
         | Hd : isHex _ = true |- _ => rewrite Hd; clear Hd
         | Hd : isVariant _ = true |- _ => rewrite Hd; clear Hd
         end.
  reflexivity.
Qed.

Variable World Value : Type.
Variable JSON_parse : string -> option json.
Variable valueJSON : Value -> option json.

(** X26.  Read by [makeRPCRequest], an answer of [handleRPC] never makes
    the client throw and is never taken for a network or parse failure.
    The client reports success with the serialised value exactly when the
    handler resolved, and each of its five RPC errors stands for the
    standard error of the same name, [rpcInternalError] included: the
    [default] branch of the switch is not what produces it. *)
Theorem makeRPCRequest_handleRPC (RPC_HANDLERS : list (RPC.RPCHandler World Value))
  (reqText : Result string unit) (w : World) :
  let answer := fst (RPC.handleRPC World Value JSON_parse RPC_HANDLERS reqText w) in
  exists reply,
    makeRPCRequest (Parsed (responseJSON valueJSON answer)) = Some reply
    /\ match reply with
       | success value =>
           exists v, RPC.payload answer = RPC.result v /\ value = valueJSON v
       | failure rpcParseError =>
           RPC.payload answer = RPC.error RPC.RPCStandardErrors.parseError
       | failure rpcInvalidRequest =>
           RPC.payload answer = RPC.error RPC.RPCStandardErrors.invalidRequest
       | failure rpcMethodNotFound =>
           RPC.payload answer = RPC.error RPC.RPCStandardErrors.methodNotFound
       | failure rpcInvalidParams =>
           RPC.payload answer = RPC.error RPC.RPCStandardErrors.invalidParams
       | failure rpcInternalError =>
           RPC.payload answer = RPC.error RPC.RPCStandardErrors.internalError
       | failure networkError | failure parseError => False
       end.
Proof.
  intros answer. subst answer. unfold RPC.handleRPC.
  destruct reqText as [text|]; [| eexists; split; reflexivity].
  destruct (JSON_parse text) as [reqJSON|]; [| eexists; split; reflexivity].
  destruct (RPC.RPCRequestSchema reqJSON) as [rpcRequest|];
    [| eexists; split; reflexivity].
  destruct (_ !! _) as [h|]; [| eexists; split; reflexivity].
  destruct (RPC.paramsSchema h _) as [params|]; [| eexists; split; reflexivity].
  destruct (RPC.handler h params w) as [[value|] w'];
    [| eexists; split; reflexivity].
  unfold responseJSON. simpl.
  destruct (valueJSON value) as [j|] eqn:Hj; eexists; (split; [reflexivity |]);
    simpl; eauto.
Qed.

End WebClientFacts.

Lemma generateUUID_fallback_witness :
  Vocabulary.isUUIDv4
    (WebClient.generateUUID None (fun call => (Z.of_nat call mod 16 # 16)%Q))
  = true.
Proof.
  apply generateUUID_fallback. intros call.
  pose proof (Z.mod_pos_bound (Z.of_nat call) 16 ltac:(lia)) as Hmod.
  unfold Qle, Qlt. simpl. lia.
Defined.

(** ** From the code to the connection *)

Section Journey.
Import Schema Datastore Discord Handlers Vocabulary OAuthLink.

Variable searchParamsToString : list (string * string) -> string.
Variable numberToString : Q -> string.

Lemma constraints_after_flow env out params d :
  constraints d -> constraints (snd (createVerificationFlow env out params d)).
Proof.
  apply createVerificationFlow_keeps.
  - intros. by apply updateFlowExpiry_constraints.
  - intros. by apply deleteFlows_constraints.
  - intros. by eapply insertFlow_constraints.
Qed.

(** X27.  A code that [createVerificationFlow] has handed out is accepted
    until it expires: at any later instant before the expiry it returned,
    and with the lookup reachable, [getDiscordOAuthLink] answers with a link
    for it and [linkDiscordAccount] does not refuse it as
    [InvalidLinkingCode]. *)
Theorem issued_code_is_accepted lenv env out params d v d1 out2 :
  constraints d ->
  createVerificationFlow env out params d = (Some (ResultOk v), d1) ->
  outage out2 FlowLookup = false ->
  now out2 < value_expiresAt v ->
  (exists url,
     getDiscordOAuthLink searchParamsToString numberToString lenv out2
       {| ol_linkingCode := value_linkingCode v |} d1
     = (ResultOk {| oauthURL := url |}, d1))
  /\ forall linkParams state,
       decodeOAuthState out2 (lp_state linkParams) = Some state ->
       st_linkingCode state = value_linkingCode v ->
       fst (linkDiscordAccount env out2 linkParams d1)
       <> ResultErr InvalidLinkingCode.
Proof.
  intros Hc Hrun Hup Hlive.
  pose proof (constraints_after_flow env out params d Hc) as Hc1.
  rewrite Hrun in Hc1. simpl in Hc1.
  destruct (createVerificationFlow_success env out params d v d1
              (vf_unique_uuid _ Hc) Hrun)
    as (_ & _ & flow & Hin & _ & Hcode & Hexpires).
  assert (Hfind : getRow (fun f => String.eqb (linkingCode f) (value_linkingCode v))
                         (verificationFlows d1) = Some flow).
  { unfold getRow. apply (find_unique_key linkingCode); auto using vf_unique_code.
    - by apply String.eqb_eq.
    - intros y _ Hy. apply String.eqb_eq in Hy. congruence. }
  split.
  - unfold getDiscordOAuthLink, tryCatch. rewrite Hup.
    unfold selectFlowByCode, query. simpl. rewrite Hfind.
    destruct (Z.leb_spec (expiresAt flow) (now out2)); [lia |]. eauto.
  - intros linkParams state Hstate Hsame Hrefused.
    apply (linkDiscordAccount_invalid_code env out2 linkParams d1 state Hstate Hup)
      in Hrefused.
    rewrite Hsame, (liveCollision_getRow d1), Hfind in Hrefused
      by apply Hc1.
    apply Z.ltb_ge in Hrefused. lia.
Qed.

(** Where the row that [upsertDiscordUser] returns comes from. *)
Lemma upsertDiscordUser_origin (createdAt : Z) (did tok : string) d rs d1 :
  upsertDiscordUser createdAt did tok d = Some (rs, d1) ->
  exists r, rs = [r]
            /\ ((exists u, In u (rows (discordUsers d))
                           /\ discordID u = did /\ du_id r = du_id u)
                \/ du_id r = nextId du_id (discordUsers d)).
Proof.
  unfold upsertDiscordUser.
  destruct (getRow _ (discordUsers d)) as [u|] eqn:Hfind; intros [= <- <-];
    eexists; (split; [reflexivity |]).
  - left. apply find_some_In in Hfind as [Hin Hid].
    apply String.eqb_eq in Hid. eauto.
  - right. reflexivity.
Qed.

Lemma upsertMinecraftUser_found (createdAt : Z) (uuid : string) d m :
  NoDup (map mu_minecraftUUID (rows (minecraftUsers d))) ->
  In m (rows (minecraftUsers d)) -> mu_minecraftUUID m = uuid ->
  upsertMinecraftUser createdAt uuid d = Some ([m], d).
Proof.
  intros Hnd Hin Huuid. unfold upsertMinecraftUser, getRow.
  rewrite (find_unique_key mu_minecraftUUID _ _ m); auto.
  - by apply String.eqb_eq.
  - intros y _ Hy. apply String.eqb_eq in Hy. congruence.
Qed.

(** The connection upsert goes through when every connection of the
    Discord user is one of the Minecraft user. *)
Lemma upsertConnection_succeeds (createdAt did mid : Z) d :
  NoDup (map minecraftUserID (rows (connections d))) ->
  (forall c, In c (rows (connections d)) ->
             discordUserID c = did -> minecraftUserID c = mid) ->
  exists d1, upsertConnection createdAt did mid d = Some (tt, d1).
Proof.
  intros Hnd Hown. unfold upsertConnection.
  destruct (getRow _ (connections d)) as [c0|] eqn:Hfind.
  - apply find_some_In in Hfind as [Hin0 Hmid0]. apply Z.eqb_eq in Hmid0.
    destruct (existsb _ _) eqn:Hex; [| eauto].
    apply existsb_exists in Hex as (r & Hr & Hp).
    apply andb_true_iff in Hp as [Hd Hother].
    apply Z.eqb_eq in Hd. apply negb_true_iff, Z.eqb_neq in Hother.
    exfalso. apply Hother. f_equal.
    apply (unique_key_row minecraftUserID (rows (connections d))); auto.
    rewrite (Hown r Hr Hd). by symmetry.
  - destruct (existsb _ _) eqn:Hex; [| eauto].
    apply existsb_exists in Hex as (r & Hr & Hd). apply Z.eqb_eq in Hd.
    apply (find_none_In _ _ _ Hfind) in Hr as Hmid.
    apply Z.eqb_neq in Hmid. exfalso. apply Hmid. by apply Hown.
Qed.

(** X28.  [linkDiscordAccount] succeeds whenever nothing outside stands in
    the way: on a database that satisfies the constraints and the foreign
    keys, with the datastore reachable, a state that carries the code of an
    unexpired flow, Discord calls that succeed and a user who is in the
    guild, it answers with the user's name, provided every connection the
    Discord account already has is one to the Minecraft account of the
    flow. *)
Theorem linkDiscordAccount_succeeds env out params d state flow token
  discordUser guilds :
  constraints d -> referential d ->
  (forall call, outage out call = false) ->
  decodeOAuthState out (lp_state params) = Some state ->
  In flow (rows (verificationFlows d)) ->
  linkingCode flow = st_linkingCode state ->
  now out < expiresAt flow ->
  tokenWithCode out (lp_code params) = ResultOk token ->
  userData out (accessToken token) = ResultOk discordUser ->
  userGuildsData out (accessToken token) = ResultOk guilds ->
  isMember env guilds = true ->
  (forall u c,
     In u (rows (discordUsers d)) -> discordID u = user_id discordUser ->
     In c (rows (connections d)) -> discordUserID c = du_id u ->
     exists m, In m (rows (minecraftUsers d))
               /\ mu_minecraftUUID m = vf_minecraftUUID flow
               /\ minecraftUserID c = mu_id m) ->
  fst (linkDiscordAccount env out params d)
  = ResultOk {| discordUsername := username discordUser |}.
Proof.
  intros Hc Href Hup Hstate Hflow Hcode Hlive Htoken Huser Hguilds Hmember Hown.
  unfold linkDiscordAccount, tryCatch. rewrite Hstate, !Hup.
  unfold selectFlowByCodeUnexpired, query, getRow.
  rewrite (find_unique_key linkingCode _ _ flow); auto using vf_unique_code.
  2: { apply andb_true_iff. split; [by apply String.eqb_eq | by apply Z.ltb_lt]. }
  2: { intros y _ Hy. apply andb_true_iff in Hy as [Hy _].
       apply String.eqb_eq in Hy. congruence. }
  rewrite Htoken, Huser, Hguilds, Hmember. simpl negb. cbv iota.
  unfold batch at 1.
  destruct (upsertDiscordUser (now out) (user_id discordUser)
              (refreshToken token) d) as [[rs1 da]|] eqn:H1;
    [| by unfold upsertDiscordUser in H1; destruct (getRow _ _)].
  destruct (upsertMinecraftUser (now out) (vf_minecraftUUID flow) da)
    as [[rs2 db]|] eqn:H2;
    [| by unfold upsertMinecraftUser in H2; destruct (getRow _ _)].
  pose proof (upsertDiscordUser_origin _ _ _ _ _ _ H1) as (dr & -> & Horigin).
  pose proof (upsertDiscordUser_returns _ _ _ _ _ _ H1)
    as (dr' & [= <-] & _ & _ & _ & Hmu1 & Hcn1 & _).
  pose proof (upsertMinecraftUser_returns _ _ _ _ _ H2)
    as (mr & -> & _ & Hmuuid & Hmorigin & _ & Hcn2 & _).
  change (head [dr]) with (Some dr). change (head [mr]) with (Some mr).
  cbv iota. unfold batch.
  destruct (upsertConnection_succeeds (now out) (du_id dr) (mu_id mr) db)
    as (dc & Hdc).
  - rewrite Hcn2, Hcn1. apply (cn_unique_minecraft _ Hc).
  - rewrite Hcn2, Hcn1. intros c Hin Hd.
    destruct Horigin as [(u & Hu & Hdid & Hsame)|Hnew].
    + rewrite Hsame in Hd.
      destruct (Hown u c Hu Hdid Hin Hd) as (m & Hm & Hmuuid' & ->).
      f_equal. rewrite <- Hmu1 in Hm.
      destruct Hmorigin as [Hold|Hfresh].
      * apply (unique_key_row mu_minecraftUUID (rows (minecraftUsers da))); auto.
        -- rewrite Hmu1. apply (mu_unique_uuid _ Hc).
        -- congruence.
      * exfalso.
        assert (Hfound : upsertMinecraftUser (now out) (vf_minecraftUUID flow) da
                         = Some ([m], da)).
        { apply upsertMinecraftUser_found; auto.
          rewrite Hmu1. apply (mu_unique_uuid _ Hc). }
        rewrite Hfound in H2. injection H2 as <- _.
        specialize (Hfresh m Hm). lia.
    + exfalso. destruct (Href c Hin) as [Hd' _].
      rewrite Hd, Hnew in Hd'. by apply nextId_fresh in Hd'.
  - rewrite Hdc. unfold deleteFlowById, exec. reflexivity.
Qed.

(** X29.  A player who has just been linked passes verification: after a
    successful [linkDiscordAccount] for the code of a flow, a
    [verifyConnection] for the Minecraft UUID of that flow succeeds,
    provided the secret is right, the datastore is reachable, the refresh
    token that the link stored is not empty and is accepted, and the user
    is still in the guild. *)
Theorem linked_player_verifies env out params d v d1 out2 secret state flow
  token token2 guilds :
  constraints d ->
  linkDiscordAccount env out params d = (ResultOk v, d1) ->
  decodeOAuthState out (lp_state params) = Some state ->
  In flow (rows (verificationFlows d)) ->
  linkingCode flow = st_linkingCode state ->
  tokenWithCode out (lp_code params) = ResultOk token ->
  refreshToken token <> ""%string ->
  compare env secret = true ->
  (forall call, outage out2 call = false) ->
  tokenWithRefreshToken out2 (refreshToken token) = ResultOk token2 ->
  userGuildsData out2 (accessToken token2) = ResultOk guilds ->
  isMember env guilds = true ->
  fst (verifyConnection env out2
         {| vp_minecraftUUID := vf_minecraftUUID flow;
            vp_sharedSecret := secret |} d1)
  = ResultOk tt.
Proof.
  intros Hc Hrun Hstate Hflow Hcode Htoken Hnonempty Hsecret Hup Hrefresh
    Hguilds Hmember.
  pose proof (constraints_after_link env out params d Hc) as Hc1.
  rewrite Hrun in Hc1. simpl in Hc1.
  destruct (linkDiscordAccount_rows _ _ _ _ _ _ Hrun)
    as (state0 & flow0 & token0 & discordUser & guilds0 & dr & mr & cn
        & Hstate0 & Hflow0 & Htoken0 & _ & _ & _ & _ & Hdr & _ & Hdtok
        & Hmr & Hmuuid & Hcn & Hcdid & Hcmid & _ & _).
  rewrite Hstate in Hstate0. injection Hstate0 as <-.
  rewrite Htoken in Htoken0. injection Htoken0 as <-.
  apply find_some_In in Hflow0 as [Hin0 Hsel0].
  apply andb_true_iff in Hsel0 as [Hcode0 _]. apply String.eqb_eq in Hcode0.
  assert (flow0 = flow) as ->.
  { apply (unique_key_row linkingCode (rows (verificationFlows d)));
      auto using vf_unique_code. congruence. }
  unfold verifyConnection, tryCatch. simpl vp_sharedSecret.
  rewrite Hsecret, !Hup. simpl negb. cbv iota.
  unfold selectMinecraftUserByUUID, selectConnectionByMinecraftUser,
    selectDiscordUserById, query, getRow. simpl vp_minecraftUUID.
  rewrite (find_unique_key mu_minecraftUUID _ _ mr); auto using mu_unique_uuid.
  2: { by apply String.eqb_eq. }
  2: { intros y _ Hy. apply String.eqb_eq in Hy. congruence. }
  rewrite (find_unique_key minecraftUserID _ _ cn); auto using cn_unique_minecraft.
  2: { by apply Z.eqb_eq. }
  2: { intros y _ Hy. apply Z.eqb_eq in Hy. congruence. }
  rewrite (find_unique_key du_id _ _ dr); auto using du_pk.
  2: { apply Z.eqb_eq. by symmetry. }
  2: { intros y _ Hy. apply Z.eqb_eq in Hy. congruence. }
  rewrite Hdtok.
  destruct (refreshToken token) as [|ch rest] eqn:Hstored; [done |].
  rewrite Hrefresh. unfold updateRefreshToken, exec.
  rewrite Hguilds, Hmember. reflexivity.
Qed.

End Journey.
Section JourneyWitnesses.
Import Schema Datastore Discord Handlers Vocabulary OAuthLink.

Lemma issued_code_is_accepted_witness :
  exists url,
    getDiscordOAuthLink Cases.valuesOnly Cases.printNothing Cases.linkEnv
      (Sample.outside 20000 Sample.inGuild)
      {| ol_linkingCode := "aba9b9ab" |}
      (snd (createVerificationFlow Sample.env
              (Sample.outside 10000 Sample.inGuild)
              Sample.flowParamsM2 Cases.staleDB))
    = (ResultOk {| oauthURL := url |},
       snd (createVerificationFlow Sample.env
              (Sample.outside 10000 Sample.inGuild)
              Sample.flowParamsM2 Cases.staleDB)).
Proof.
  exact (proj1 (issued_code_is_accepted Cases.valuesOnly Cases.printNothing
                  Cases.linkEnv Sample.env
                  (Sample.outside 10000 Sample.inGuild) Sample.flowParamsM2
                  Cases.staleDB
                  {| value_expiresAt := 910000;
                     value_linkingCode := "aba9b9ab" |}
                  _ (Sample.outside 20000 Sample.inGuild)
                  staleDB_constraints eq_refl eq_refl eq_refl)).
Defined.

Lemma linkDiscordAccount_succeeds_witness :
  fst (linkDiscordAccount Sample.env (Sample.outside 1000 Sample.inGuild)
         Sample.linkParams Sample.freshDB)
  = ResultOk {| discordUsername := "dino" |}.
Proof.
  exact (linkDiscordAccount_succeeds Sample.env
           (Sample.outside 1000 Sample.inGuild) Sample.linkParams
           Sample.freshDB
           {| st_linkingCode := "aaaaaaaa"; st_timestamp := 5%Q |}
           Sample.flowM2 Sample.token Sample.dino Sample.inGuild
           freshDB_constraints (fun c (Hc : In c []) => match Hc with end)
           (fun _ => eq_refl) eq_refl (or_introl eq_refl) eq_refl eq_refl
           eq_refl eq_refl eq_refl eq_refl
           (fun u c (Hu : In u []) => match Hu with end)).
Defined.

Lemma linked_player_verifies_witness :
  fst (verifyConnection Sample.env (Sample.outside 2000 Sample.inGuild)
         {| vp_minecraftUUID := "M2"; vp_sharedSecret := "secret" |}
         (snd (linkDiscordAccount Sample.env
                 (Sample.outside 1000 Sample.inGuild)
                 Sample.linkParams Sample.freshDB)))
  = ResultOk tt.
Proof.
  exact (linked_player_verifies Sample.env
           (Sample.outside 1000 Sample.inGuild) Sample.linkParams
           Sample.freshDB {| discordUsername := "dino" |} _
           (Sample.outside 2000 Sample.inGuild) "secret"
           {| st_linkingCode := "aaaaaaaa"; st_timestamp := 5%Q |}
           Sample.flowM2 Sample.token Sample.token Sample.inGuild
           freshDB_constraints eq_refl eq_refl (or_introl eq_refl) eq_refl
           eq_refl ltac:(discriminate) eq_refl (fun _ => eq_refl) eq_refl
           eq_refl eq_refl).
Defined.

End JourneyWitnesses.
